(** * A shallow embedding of [tetris.py]

    The game rules of the repository: shape rotation, the [Piece] class and
    the [Tetris] controller.  Python integers used as coordinates and sizes
    are modelled by [Z]; row bitmasks (non-negative integers) by [N];
    Python exceptions by the [Raise] constructor of [result]. *)

From Stdlib Require Import ZArith NArith List Bool Ascii Lia.
From stdpp Require Import base list.
Import ListNotations.

Local Open Scope Z_scope.

(** ** Exceptions *)

Inductive exn : Type := ValueError | IndexError | AttributeError.

Inductive result (A : Type) : Type :=
| Ok (a : A)
| Raise (e : exn).

Arguments Ok {A} a.
Arguments Raise {A} e.

Definition bind {A B : Type} (r : result A) (k : A -> result B) : result B :=
  match r with
  | Ok a => k a
  | Raise e => Raise e
  end.

Notation "x <- r ;; k" := (bind r (fun x => k))
  (at level 100, r at next level, right associativity).

Fixpoint mapM {A B : Type} (f : A -> result B) (l : list A) : result (list B) :=
  match l with
  | [] => Ok []
  | a :: l' => b <- f a ;; bs <- mapM f l' ;; Ok (b :: bs)
  end.

(** ** Python primitives used by the source *)

(** [int.bit_length()] on a non-negative integer. *)
Definition bit_length (layer : N) : Z := Z.of_N (N.size layer).

(** [max(...)] over a sequence of integers; [ValueError] when it is empty. *)
Definition py_max (l : list Z) : result Z :=
  match l with
  | [] => Raise ValueError
  | x :: l' => Ok (fold_left Z.max l' x)
  end.

(** Binary digits of a positive number, least significant first. *)
Fixpoint pos_digits (p : positive) : list ascii :=
  match p with
  | xH => ["1"%char]
  | xO q => "0"%char :: pos_digits q
  | xI q => "1"%char :: pos_digits q
  end.

(** [format(layer, "b")]: binary digits, most significant first. *)
Definition bin_str (layer : N) : list ascii :=
  match layer with
  | N0 => ["0"%char]
  | Npos p => rev (pos_digits p)
  end.

(** [f"{layer:0>{width}b}"]: right-aligned, filled with ['0'] up to [width]
    characters; a longer digit string is left as it is. *)
Definition format_b (layer : N) (width : Z) : list ascii :=
  let s := bin_str layer in
  repeat "0"%char (Z.to_nat width - length s)%nat ++ s.

(** [zip] applied to the unpacked [rows]: the columns of [rows], as many as the shortest row has
    characters; nothing when [rows] is empty. *)
Definition min_length {A : Type} (rows : list (list A)) : nat :=
  match rows with
  | [] => 0%nat
  | r :: rows' => fold_left Nat.min (map (@length A) rows') (length r)
  end.

Definition zip_star (rows : list (list ascii)) : list (list ascii) :=
  map (fun k => map (fun r => nth k r "0"%char) rows) (seq 0 (min_length rows)).

(** [int(s, 2)] on a string of binary digits. *)
Definition digit2 (c : ascii) : result N :=
  if Ascii.eqb c "0" then Ok 0%N
  else if Ascii.eqb c "1" then Ok 1%N
  else Raise ValueError.

Fixpoint int2_loop (acc : N) (s : list ascii) : result N :=
  match s with
  | [] => Ok acc
  | c :: s' => d <- digit2 c ;; int2_loop (2 * acc + d)%N s'
  end.

Definition int2 (s : list ascii) : result N :=
  match s with
  | [] => Raise ValueError
  | _ => int2_loop 0%N s
  end.

(** [x << n]: [ValueError] on a negative shift count. *)
Definition py_shl (x : N) (n : Z) : result N :=
  if n <? 0 then Raise ValueError else Ok (N.shiftl x (Z.to_N n)).

(** Python list indexing: a negative index counts from the end. *)
Definition py_index {A : Type} (l : list A) (i : Z) : result nat :=
  let len := Z.of_nat (length l) in
  if (0 <=? i) && (i <? len) then Ok (Z.to_nat i)
  else if (- len <=? i) && (i <? 0) then Ok (Z.to_nat (len + i))
  else Raise IndexError.

Definition getitem {A : Type} (l : list A) (i : Z) : result A :=
  k <- py_index l i ;;
  match l !! k with
  | Some x => Ok x
  | None => Raise IndexError
  end.

Definition setitem {A : Type} (l : list A) (i : Z) (x : A) : result (list A) :=
  k <- py_index l i ;; Ok (<[k:=x]> l).

(** [enumerate(l)]: the elements paired with their index. *)
Definition enumerate {A : Type} (l : list A) : list (Z * A) :=
  combine (map Z.of_nat (seq 0 (length l))) l.

(** [sep.join(lines)] for the one-character separator [sep]. *)
Definition join (sep : ascii) (lines : list (list ascii)) : list ascii :=
  match lines with
  | [] => []
  | l :: ls => l ++ flat_map (fun x => sep :: x) ls
  end.

(** ** [Loc] and [Dir] *)

Record Loc : Type := mkLoc { row : Z; col : Z }.

Inductive Dir : Type := N_ | E_ | S_ | W_.

Definition Dir_value (d : Dir) : Z :=
  match d with N_ => 0 | E_ => 1 | S_ => 2 | W_ => 3 end.

(** [Dir(v)]: lookup of an enum member by value. *)
Definition Dir_of_value (v : Z) : result Dir :=
  if v =? 0 then Ok N_
  else if v =? 1 then Ok E_
  else if v =? 2 then Ok S_
  else if v =? 3 then Ok W_
  else Raise ValueError.

(** A dictionary whose keys are exactly the four members of [Dir]. *)
Record DirMap (A : Type) : Type :=
  mkDirMap { atN : A; atE : A; atS : A; atW : A }.

Arguments mkDirMap {A}.
Arguments atN {A}.
Arguments atE {A}.
Arguments atS {A}.
Arguments atW {A}.

Definition dget {A : Type} (m : DirMap A) (d : Dir) : A :=
  match d with
  | N_ => atN m
  | E_ => atE m
  | S_ => atS m
  | W_ => atW m
  end.

(** ** [rotation] *)

Definition rotation (shape : list N) : result (list N) :=
  width <- py_max (map bit_length shape) ;;
  mapM int2 (zip_star (rev (map (fun layer => format_b layer width) shape))).

(** ** [Piece] *)

Record Piece : Type := mkPiece {
  shapes : DirMap (list N);
  loc : Loc;
  rot : Dir;
  widths : DirMap Z;
  heights : DirMap Z
}.

Definition shape_width (shape : list N) : result Z :=
  py_max (map bit_length shape).

Definition Piece_init (loc0 : Loc) (shape : list N) : result Piece :=
  r1 <- rotation shape ;;
  r2 <- rotation r1 ;;
  r3 <- rotation r2 ;;
  let shapes0 := {| atN := shape; atW := r1; atS := r2; atE := r3 |} in
  wN <- shape_width (atN shapes0) ;;
  wW <- shape_width (atW shapes0) ;;
  wS <- shape_width (atS shapes0) ;;
  wE <- shape_width (atE shapes0) ;;
  Ok {| shapes := shapes0;
        loc := loc0;
        rot := N_;
        widths := {| atN := wN; atW := wW; atS := wS; atE := wE |};
        heights := {| atN := Z.of_nat (length (atN shapes0));
                      atW := Z.of_nat (length (atW shapes0));
                      atS := Z.of_nat (length (atS shapes0));
                      atE := Z.of_nat (length (atE shapes0)) |} |}.

Definition get_width (p : Piece) : Z := dget (widths p) (rot p).

Definition get_height (p : Piece) : Z := dget (widths p) (rot p).

Definition get_bits (p : Piece) : result (list N) :=
  mapM (fun layer => py_shl layer (col (loc p) - get_width p))
       (dget (shapes p) (rot p)).

Definition set_rot (p : Piece) (d : Dir) : Piece :=
  {| shapes := shapes p; loc := loc p; rot := d;
     widths := widths p; heights := heights p |}.

Definition set_loc (p : Piece) (l : Loc) : Piece :=
  {| shapes := shapes p; loc := l; rot := rot p;
     widths := widths p; heights := heights p |}.

Definition Piece_rot_right (p : Piece) : result Piece :=
  d <- Dir_of_value ((Dir_value (rot p) + 1) mod 4) ;; Ok (set_rot p d).

Definition Piece_rot_left (p : Piece) : result Piece :=
  d <- Dir_of_value ((Dir_value (rot p) - 1) mod 4) ;; Ok (set_rot p d).

(** [Piece.__str__]: the rows of the variant stored under [Dir.N], last
    row first, each formatted to the width of the current rotation state. *)
Definition Piece_str_lines (p : Piece) : list (list ascii) :=
  map (fun layer => format_b layer (get_width p)) (rev (dget (shapes p) N_)).

Definition Piece_str (p : Piece) : list ascii :=
  join "010"%char (Piece_str_lines p).

Definition SHAPES : list (list ascii * list N) :=
  [ (["o"%char], [3; 3]%N);
    (["i"%char], [1; 1; 1; 1]%N);
    (["s"%char], [6; 3]%N);
    (["z"%char], [3; 6]%N);
    (["j"%char], [3; 1; 1]%N);
    (["l"%char], [3; 2; 2]%N);
    (["t"%char], [2; 7]%N) ].

Definition SHAPES_values : list (list N) := map snd SHAPES.

(** ** [Tetris] *)

(** The attributes of a [Tetris] object.  [current_piece] is [None] only
    while the constructor runs; [can_hold] is [None] as long as the attribute
    has not been assigned (the constructor does not assign it). *)
Record Tetris : Type := mkTetris {
  width : Z;
  height : Z;
  board : list N;
  FULL_ROW : N;
  current_piece : option Piece;
  hold_piece : option Piece;
  cleared_lines : Z;
  starting_level : Z;
  game_over : bool;
  can_hold : option bool
}.

Definition set_board (s : Tetris) (b : list N) : Tetris :=
  {| width := width s; height := height s; board := b;
     FULL_ROW := FULL_ROW s; current_piece := current_piece s;
     hold_piece := hold_piece s; cleared_lines := cleared_lines s;
     starting_level := starting_level s; game_over := game_over s;
     can_hold := can_hold s |}.

Definition set_current_piece (s : Tetris) (p : option Piece) : Tetris :=
  {| width := width s; height := height s; board := board s;
     FULL_ROW := FULL_ROW s; current_piece := p;
     hold_piece := hold_piece s; cleared_lines := cleared_lines s;
     starting_level := starting_level s; game_over := game_over s;
     can_hold := can_hold s |}.

Definition set_hold_piece (s : Tetris) (p : option Piece) : Tetris :=
  {| width := width s; height := height s; board := board s;
     FULL_ROW := FULL_ROW s; current_piece := current_piece s;
     hold_piece := p; cleared_lines := cleared_lines s;
     starting_level := starting_level s; game_over := game_over s;
     can_hold := can_hold s |}.

Definition set_cleared_lines (s : Tetris) (n : Z) : Tetris :=
  {| width := width s; height := height s; board := board s;
     FULL_ROW := FULL_ROW s; current_piece := current_piece s;
     hold_piece := hold_piece s; cleared_lines := n;
     starting_level := starting_level s; game_over := game_over s;
     can_hold := can_hold s |}.

Definition set_game_over (s : Tetris) (b : bool) : Tetris :=
  {| width := width s; height := height s; board := board s;
     FULL_ROW := FULL_ROW s; current_piece := current_piece s;
     hold_piece := hold_piece s; cleared_lines := cleared_lines s;
     starting_level := starting_level s; game_over := b;
     can_hold := can_hold s |}.

Definition set_can_hold (s : Tetris) (b : option bool) : Tetris :=
  {| width := width s; height := height s; board := board s;
     FULL_ROW := FULL_ROW s; current_piece := current_piece s;
     hold_piece := hold_piece s; cleared_lines := cleared_lines s;
     starting_level := starting_level s; game_over := game_over s;
     can_hold := b |}.

(** Reading [self.current_piece.<attr>]: [AttributeError] on [None]. *)
Definition the_piece (s : Tetris) : result Piece :=
  match current_piece s with
  | Some p => Ok p
  | None => Raise AttributeError
  end.

Definition len (b : list N) : Z := Z.of_nat (length b).

(** The loop of [piece_en_cours]; [layer_row] is [row + loc.row].  The
    generator of [get_bits] shifts every layer by the same count, so it
    raises at the first layer or never: it is taken as a whole. *)
Fixpoint piece_en_cours_loop (b : list N) (layer_row : Z) (shape : list N)
  : result bool :=
  match shape with
  | [] => Ok true
  | layer :: shape' =>
      if layer_row >=? len b then Ok true
      else
        x <- getitem b layer_row ;;
        if negb (N.land x layer =? 0)%N then Ok false
        else piece_en_cours_loop b (layer_row + 1) shape'
  end.

Definition piece_en_cours (s : Tetris) : result bool :=
  p <- the_piece s ;;
  if row (loc p) <? 0 then Ok false
  else if col (loc p) >? width s then Ok false
  else if col (loc p) - get_width p <? 0 then Ok false
  else
    shape <- get_bits p ;;
    piece_en_cours_loop (board s) (row (loc p)) shape.

Definition _add_piece (s : Tetris) (shape : list N) : result Tetris :=
  new_piece <- Piece_init (mkLoc (height s - Z.of_nat (length shape))
                                 (width s / 2)) shape ;;
  let s1 := set_current_piece s (Some new_piece) in
  ok <- piece_en_cours s1 ;;
  if negb ok then Ok (set_game_over s1 true) else Ok s1.

(** [random.choice(list(SHAPES.values()))]: the drawn shape is the argument
    [choice], a member of [SHAPES_values]. *)
Definition _next_piece (s : Tetris) (choice : list N) : result Tetris :=
  _add_piece s choice.

Definition keep_row (full : N) (layer : N) : bool := negb (layer =? full)%N.

Definition _clear_rows (s : Tetris) : Tetris :=
  let prev_num_lines := len (board s) in
  let s1 := set_board s (List.filter (keep_row (FULL_ROW s)) (board s)) in
  set_cleared_lines s1 (cleared_lines s1 + (prev_num_lines - len (board s1))).

(** The loop of [_stop_piece]. *)
Fixpoint _stop_piece_loop (b : list N) (layer_row : Z) (shape : list N)
  : result (list N) :=
  match shape with
  | [] => Ok b
  | layer :: shape' =>
      if layer_row <? len b then
        x <- getitem b layer_row ;;
        b' <- setitem b layer_row (N.lor x layer) ;;
        _stop_piece_loop b' (layer_row + 1) shape'
      else _stop_piece_loop (b ++ [layer]) (layer_row + 1) shape'
  end.

Definition _stop_piece (s : Tetris) (choice : list N) : result Tetris :=
  p <- the_piece s ;;
  shape <- get_bits p ;;
  b <- _stop_piece_loop (board s) (row (loc p)) shape ;;
  let s1 := _clear_rows (set_board s b) in
  s2 <- _next_piece s1 choice ;;
  Ok (set_can_hold s2 (Some true)).

Definition move_piece (s : Tetris) (drow dcol : Z) : result Tetris :=
  p <- the_piece s ;;
  Ok (set_current_piece s
        (Some (set_loc p (mkLoc (row (loc p) + drow) (col (loc p) + dcol))))).

Definition move_down (s : Tetris) (choice : list N) : result (bool * Tetris) :=
  s1 <- move_piece s (-1) 0 ;;
  ok <- piece_en_cours s1 ;;
  if negb ok then
    s2 <- move_piece s1 1 0 ;;
    s3 <- _stop_piece s2 choice ;;
    Ok (false, s3)
  else Ok (true, s1).

(** [drop]: the [while] loop, unrolled at most [fuel] times; [None] when
    the fuel runs out before the loop exits. *)
Fixpoint drop_loop (fuel : nat) (s : Tetris) (choice : list N)
  : option (result Tetris) :=
  match fuel with
  | O => None
  | S fuel' =>
      match move_down s choice with
      | Raise e => Some (Raise e)
      | Ok (true, s') => drop_loop fuel' s' choice
      | Ok (false, s') => Some (Ok s')
      end
  end.

Definition move_left (s : Tetris) : result Tetris :=
  s1 <- move_piece s 0 1 ;;
  ok <- piece_en_cours s1 ;;
  if negb ok then move_piece s1 0 (-1) else Ok s1.

Definition move_right (s : Tetris) : result Tetris :=
  s1 <- move_piece s 0 (-1) ;;
  ok <- piece_en_cours s1 ;;
  if negb ok then move_piece s1 0 1 else Ok s1.

Definition turn_piece (s : Tetris) (f : Piece -> result Piece) : result Tetris :=
  p <- the_piece s ;;
  p' <- f p ;;
  Ok (set_current_piece s (Some p')).

Definition rot_right (s : Tetris) : result Tetris :=
  s1 <- turn_piece s Piece_rot_right ;;
  ok <- piece_en_cours s1 ;;
  if negb ok then turn_piece s1 Piece_rot_left else Ok s1.

Definition rot_left (s : Tetris) : result Tetris :=
  s1 <- turn_piece s Piece_rot_left ;;
  ok <- piece_en_cours s1 ;;
  if negb ok then turn_piece s1 Piece_rot_right else Ok s1.

Definition read_can_hold (s : Tetris) : result bool :=
  match can_hold s with
  | Some b => Ok b
  | None => Raise AttributeError
  end.

Definition hold (s : Tetris) (choice : list N) : result Tetris :=
  s' <- match hold_piece s with
        | None =>
            _next_piece (set_hold_piece s (current_piece s)) choice
        | Some hp =>
            ch <- read_can_hold s ;;
            if ch then
              let held_shape := dget (shapes hp) N_ in
              _add_piece (set_hold_piece s (current_piece s)) held_shape
            else Ok s
        end ;;
  Ok (set_can_hold s' (Some false)).

Definition get_level (s : Tetris) : Z :=
  starting_level s + cleared_lines s / 10.

(** The local function [get_row_num_bits] of [Tetris.__str__]. *)
Definition get_row_num_bits (current_piece_bits : list N)
    (current_piece_row : Z) (r : Z) (layer : N) : result N :=
  if (0 <=? r - current_piece_row)
     && (r - current_piece_row <? len current_piece_bits)
  then
    x <- getitem current_piece_bits (r - current_piece_row) ;;
    Ok (N.lor layer x)
  else Ok layer.

(** [Tetris.__str__]: the lines that are joined with a newline.  [[0] * n]
    is empty when [n] is negative. *)
Definition Tetris_str_lines (s : Tetris) : result (list (list ascii)) :=
  p <- the_piece s ;;
  current_piece_bits <- get_bits p ;;
  let current_piece_row := row (loc p) in
  mapM (fun il : Z * N =>
          x <- get_row_num_bits current_piece_bits current_piece_row
                                (height s - fst il - 1) (snd il) ;;
          Ok (format_b x (width s)))
       (enumerate (repeat 0%N (Z.to_nat (height s - len (board s)))
                   ++ rev (board s))).

Definition Tetris_str (s : Tetris) : result (list ascii) :=
  lines <- Tetris_str_lines s ;; Ok (join "010"%char lines).

(** [Tetris.__init__].  [old_can_hold] is the [can_hold] attribute the
    object already has: [None] for a fresh object, the current value when
    the constructor is called again on a live object.  The embedding covers
    [0 <= width], where [2 ** width - 1] is an integer. *)
Definition Tetris_init (old_can_hold : option bool)
    (height0 width0 starting_level0 : Z) (choice : list N) : result Tetris :=
  let s0 := {| width := width0; height := height0; board := [];
               FULL_ROW := (2 ^ Z.to_N width0 - 1)%N;
               current_piece := None; hold_piece := None;
               cleared_lines := 0; starting_level := 0;
               game_over := false; can_hold := old_can_hold |} in
  s1 <- _next_piece s0 choice ;;
  Ok {| width := width s1; height := height s1; board := board s1;
        FULL_ROW := FULL_ROW s1; current_piece := current_piece s1;
        hold_piece := None; cleared_lines := 0;
        starting_level := starting_level0; game_over := false;
        can_hold := can_hold s1 |}.

(** The key ["r"] of [main]: [t.__init__()] with the default arguments. *)
Definition restart (s : Tetris) (choice : list N) : result Tetris :=
  Tetris_init (can_hold s) 20 10 0 choice.

(** ** Sessions *)

(** The actions the driver loop of [main] applies to the controller.  An
    action that may spawn carries the shape drawn by [random.choice];
    [Drop] carries the number of loop iterations allowed. *)
Inductive action : Type :=
| MoveDown (choice : list N)
| MoveLeft
| MoveRight
| Drop (fuel : nat) (choice : list N)
| RotRight
| RotLeft
| Hold (choice : list N)
| Restart (choice : list N).

Definition step (s : Tetris) (a : action) : option (result Tetris) :=
  match a with
  | MoveDown c => Some (r <- move_down s c ;; Ok (snd r))
  | MoveLeft => Some (move_left s)
  | MoveRight => Some (move_right s)
  | Drop fuel c => drop_loop fuel s c
  | RotRight => Some (rot_right s)
  | RotLeft => Some (rot_left s)
  | Hold c => Some (hold s c)
  | Restart c => Some (restart s c)
  end.

(** Every drawn shape is a value of [SHAPES]. *)
Definition legal (a : action) : Prop :=
  match a with
  | MoveDown c | Drop _ c | Hold c | Restart c => In c SHAPES_values
  | MoveLeft | MoveRight | RotRight | RotLeft => True
  end.

Fixpoint run (s : Tetris) (acts : list action) : option (result Tetris) :=
  match acts with
  | [] => Some (Ok s)
  | a :: acts' =>
      match step s a with
      | Some (Ok s') => run s' acts'
      | other => other
      end
  end.

(** The states of a session: a [Tetris] object built by the constructor
    (with a width that is not negative), followed by any number of actions
    that returned without an exception. *)
Inductive reachable : Tetris -> Prop :=
| reach_init (height0 width0 level0 : Z) (choice : list N) (s : Tetris) :
    0 <= width0 -> In choice SHAPES_values ->
    Tetris_init None height0 width0 level0 choice = Ok s ->
    reachable s
| reach_step (s : Tetris) (a : action) (s' : Tetris) :
    reachable s -> legal a -> step s a = Some (Ok s') ->
    reachable s'.

(** ** The placement invariant, in the words of the specification

    Cells are pairs of a board row and a column; column 0 is bit 0 of a row
    bitmask. *)

(** The cell [(r, c)] is covered by piece [p] placed at its anchor. *)
Definition occupied (p : Piece) (r c : Z) : Prop :=
  exists (i : nat) (layer : N),
    dget (shapes p) (rot p) !! i = Some layer /\
    r = row (loc p) + Z.of_nat i /\
    0 <= c - (col (loc p) - get_width p) /\
    N.testbit layer (Z.to_N (c - (col (loc p) - get_width p))) = true.

(** The cell [(r, c)] is a locked cell of board [b]. *)
Definition locked (b : list N) (r c : Z) : Prop :=
  0 <= r /\ 0 <= c /\
  exists x : N, b !! Z.to_nat r = Some x /\ N.testbit x (Z.to_N c) = true.

(** Every covered cell lies in the columns [0 .. width-1], in a row at or
    above row 0, and on no locked cell. *)
Definition placement_ok (s : Tetris) (p : Piece) : Prop :=
  forall r c : Z, occupied p r c ->
    0 <= c < width s /\ 0 <= r /\ ~ locked (board s) r c.

(** Some covered cell overlaps a locked cell, lies outside the columns of
    the board, or lies below row 0. *)
Definition violates (s : Tetris) (p : Piece) : Prop :=
  exists r c : Z, occupied p r c /\
    (locked (board s) r c \/ c < 0 \/ width s <= c \/ r < 0).

(** The claim of the specification about [rotation], as it is worded:
    [shape] of height [h] and width [w] is rotated to height [w] and width
    [h]. *)
Definition rotation_swaps_dimensions (shape : list N) : Prop :=
  exists (r : list N) (w : Z),
    shape_width shape = Ok w /\
    rotation shape = Ok r /\
    Z.of_nat (length r) = w /\
    shape_width r = Ok (Z.of_nat (length shape)).

(** * Predicates and values used in the statements *)

(** No layer of [shape], placed from board row [r] upwards, shares a bit
    with the board row it lies on. *)
Definition no_overlap (b : list N) (r : Z) (shape : list N) : Prop :=
  forall (i : nat) (layer x : N),
    shape !! i = Some layer ->
    b !! (Z.to_nat r + i)%nat = Some x ->
    N.land x layer = 0%N.

(** The layers of [p] shifted to its board columns. *)
Definition bits_of (p : Piece) : list N :=
  map (fun layer => N.shiftl layer (Z.to_N (col (loc p) - get_width p)))
      (dget (shapes p) (rot p)).

(** What [piece_en_cours] checks, as a proposition. *)
Definition fits (s : Tetris) (p : Piece) : Prop :=
  0 <= row (loc p) /\
  col (loc p) <= width s /\
  0 <= col (loc p) - get_width p /\
  no_overlap (board s) (row (loc p)) (bits_of p).

(** The [widths] table of [p] holds the width of every variant. *)
Definition tables_ok (p : Piece) : Prop :=
  forall d : Dir, shape_width (dget (shapes p) d) = Ok (dget (widths p) d).

(** The bounding box of [shape], [w] bits wide, is tight at the bottom row
    and at both sides. *)
Definition snug (shape : list N) (w : Z) : Prop :=
  1 <= w /\
  (exists l0, shape !! 0%nat = Some l0 /\ l0 <> 0%N) /\
  (exists i l, shape !! i = Some l /\ N.testbit l 0%N = true) /\
  (exists i l, shape !! i = Some l /\ N.testbit l (Z.to_N (w - 1)) = true).

(** [p] was constructed from a shape of the table, then moved and turned. *)
Definition wf_piece (p : Piece) : Prop :=
  exists shape : list N,
    In shape SHAPES_values /\ Piece_init (loc p) shape = Ok (set_rot p N_).

(** [p] translated by [drow] rows and [dcol] columns. *)
Definition moved (p : Piece) (drow dcol : Z) : Piece :=
  set_loc p (mkLoc (row (loc p) + drow) (col (loc p) + dcol)).

Definition next_dir (d : Dir) : Dir :=
  match d with N_ => E_ | E_ => S_ | S_ => W_ | W_ => N_ end.

Definition prev_dir (d : Dir) : Dir :=
  match d with N_ => W_ | E_ => N_ | S_ => E_ | W_ => S_ end.

(** Merging [shape] into [b] from row [r] upwards, one layer at a time:
    each layer is OR-ed into the board row that exists at its index ([k] is
    the position that Python's indexing gives to [r]: [r] itself when [r]
    is not negative), or appended when its index is exactly the current row
    count. *)
Inductive stacked : list N -> Z -> list N -> list N -> Prop :=
| stacked_done (b : list N) (r : Z) :
    stacked b r [] b
| stacked_or (b : list N) (r : Z) (layer : N) (shape : list N) (k : nat)
             (x : N) (merged : list N) :
    r < len b ->
    py_index b r = Ok k ->
    b !! k = Some x ->
    stacked (<[k := N.lor x layer]> b) (r + 1) shape merged ->
    stacked b r (layer :: shape) merged
| stacked_append (b : list N) (r : Z) (layer : N) (shape : list N)
                 (merged : list N) :
    r = len b ->
    stacked (b ++ [layer]) (r + 1) shape merged ->
    stacked b r (layer :: shape) merged.

(** The anchor of [p] passes the three bounds tests of [piece_en_cours]. *)
Definition in_bounds (s : Tetris) (p : Piece) : Prop :=
  0 <= row (loc p) /\ col (loc p) <= width s /\
  0 <= col (loc p) - get_width p.

Record Base (s : Tetris) : Prop := mkBase {
  base_width : 0 <= width s;
  base_full : FULL_ROW s = (2 ^ Z.to_N (width s) - 1)%N;
  base_rows : Forall (fun x => x <> FULL_ROW s) (board s);
  base_hold : forall hp, hold_piece s = Some hp -> wf_piece hp
}.

(** [can_hold] has been assigned whenever a piece is held. *)
Definition hold_flag (s : Tetris) : Prop :=
  hold_piece s <> None -> can_hold s <> None.

(** What holds in every state of every session. *)
Record Sound (s : Tetris) : Prop := mkSound {
  sound_base : Base s;
  sound_piece : exists p, current_piece s = Some p /\ wf_piece p;
  sound_col : forall p, current_piece s = Some p -> col (loc p) <= width s;
  sound_flag : hold_flag s
}.

(** What holds in addition on a board of at least 4 rows and 6 columns,
    on which every shape of the table spawns in bounds: the current piece
    is in bounds, and in place as long as the game is not over. *)
Record Inv (s : Tetris) : Prop := mkInv {
  inv_height : 4 <= height s;
  inv_width : 6 <= width s;
  inv_piece : exists p, current_piece s = Some p /\ in_bounds s p;
  inv_playing : game_over s = false ->
                forall p, current_piece s = Some p -> fits s p
}.

(** The square piece, whose four variants coincide. *)
Definition square_at (r c : Z) : Piece :=
  {| shapes := {| atN := [3; 3]%N; atE := [3; 3]%N;
                  atS := [3; 3]%N; atW := [3; 3]%N |};
     loc := mkLoc r c;
     rot := N_;
     widths := {| atN := 2; atE := 2; atS := 2; atW := 2 |};
     heights := {| atN := 2; atE := 2; atS := 2; atW := 2 |} |}.

(** A new game on the default board whose square piece has been moved down
    18 times and stands on the floor. *)
Definition floor_state : Tetris :=
  {| width := 10; height := 20; board := []; FULL_ROW := 1023%N;
     current_piece := Some (square_at 0 5); hold_piece := None;
     cleared_lines := 0; starting_level := 0; game_over := false;
     can_hold := None |}.

(** [floor_state] after one more [move_down]: the square is locked in
    rows 0 and 1 and a new square has been spawned. *)
Definition floor_state_locked : Tetris :=
  {| width := 10; height := 20; board := [24; 24]%N; FULL_ROW := 1023%N;
     current_piece := Some (square_at 18 5); hold_piece := None;
     cleared_lines := 0; starting_level := 0; game_over := false;
     can_hold := Some true |}.

(** [floor_state_locked] after a [hold] that drew a square, a [drop] that
    drew a square: a square is held and hold is available. *)
Definition held_state : Tetris :=
  {| width := 10; height := 20; board := [24; 24; 24; 24]%N;
     FULL_ROW := 1023%N;
     current_piece := Some (square_at 18 5);
     hold_piece := Some (square_at 18 5);
     cleared_lines := 0; starting_level := 0; game_over := false;
     can_hold := Some true |}.

(** [falls choice s n s']: [n] calls of [move_down] in a row, each of which
    returned [True], lead from [s] to [s']. *)
Inductive falls (choice : list N) : Tetris -> nat -> Tetris -> Prop :=
| falls_0 (s : Tetris) : falls choice s 0 s
| falls_S (s s1 s' : Tetris) (n : nat) :
    move_down s choice = Ok (true, s1) ->
    falls choice s1 n s' ->
    falls choice s (S n) s'.

(** A board whose bottom row lacks columns 3 and 4 only, with the square
    standing on the floor in those columns. *)
Definition gap_state : Tetris :=
  {| width := 10; height := 20; board := [999]%N; FULL_ROW := 1023%N;
     current_piece := Some (square_at 0 5); hold_piece := None;
     cleared_lines := 0; starting_level := 0; game_over := false;
     can_hold := None |}.

Definition bitc (b : bool) : ascii := if b then "1"%char else "0"%char.

(** The digits of [bin_str], least significant first. *)
Definition digits_lsb (layer : N) : list ascii :=
  match layer with
  | N0 => ["0"%char]
  | Npos p => pos_digits p
  end.

(** The value of a digit string read most significant digit first. *)
Definition of_msb (acc : N) (bs : list bool) : N :=
  fold_left (fun a b => (2 * a + N.b2n b)%N) bs acc.

(** Row [k] of the rotated shape: bit [w - 1 - k] of every row of [shape],
    the last row of [shape] in the most significant place. *)
Definition turned_row (shape : list N) (w : nat) (k : nat) : N :=
  of_msb 0 (map (fun layer => N.testbit layer (N.of_nat (w - 1 - k)))
                (rev shape)).

(** A decision procedure for [snug]. *)
Definition snugb (shape : list N) (w : Z) : bool :=
  (1 <=? w) &&
  match shape with
  | l0 :: _ => negb (l0 =? 0)%N
  | [] => false
  end &&
  existsb (fun l => N.testbit l 0%N) shape &&
  existsb (fun l => N.testbit l (Z.to_N (w - 1))) shape.

(** What an action that locks no piece leaves as it was: the board, the
    score and the parameters of the session; a game that is over stays
    over. *)
Definition unlocked (s s' : Tetris) : Prop :=
  width s' = width s /\ height s' = height s /\
  FULL_ROW s' = FULL_ROW s /\ starting_level s' = starting_level s /\
  board s' = board s /\ cleared_lines s' = cleared_lines s /\
  (game_over s = true -> game_over s' = true).

(** What an action that locks at most one piece leaves as it was, and by
    how much the score can grow. *)
Definition locked_once (s s' : Tetris) : Prop :=
  width s' = width s /\ height s' = height s /\
  FULL_ROW s' = FULL_ROW s /\ starting_level s' = starting_level s /\
  cleared_lines s <= cleared_lines s' <= cleared_lines s + 4 /\
  (game_over s = true -> game_over s' = true).

(** The line piece in its base rotation state. *)
Definition line_at (r c : Z) : Piece :=
  {| shapes := {| atN := [1; 1; 1; 1]%N; atE := [15]%N;
                  atS := [1; 1; 1; 1]%N; atW := [15]%N |};
     loc := mkLoc r c;
     rot := N_;
     widths := {| atN := 1; atE := 4; atS := 1; atW := 4 |};
     heights := {| atN := 4; atE := 1; atS := 4; atW := 1 |} |}.

(** A game on the default board after five line pieces have been dropped
    one onto the other: column 4 is full up to the top and the sixth line
    piece was spawned onto it. *)
Definition over_state : Tetris :=
  {| width := 10; height := 20; board := repeat 16%N 20;
     FULL_ROW := 1023%N;
     current_piece := Some (line_at 16 5); hold_piece := None;
     cleared_lines := 0; starting_level := 0; game_over := true;
     can_hold := Some true |}.

(** What [rotation] returns for a sequence of width [w]: its [w] turned
    rows. *)
Definition turned (shape : list N) (w : nat) : list N :=
  map (turned_row shape w) (seq 0 w).

(** The bounding box of [shape], [w] bits wide, is tight on all four
    sides: [snug], and the last (top) row is not empty. *)
Definition boxed (shape : list N) (w : Z) : Prop :=
  snug shape w /\
  exists top : N, shape !! (length shape - 1)%nat = Some top /\ top <> 0%N.

(** Every row of [b] has all its bits below position [w]. *)
Definition rows_within (w : Z) (b : list N) : Prop :=
  Forall (fun x => bit_length x <= w) b.

(** One call that locks no piece: a move to the side, a rotation, a
    [hold], or a [move_down] that returned [True]. *)
Definition calm (s s' : Tetris) : Prop :=
  move_left s = Ok s' \/ move_right s = Ok s' \/
  rot_right s = Ok s' \/ rot_left s = Ok s' \/
  (exists c : list N, hold s c = Ok s') \/
  (exists c : list N, move_down s c = Ok (true, s')).

(** Any number of such calls in a row. *)
Inductive quiet : Tetris -> Tetris -> Prop :=
| quiet_refl (s : Tetris) : quiet s s
| quiet_step (s s1 s' : Tetris) : calm s s1 -> quiet s1 s' -> quiet s s'.

(** Hold has been used: a piece is held and [can_hold] is [False]. *)
Definition hold_used (s : Tetris) : Prop :=
  (exists p, current_piece s = Some p) /\
  (exists hp, hold_piece s = Some hp) /\
  can_hold s = Some false.

(** The layer of the current piece that lies on board row [r]; 0 when
    the piece has none there. *)
Definition piece_row (bits : list N) (current_piece_row r : Z) : N :=
  if 0 <=? r - current_piece_row
  then nth (Z.to_nat (r - current_piece_row)) bits 0%N
  else 0%N.

(** The state with the [game_over] flag put down, and the image of a
    result under a function. *)
Definition erase_game_over (s : Tetris) : Tetris := set_game_over s false.

Definition result_map {A B : Type} (f : A -> B) (r : result A) : result B :=
  match r with
  | Ok a => Ok (f a)
  | Raise e => Raise e
  end.

(** The tee piece in its base rotation state. *)
Definition tee_at (r c : Z) : Piece :=
  {| shapes := {| atN := [2; 7]%N; atE := [1; 3; 1]%N;
                  atS := [7; 2]%N; atW := [2; 3; 2]%N |};
     loc := mkLoc r c;
     rot := N_;
     widths := {| atN := 3; atE := 2; atS := 3; atW := 2 |};
     heights := {| atN := 2; atE := 3; atS := 2; atW := 3 |} |}.

(** A new game on a board of 20 rows and 2 columns whose first piece is the
    tee: the piece, three columns wide, was spawned at column 1, and the
    constructor has put [game_over] down after the spawn. *)
Definition narrow_state : Tetris :=
  {| width := 2; height := 20; board := []; FULL_ROW := 3%N;
     current_piece := Some (tee_at 18 1); hold_piece := None;
     cleared_lines := 0; starting_level := 0; game_over := false;
     can_hold := None |}.

(** * Verification *)

(** ** The exception monad and list primitives *)

Lemma bind_Ok {A B : Type} (r : result A) (k : A -> result B) (b : B) :
  bind r k = Ok b -> exists a, r = Ok a /\ k a = Ok b.
Proof. destruct r as [a|e]; simpl; [eauto | discriminate]. Qed.

Lemma len_nonneg (b : list N) : 0 <= len b.
Proof. unfold len; lia. Qed.

Lemma len_app (b : list N) (x : N) : len (b ++ [x]) = len b + 1.
Proof. unfold len. rewrite length_app; simpl; lia. Qed.

Lemma py_index_in_range {A : Type} (l : list A) (i : Z) :
  0 <= i < Z.of_nat (length l) -> py_index l i = Ok (Z.to_nat i).
Proof.
  intros Hi. unfold py_index.
  destruct (0 <=? i) eqn:H0; [|lia].
  destruct (i <? Z.of_nat (length l)) eqn:H1; [reflexivity|lia].
Qed.

Lemma getitem_in_range (b : list N) (i : Z) :
  0 <= i < len b -> exists x, b !! Z.to_nat i = Some x /\ getitem b i = Ok x.
Proof.
  intros Hi. unfold getitem. rewrite py_index_in_range by exact Hi. simpl.
  destruct (b !! Z.to_nat i) as [x|] eqn:Hx; [eauto|].
  apply lookup_ge_None in Hx. unfold len in Hi. lia.
Qed.

Lemma setitem_in_range (b : list N) (i : Z) (x : N) :
  0 <= i < len b -> setitem b i x = Ok (<[Z.to_nat i:=x]> b).
Proof.
  intros Hi. unfold setitem. rewrite py_index_in_range by exact Hi.
  reflexivity.
Qed.

Lemma land_zero_iff (x y : N) :
  N.land x y = 0%N <->
  forall n, ~ (N.testbit x n = true /\ N.testbit y n = true).
Proof.
  split.
  - intros H n [Hx Hy].
    assert (Hn : N.testbit (N.land x y) n = true)
      by (rewrite N.land_spec, Hx, Hy; reflexivity).
    rewrite H, N.bits_0 in Hn. discriminate.
  - intros H. apply N.bits_inj. intros n.
    rewrite N.land_spec, N.bits_0.
    destruct (N.testbit x n) eqn:Hx, (N.testbit y n) eqn:Hy; try reflexivity.
    exfalso. apply (H n). auto.
Qed.

(** ** [piece_en_cours] *)

Lemma piece_en_cours_loop_spec (b : list N) (shape : list N) :
  forall r : Z, 0 <= r ->
    exists v : bool,
      piece_en_cours_loop b r shape = Ok v /\
      (v = true <-> no_overlap b r shape).
Proof.
  induction shape as [|layer shape IH]; intros r Hr; simpl.
  - exists true. split; [reflexivity|]. split; [|reflexivity].
    intros _ i l x Hl. destruct i; discriminate.
  - destruct (r >=? len b) eqn:Hge.
    + exists true. split; [reflexivity|]. split; [|reflexivity].
      intros _ i l x _ Hx. apply lookup_lt_Some in Hx.
      unfold len in Hge. lia.
    + destruct (getitem_in_range b r) as (x & Hx & Hget); [lia|].
      rewrite Hget. simpl.
      destruct (N.land x layer =? 0)%N eqn:Hland; simpl.
      * apply N.eqb_eq in Hland.
        destruct (IH (r + 1)) as (v & Hv & Hiff); [lia|].
        exists v. split; [exact Hv|]. rewrite Hiff. unfold no_overlap.
        replace (Z.to_nat (r + 1)) with (S (Z.to_nat r)) by lia.
        split; intros H i l y Hl Hy.
        -- destruct i as [|i]; simpl in Hl.
           ++ injection Hl as <-. rewrite Nat.add_0_r in Hy.
              rewrite Hx in Hy. injection Hy as <-. exact Hland.
           ++ apply (H i l y Hl).
              replace (S (Z.to_nat r) + i)%nat with (Z.to_nat r + S i)%nat
                by lia. exact Hy.
        -- apply (H (S i) l y Hl).
           replace (Z.to_nat r + S i)%nat with (S (Z.to_nat r) + i)%nat
             by lia. exact Hy.
      * exists false. split; [reflexivity|]. split; [discriminate|].
        intros H. apply N.eqb_neq in Hland. exfalso. apply Hland.
        apply (H 0%nat layer x); [reflexivity|].
        rewrite Nat.add_0_r. exact Hx.
Qed.

Lemma mapM_py_shl (shape : list N) (n : Z) :
  0 <= n ->
  mapM (fun layer => py_shl layer n) shape
  = Ok (map (fun layer => N.shiftl layer (Z.to_N n)) shape).
Proof.
  intros Hn. induction shape as [|layer shape IH]; simpl; [reflexivity|].
  unfold py_shl at 1. destruct (n <? 0) eqn:H; [lia|]. simpl.
  rewrite IH. reflexivity.
Qed.

Lemma get_bits_ok (p : Piece) :
  0 <= col (loc p) - get_width p -> get_bits p = Ok (bits_of p).
Proof. intros H. unfold get_bits. apply mapM_py_shl. exact H. Qed.

Lemma piece_en_cours_spec (s : Tetris) (p : Piece) :
  current_piece s = Some p ->
  exists v : bool, piece_en_cours s = Ok v /\ (v = true <-> fits s p).
Proof.
  intros Hp. unfold piece_en_cours, the_piece, fits. rewrite Hp. simpl.
  destruct (row (loc p) <? 0) eqn:Hrow.
  { exists false. split; [reflexivity|]. split; [discriminate|lia]. }
  destruct (col (loc p) >? width s) eqn:Hcol.
  { exists false. split; [reflexivity|]. split; [discriminate|lia]. }
  destruct (col (loc p) - get_width p <? 0) eqn:Hw.
  { exists false. split; [reflexivity|]. split; [discriminate|lia]. }
  rewrite get_bits_ok by lia. simpl.
  destruct (piece_en_cours_loop_spec (board s) (bits_of p) (row (loc p)))
    as (v & Hv & Hiff); [lia|].
  exists v. split; [exact Hv|]. rewrite Hiff.
  split; [intros H; repeat split; try lia; exact H | intros (_ & _ & _ & H); exact H].
Qed.

(** ** Pieces built from the shape table *)

Ltac shape_cases H :=
  unfold SHAPES_values, SHAPES in H; simpl in H;
  repeat (destruct H as [<-|H]); [ .. | contradiction H].

Lemma Piece_init_loc (l l' : Loc) (shape : list N) (p : Piece) :
  Piece_init l shape = Ok p -> Piece_init l' shape = Ok (set_loc p l').
Proof.
  unfold Piece_init.
  destruct (rotation shape) as [r1|]; simpl; [|discriminate].
  destruct (rotation r1) as [r2|]; simpl; [|discriminate].
  destruct (rotation r2) as [r3|]; simpl; [|discriminate].
  destruct (shape_width shape) as [wN|]; simpl; [|discriminate].
  destruct (shape_width r1) as [wW|]; simpl; [|discriminate].
  destruct (shape_width r2) as [wS|]; simpl; [|discriminate].
  destruct (shape_width r3) as [wE|]; simpl; [|discriminate].
  intros [= <-]. reflexivity.
Qed.

Lemma Piece_init_fields (l : Loc) (shape : list N) (p : Piece) :
  Piece_init l shape = Ok p ->
  loc p = l /\ rot p = N_ /\ atN (shapes p) = shape /\
  dget (heights p) N_ = Z.of_nat (length shape) /\ tables_ok p.
Proof.
  unfold Piece_init.
  destruct (rotation shape) as [r1|]; simpl; [|discriminate].
  destruct (rotation r1) as [r2|]; simpl; [|discriminate].
  destruct (rotation r2) as [r3|]; simpl; [|discriminate].
  destruct (shape_width shape) as [wN|] eqn:HN; simpl; [|discriminate].
  destruct (shape_width r1) as [wW|] eqn:HW; simpl; [|discriminate].
  destruct (shape_width r2) as [wS|] eqn:HS; simpl; [|discriminate].
  destruct (shape_width r3) as [wE|] eqn:HE; simpl; [|discriminate].
  intros [= <-]. simpl. repeat split.
  intros d. destruct d; simpl; assumption.
Qed.

Lemma Piece_init_SHAPES (l : Loc) (shape : list N) :
  In shape SHAPES_values ->
  exists p : Piece,
    Piece_init l shape = Ok p /\
    dget (widths p) N_ <= 3 /\
    (length shape <= 4)%nat /\
    snug shape (dget (widths p) N_).
Proof.
  intros Hin. shape_cases Hin.
  all: eexists; split; [vm_compute; reflexivity|]; simpl.
  all: split; [lia|]; split; [lia|]; split; [lia|].
  all: split; [eexists; split; [reflexivity|discriminate]|].
  - split; exists 0%nat; eexists; split; reflexivity.
  - split; exists 0%nat; eexists; split; reflexivity.
  - split; [exists 1%nat|exists 0%nat]; eexists; split; reflexivity.
  - split; [exists 0%nat|exists 1%nat]; eexists; split; reflexivity.
  - split; [exists 0%nat|exists 0%nat]; eexists; split; reflexivity.
  - split; [exists 0%nat|exists 0%nat]; eexists; split; reflexivity.
  - split; [exists 1%nat|exists 1%nat]; eexists; split; reflexivity.
Qed.

Lemma wf_piece_init (l : Loc) (shape : list N) (p : Piece) :
  In shape SHAPES_values -> Piece_init l shape = Ok p -> wf_piece p.
Proof.
  intros Hin Hp. exists shape. split; [exact Hin|].
  destruct (Piece_init_fields _ _ _ Hp) as (Hl & Hr & _).
  rewrite Hl, Hp. f_equal. destruct p; simpl in *. subst. reflexivity.
Qed.

Lemma wf_piece_set_loc (p : Piece) (l : Loc) :
  wf_piece p -> wf_piece (set_loc p l).
Proof.
  intros (shape & Hin & Hp). exists shape. split; [exact Hin|].
  simpl. apply (Piece_init_loc _ l) in Hp. exact Hp.
Qed.

Lemma wf_piece_set_rot (p : Piece) (d : Dir) :
  wf_piece p -> wf_piece (set_rot p d).
Proof.
  intros (shape & Hin & Hp). exists shape. split; [exact Hin|exact Hp].
Qed.

Lemma wf_piece_tables (p : Piece) : wf_piece p -> tables_ok p.
Proof.
  intros (shape & _ & Hp). apply Piece_init_fields in Hp.
  destruct Hp as (_ & _ & _ & _ & Ht). exact Ht.
Qed.

Lemma wf_piece_base (p : Piece) :
  wf_piece p -> In (dget (shapes p) N_) SHAPES_values.
Proof.
  intros (shape & Hin & Hp). apply Piece_init_fields in Hp.
  destruct Hp as (_ & _ & Hs & _). simpl in Hs. simpl. rewrite Hs. exact Hin.
Qed.

(** ** The check of the code and the placement invariant of the
    specification *)

Lemma fold_left_max_ge (l : list Z) (x : Z) :
  x <= fold_left Z.max l x /\ forall y, In y l -> y <= fold_left Z.max l x.
Proof.
  revert x. induction l as [|a l IH]; intros x; simpl.
  - split; [lia|]. intros y [].
  - destruct (IH (Z.max x a)) as [H1 H2]. split; [lia|].
    intros y [<-|Hy]; [lia|]. apply H2. exact Hy.
Qed.

Lemma shape_width_bound (shape : list N) (w : Z) :
  shape_width shape = Ok w ->
  forall layer, In layer shape -> bit_length layer <= w.
Proof.
  unfold shape_width, py_max. destruct shape as [|l0 shape]; simpl.
  - discriminate.
  - intros [= <-] layer Hin.
    destruct (fold_left_max_ge (map bit_length shape) (bit_length l0))
      as [H1 H2].
    destruct Hin as [<-|Hin]; [exact H1|].
    apply H2. apply in_map. exact Hin.
Qed.

Lemma testbit_bit_length (layer k : N) :
  N.testbit layer k = true -> Z.of_N k < bit_length layer.
Proof.
  intros Hk. unfold bit_length.
  destruct (N.eq_dec layer 0%N) as [->|Hne].
  - rewrite N.bits_0 in Hk. discriminate.
  - rewrite N.size_log2 by exact Hne.
    destruct (N.lt_ge_cases (N.log2 layer) k) as [Hlt|Hge]; [|lia].
    rewrite N.bits_above_log2 in Hk by exact Hlt. discriminate.
Qed.

Lemma bits_of_lookup (p : Piece) (i : nat) :
  bits_of p !! i
  = option_map (fun layer => N.shiftl layer (Z.to_N (col (loc p) - get_width p)))
               (dget (shapes p) (rot p) !! i).
Proof. unfold bits_of. rewrite list_lookup_fmap. reflexivity. Qed.

Lemma fits_placement_ok (s : Tetris) (p : Piece) :
  tables_ok p -> fits s p -> placement_ok s p.
Proof.
  intros Ht (Hrow & Hcol & Hw & Hno) r c (i & layer & Hi & -> & Hc & Hbit).
  assert (Hlen : bit_length layer <= get_width p).
  { apply (shape_width_bound _ _ (Ht (rot p))).
    apply list_elem_of_In. eapply list_elem_of_lookup_2. exact Hi. }
  apply testbit_bit_length in Hbit as Hlt.
  rewrite Z2N.id in Hlt by exact Hc.
  split; [lia|]. split; [lia|].
  intros (_ & Hc0 & x & Hx & Hxbit).
  replace (Z.to_nat (row (loc p) + Z.of_nat i))
    with (Z.to_nat (row (loc p)) + i)%nat in Hx by lia.
  assert (Hland := Hno i _ x ltac:(rewrite bits_of_lookup, Hi; reflexivity) Hx).
  rewrite land_zero_iff in Hland. apply (Hland (Z.to_N c)).
  split; [exact Hxbit|].
  rewrite N.shiftl_spec_high' by lia.
  replace (Z.to_N c - Z.to_N (col (loc p) - get_width p))%N
    with (Z.to_N (c - (col (loc p) - get_width p))) by lia.
  exact Hbit.
Qed.

Lemma violates_not_placement_ok (s : Tetris) (p : Piece) :
  violates s p -> ~ placement_ok s p.
Proof.
  intros (r & c & Hocc & Hbad) Hok.
  destruct (Hok r c Hocc) as (Hc & Hr & Hfree).
  destruct Hbad as [H|[H|[H|H]]]; [exact (Hfree H)|lia|lia|lia].
Qed.

Lemma placement_ok_fits (s : Tetris) (p : Piece) :
  snug (dget (shapes p) (rot p)) (get_width p) ->
  placement_ok s p -> fits s p.
Proof.
  intros (Hw & (l0 & Hl0 & Hne) & (i1 & l1 & Hl1 & Hb1) & (i2 & l2 & Hl2 & Hb2)) Hok.
  assert (Hrow : 0 <= row (loc p)).
  { assert (Hbit : N.testbit l0 (N.log2 l0) = true) by (apply N.bit_log2; exact Hne).
    destruct (Hok (row (loc p) + Z.of_nat 0)
                  (Z.of_N (N.log2 l0) + (col (loc p) - get_width p)))
      as (_ & Hr & _); [|lia].
    exists 0%nat, l0. split; [exact Hl0|]. split; [reflexivity|].
    split; [lia|].
    replace (Z.to_N (Z.of_N (N.log2 l0) + (col (loc p) - get_width p)
                     - (col (loc p) - get_width p))) with (N.log2 l0) by lia.
    exact Hbit. }
  assert (Hcol0 : 0 <= col (loc p) - get_width p).
  { destruct (Hok (row (loc p) + Z.of_nat i1) (col (loc p) - get_width p))
      as (Hc & _ & _); [|lia].
    exists i1, l1. split; [exact Hl1|]. split; [reflexivity|].
    split; [lia|]. rewrite Z.sub_diag. exact Hb1. }
  assert (Hcol : col (loc p) <= width s).
  { destruct (Hok (row (loc p) + Z.of_nat i2) (col (loc p) - 1))
      as (Hc & _ & _); [|lia].
    exists i2, l2. split; [exact Hl2|]. split; [reflexivity|].
    split; [lia|].
    replace (col (loc p) - 1 - (col (loc p) - get_width p))
      with (get_width p - 1) by lia.
    exact Hb2. }
  repeat split; try assumption.
  intros i layer' x Hi Hx. rewrite bits_of_lookup in Hi.
  destruct (dget (shapes p) (rot p) !! i) as [layer|] eqn:Hlayer;
    simpl in Hi; [|discriminate].
  injection Hi as <-. apply land_zero_iff. intros n [Hxn Hln].
  destruct (N.lt_ge_cases n (Z.to_N (col (loc p) - get_width p))) as [Hlt|Hge].
  { rewrite N.shiftl_spec_low in Hln by exact Hlt. discriminate. }
  rewrite N.shiftl_spec_high' in Hln by exact Hge.
  destruct (Hok (row (loc p) + Z.of_nat i) (Z.of_N n)) as (_ & _ & Hfree).
  - exists i, layer. split; [exact Hlayer|]. split; [reflexivity|].
    split; [lia|].
    replace (Z.to_N (Z.of_N n - (col (loc p) - get_width p)))
      with (n - Z.to_N (col (loc p) - get_width p))%N by lia.
    exact Hln.
  - apply Hfree. split; [lia|]. split; [lia|]. exists x.
    replace (Z.to_nat (row (loc p) + Z.of_nat i))
      with (Z.to_nat (row (loc p)) + i)%nat by lia.
    split; [exact Hx|]. rewrite N2Z.id. exact Hxn.
Qed.

(** ** The operations of the controller, case by case *)

Lemma Piece_rot_right_ok (p : Piece) :
  Piece_rot_right p = Ok (set_rot p (next_dir (rot p))).
Proof. unfold Piece_rot_right. destruct (rot p); reflexivity. Qed.

Lemma Piece_rot_left_ok (p : Piece) :
  Piece_rot_left p = Ok (set_rot p (prev_dir (rot p))).
Proof. unfold Piece_rot_left. destruct (rot p); reflexivity. Qed.

Lemma moved_back (p : Piece) (drow dcol drow' dcol' : Z) :
  drow + drow' = 0 -> dcol + dcol' = 0 ->
  set_loc (moved p drow dcol)
          {| row := row (loc p) + drow + drow';
             col := col (loc p) + dcol + dcol' |} = p.
Proof.
  intros Hr Hc. destruct p as [sh [r c] d ws hs]. unfold moved, set_loc.
  simpl. repeat f_equal; lia.
Qed.

Lemma turned_back_right (p : Piece) :
  set_rot (set_rot p (next_dir (rot p))) (prev_dir (next_dir (rot p))) = p.
Proof. destruct p as [sh l d ws hs]. destruct d; reflexivity. Qed.

Lemma turned_back_left (p : Piece) :
  set_rot (set_rot p (prev_dir (rot p))) (next_dir (prev_dir (rot p))) = p.
Proof. destruct p as [sh l d ws hs]. destruct d; reflexivity. Qed.

Lemma set_current_piece_same (s : Tetris) (p : Piece) (x : option Piece) :
  current_piece s = Some p ->
  set_current_piece (set_current_piece s x) (Some p) = s.
Proof. destruct s; simpl. intros ->. reflexivity. Qed.

Lemma tentative_spec (s : Tetris) (p' : Piece) :
  exists v : bool,
    piece_en_cours (set_current_piece s (Some p')) = Ok v /\
    (v = true <-> fits s p').
Proof.
  destruct (piece_en_cours_spec (set_current_piece s (Some p')) p' eq_refl)
    as (v & Hv & Hiff).
  exists v. split; [exact Hv|exact Hiff].
Qed.

Lemma move_left_spec (s : Tetris) (p : Piece) :
  current_piece s = Some p ->
  exists v : bool,
    (v = true <-> fits s (moved p 0 1)) /\
    move_left s
    = Ok (if v then set_current_piece s (Some (moved p 0 1)) else s).
Proof.
  intros Hp. destruct (tentative_spec s (moved p 0 1)) as (v & Hv & Hiff).
  exists v. split; [exact Hiff|].
  unfold move_left, move_piece, the_piece. rewrite Hp. simpl.
  fold (moved p 0 1). rewrite Hv. simpl. destruct v; simpl; [reflexivity|].
  rewrite moved_back by reflexivity.
  rewrite set_current_piece_same by exact Hp. reflexivity.
Qed.

Lemma move_right_spec (s : Tetris) (p : Piece) :
  current_piece s = Some p ->
  exists v : bool,
    (v = true <-> fits s (moved p 0 (-1))) /\
    move_right s
    = Ok (if v then set_current_piece s (Some (moved p 0 (-1))) else s).
Proof.
  intros Hp. destruct (tentative_spec s (moved p 0 (-1))) as (v & Hv & Hiff).
  exists v. split; [exact Hiff|].
  unfold move_right, move_piece, the_piece. rewrite Hp. simpl.
  fold (moved p 0 (-1)). rewrite Hv. simpl. destruct v; simpl; [reflexivity|].
  rewrite moved_back by reflexivity.
  rewrite set_current_piece_same by exact Hp. reflexivity.
Qed.

Lemma rot_right_spec (s : Tetris) (p : Piece) :
  current_piece s = Some p ->
  exists v : bool,
    (v = true <-> fits s (set_rot p (next_dir (rot p)))) /\
    rot_right s
    = Ok (if v then set_current_piece s (Some (set_rot p (next_dir (rot p))))
          else s).
Proof.
  intros Hp.
  destruct (tentative_spec s (set_rot p (next_dir (rot p)))) as (v & Hv & Hiff).
  exists v. split; [exact Hiff|].
  unfold rot_right, turn_piece, the_piece. rewrite Hp. simpl.
  rewrite Piece_rot_right_ok. simpl. rewrite Hv. simpl.
  destruct v; simpl; [reflexivity|].
  rewrite Piece_rot_left_ok. simpl.
  rewrite (turned_back_right p).
  rewrite set_current_piece_same by exact Hp. reflexivity.
Qed.

Lemma rot_left_spec (s : Tetris) (p : Piece) :
  current_piece s = Some p ->
  exists v : bool,
    (v = true <-> fits s (set_rot p (prev_dir (rot p)))) /\
    rot_left s
    = Ok (if v then set_current_piece s (Some (set_rot p (prev_dir (rot p))))
          else s).
Proof.
  intros Hp.
  destruct (tentative_spec s (set_rot p (prev_dir (rot p)))) as (v & Hv & Hiff).
  exists v. split; [exact Hiff|].
  unfold rot_left, turn_piece, the_piece. rewrite Hp. simpl.
  rewrite Piece_rot_left_ok. simpl. rewrite Hv. simpl.
  destruct v; simpl; [reflexivity|].
  rewrite Piece_rot_right_ok. simpl.
  rewrite (turned_back_left p).
  rewrite set_current_piece_same by exact Hp. reflexivity.
Qed.

Lemma move_down_spec (s : Tetris) (p : Piece) (choice : list N) :
  current_piece s = Some p ->
  exists v : bool,
    (v = true <-> fits s (moved p (-1) 0)) /\
    move_down s choice
    = if v then Ok (true, set_current_piece s (Some (moved p (-1) 0)))
      else (s3 <- _stop_piece s choice ;; Ok (false, s3)).
Proof.
  intros Hp. destruct (tentative_spec s (moved p (-1) 0)) as (v & Hv & Hiff).
  exists v. split; [exact Hiff|].
  unfold move_down, move_piece, the_piece. rewrite Hp. simpl.
  fold (moved p (-1) 0). rewrite Hv. simpl. destruct v; simpl; [reflexivity|].
  rewrite moved_back by reflexivity.
  rewrite set_current_piece_same by exact Hp. reflexivity.
Qed.

Lemma add_piece_spec (s : Tetris) (shape : list N) (p : Piece) :
  Piece_init (mkLoc (height s - Z.of_nat (length shape)) (width s / 2)) shape
  = Ok p ->
  exists v : bool,
    (v = true <-> fits s p) /\
    _add_piece s shape
    = Ok (if v then set_current_piece s (Some p)
          else set_game_over (set_current_piece s (Some p)) true).
Proof.
  intros Hp. destruct (tentative_spec s p) as (v & Hv & Hiff).
  exists v. split; [exact Hiff|].
  unfold _add_piece. rewrite Hp. simpl. rewrite Hv. simpl.
  destruct v; reflexivity.
Qed.

(** ** Locking *)

Lemma stop_piece_loop_stacked (shape : list N) :
  forall (b : list N) (r : Z),
    0 <= r <= len b ->
    exists merged : list N,
      _stop_piece_loop b r shape = Ok merged /\ stacked b r shape merged.
Proof.
  induction shape as [|layer shape IH]; intros b r Hr; simpl.
  - exists b. split; [reflexivity|constructor].
  - destruct (r <? len b) eqn:Hlt.
    + destruct (getitem_in_range b r) as (x & Hx & Hget); [lia|].
      rewrite Hget. simpl. rewrite setitem_in_range by lia. simpl.
      destruct (IH (<[Z.to_nat r := N.lor x layer]> b) (r + 1))
        as (merged & Hm & Hst).
      { unfold len in *. rewrite length_insert. lia. }
      exists merged. split; [exact Hm|].
      eapply stacked_or;
        [lia|apply py_index_in_range; unfold len in *; lia|exact Hx|exact Hst].
    + destruct (IH (b ++ [layer]) (r + 1)) as (merged & Hm & Hst).
      { rewrite len_app. lia. }
      exists merged. split; [exact Hm|].
      apply stacked_append; [lia|exact Hst].
Qed.

(** Whenever the merge loop returns from a start at or below the top of
    the board, it has only OR-ed into existing rows and appended at the
    top. *)
Lemma stop_piece_loop_Ok_stacked (shape : list N) :
  forall (b : list N) (r : Z) (merged : list N),
    r <= len b ->
    _stop_piece_loop b r shape = Ok merged ->
    stacked b r shape merged.
Proof.
  induction shape as [|layer shape IH]; intros b r merged Hr; simpl.
  - intros [= <-]. constructor.
  - destruct (r <? len b) eqn:Hlt.
    + intros Hloop. apply bind_Ok in Hloop. destruct Hloop as (x & Hget & Hloop).
      apply bind_Ok in Hloop. destruct Hloop as (b' & Hset & Hloop).
      unfold getitem in Hget. apply bind_Ok in Hget.
      destruct Hget as (k & Hk & Hget).
      destruct (b !! k) as [y|] eqn:Hy; [|discriminate].
      injection Hget as ->.
      unfold setitem in Hset. rewrite Hk in Hset. simpl in Hset.
      injection Hset as <-.
      eapply stacked_or; [lia|exact Hk|exact Hy|].
      apply IH; [|exact Hloop].
      unfold len in *. rewrite length_insert. lia.
    + intros Hloop. apply stacked_append; [lia|].
      apply IH; [|exact Hloop]. rewrite len_app. lia.
Qed.

(** After the merge the layer [i] of the piece lies at board index
    [r + i], OR-ed with what the board held there; every other row is
    untouched and the board has no gap. *)
Lemma stacked_rows (b : list N) (r : Z) (shape merged : list N) :
  stacked b r shape merged ->
  0 <= r <= len b ->
  len merged = Z.max (len b) (r + len shape) /\
  (forall (i : nat) (layer : N),
      shape !! i = Some layer ->
      merged !! (Z.to_nat r + i)%nat
      = Some (N.lor (default 0%N (b !! (Z.to_nat r + i)%nat)) layer)) /\
  (forall j : nat,
      (j < Z.to_nat r)%nat \/ (Z.to_nat r + length shape <= j)%nat ->
      merged !! j = b !! j).
Proof.
  induction 1 as [b r | b r layer shape k x merged Hr Hk Hx Hst IH
                       | b r layer shape merged Hr Hst IH]; intros Hrange.
  - split; [unfold len in *; cbn [length]; lia|]. split.
    + intros i l Hl. destruct i; discriminate.
    + reflexivity.
  - rewrite py_index_in_range in Hk by (unfold len in *; lia).
    injection Hk as <-.
    assert (Hlen' : len (<[Z.to_nat r:=N.lor x layer]> b) = len b)
      by (unfold len; rewrite length_insert; reflexivity).
    destruct IH as (Hlen & Hin & Hout); [lia|].
    rewrite Hlen' in Hlen.
    replace (Z.to_nat (r + 1)) with (S (Z.to_nat r)) in * by lia.
    split; [unfold len in *; cbn [length]; lia|]. split.
    + intros [|i] l Hl; simpl in Hl.
      * injection Hl as <-. rewrite Nat.add_0_r, Hx. simpl.
        rewrite Hout by lia.
        apply list_lookup_insert_eq. unfold len in Hr. lia.
      * replace (Z.to_nat r + S i)%nat with (S (Z.to_nat r) + i)%nat by lia.
        rewrite (Hin i l Hl).
        rewrite list_lookup_insert_ne by lia. reflexivity.
    + intros j Hj. cbn [length] in Hj. rewrite Hout by lia.
      apply list_lookup_insert_ne. lia.
  - assert (Hnone : b !! Z.to_nat r = None)
      by (apply lookup_ge_None; unfold len in Hr; lia).
    assert (Hhere : (b ++ [layer]) !! Z.to_nat r = Some layer).
    { rewrite lookup_app_r by (unfold len in Hr; lia).
      replace (Z.to_nat r - length b)%nat with 0%nat
        by (unfold len in Hr; lia). reflexivity. }
    destruct IH as (Hlen & Hin & Hout); [rewrite len_app; lia|].
    rewrite len_app in Hlen.
    replace (Z.to_nat (r + 1)) with (S (Z.to_nat r)) in * by lia.
    split; [unfold len in *; cbn [length]; lia|]. split.
    + intros [|i] l Hl; simpl in Hl.
      * injection Hl as <-. rewrite Nat.add_0_r, Hnone. simpl.
        rewrite Hout by lia. rewrite Hhere, N.lor_0_l. reflexivity.
      * replace (Z.to_nat r + S i)%nat with (S (Z.to_nat r) + i)%nat by lia.
        rewrite (Hin i l Hl).
        rewrite (lookup_ge_None_2 b (S (Z.to_nat r) + i))
          by (unfold len in Hr; lia).
        rewrite (lookup_ge_None_2 (b ++ [layer]) (S (Z.to_nat r) + i))
          by (rewrite length_app; unfold len in Hr; cbn [length]; lia).
        reflexivity.
    + intros j Hj. cbn [length] in Hj. rewrite Hout by lia.
      destruct Hj as [Hj|Hj]; [apply lookup_app_l; unfold len in Hr; lia|].
      rewrite (lookup_ge_None_2 b j) by (unfold len in Hr; lia).
      apply lookup_ge_None_2. rewrite length_app. unfold len in Hr.
      cbn [length]. lia.
Qed.

Lemma filter_count (full : N) (l : list N) :
  length l
  = (length (List.filter (keep_row full) l) + count_occ N.eq_dec l full)%nat.
Proof.
  induction l as [|x l IH]; simpl; [reflexivity|].
  unfold keep_row at 1. destruct (N.eq_dec x full) as [->|Hne].
  - rewrite N.eqb_refl. simpl. lia.
  - apply N.eqb_neq in Hne. rewrite Hne. simpl. lia.
Qed.

Lemma filter_keeps (full : N) (l : list N) (x : N) :
  In x (List.filter (keep_row full) l) <-> In x l /\ x <> full.
Proof.
  rewrite filter_In. unfold keep_row. rewrite negb_true_iff, N.eqb_neq.
  reflexivity.
Qed.

Lemma clear_rows_board (s : Tetris) :
  board (_clear_rows s) = List.filter (keep_row (FULL_ROW s)) (board s).
Proof. reflexivity. Qed.

Lemma clear_rows_count (s : Tetris) :
  cleared_lines (_clear_rows s)
  = cleared_lines s + Z.of_nat (count_occ N.eq_dec (board s) (FULL_ROW s)).
Proof.
  unfold _clear_rows, len. simpl.
  rewrite (filter_count (FULL_ROW s) (board s)) at 1. lia.
Qed.

Lemma stop_piece_unfold (s : Tetris) (p : Piece) (bits merged : list N)
    (choice : list N) :
  current_piece s = Some p ->
  get_bits p = Ok bits ->
  _stop_piece_loop (board s) (row (loc p)) bits = Ok merged ->
  _stop_piece s choice
  = (s2 <- _next_piece (_clear_rows (set_board s merged)) choice ;;
     Ok (set_can_hold s2 (Some true))).
Proof.
  intros Hp Hbits Hloop. unfold _stop_piece, the_piece.
  rewrite Hp. simpl. rewrite Hbits. simpl. rewrite Hloop. reflexivity.
Qed.

Lemma stop_piece_can_hold (s s' : Tetris) (choice : list N) :
  _stop_piece s choice = Ok s' -> can_hold s' = Some true.
Proof.
  intros Hstop. unfold _stop_piece in Hstop.
  apply bind_Ok in Hstop. destruct Hstop as (p & _ & Hstop).
  apply bind_Ok in Hstop. destruct Hstop as (bits & _ & Hstop).
  apply bind_Ok in Hstop. destruct Hstop as (b & _ & Hstop).
  apply bind_Ok in Hstop. destruct Hstop as (s2 & _ & [= <-]).
  reflexivity.
Qed.

Lemma mapM_py_shl_Ok (shape bits : list N) (n : Z) :
  shape <> [] ->
  mapM (fun layer => py_shl layer n) shape = Ok bits -> 0 <= n.
Proof.
  destruct shape as [|layer shape]; [congruence|]. intros _. simpl.
  unfold py_shl at 1. destruct (n <? 0) eqn:Hn; [discriminate|lia].
Qed.

(** ** The invariants of a session *)

Lemma fits_in_bounds (s : Tetris) (p : Piece) : fits s p -> in_bounds s p.
Proof. intros (H1 & H2 & H3 & _). repeat split; assumption. Qed.

Lemma no_overlap_above (b : list N) (r : Z) (shape : list N) :
  len b <= r -> no_overlap b r shape.
Proof.
  intros Hr i layer x _ Hx. apply lookup_lt_Some in Hx.
  unfold len in Hr. lia.
Qed.

(** A piece in bounds that cannot move down rests on the floor or on a
    stored row: its anchor row is at most the row count of the board. *)
Lemma rejected_down_row (s : Tetris) (p : Piece) :
  col (loc p) <= width s -> 0 <= col (loc p) - get_width p ->
  ~ fits s (moved p (-1) 0) -> row (loc p) <= len (board s).
Proof.
  intros Hc Hw Hno.
  destruct (Z_le_gt_dec (row (loc p)) (len (board s))) as [H|H]; [exact H|].
  exfalso. apply Hno. pose proof (len_nonneg (board s)).
  unfold fits, moved. simpl.
  replace (col (loc p) + 0) with (col (loc p)) by lia.
  change (get_width (set_loc p _)) with (get_width p).
  repeat split; try lia.
  apply no_overlap_above. lia.
Qed.

Lemma spawn_in_bounds (s : Tetris) (shape : list N) (p : Piece) :
  4 <= height s -> 6 <= width s -> In shape SHAPES_values ->
  Piece_init (mkLoc (height s - Z.of_nat (length shape)) (width s / 2)) shape
  = Ok p ->
  in_bounds s p.
Proof.
  intros Hh Hw Hin Hp.
  destruct (Piece_init_SHAPES
              (mkLoc (height s - Z.of_nat (length shape)) (width s / 2))
              shape Hin) as (p' & Hp' & Hw3 & Hlen & _).
  rewrite Hp in Hp'. injection Hp' as <-.
  destruct (Piece_init_fields _ _ _ Hp) as (Hl & Hr & _).
  unfold in_bounds, get_width. rewrite Hl, Hr. simpl.
  assert (3 <= width s / 2) by (apply Z.div_le_lower_bound; lia).
  assert (width s / 2 <= width s) by (apply Z.div_le_upper_bound; lia).
  change (atN (widths p)) with (dget (widths p) N_). lia.
Qed.

(** What a spawn does to the state: it replaces the current piece and may
    set the game-over flag. *)
Lemma add_piece_current (s : Tetris) (shape : list N) :
  In shape SHAPES_values ->
  exists (p : Piece) (s' : Tetris),
    Piece_init (mkLoc (height s - Z.of_nat (length shape)) (width s / 2)) shape
    = Ok p /\
    _add_piece s shape = Ok s' /\
    current_piece s' = Some p /\
    (fits s p -> game_over s' = game_over s) /\
    (~ fits s p -> game_over s' = true) /\
    board s' = board s /\ width s' = width s /\ height s' = height s /\
    FULL_ROW s' = FULL_ROW s /\ hold_piece s' = hold_piece s /\
    cleared_lines s' = cleared_lines s /\ can_hold s' = can_hold s.
Proof.
  intros Hin.
  destruct (Piece_init_SHAPES
              (mkLoc (height s - Z.of_nat (length shape)) (width s / 2))
              shape Hin) as (p & Hp & _).
  destruct (add_piece_spec s shape p Hp) as (v & Hiff & Hadd).
  exists p. eexists. split; [exact Hp|]. split; [exact Hadd|].
  destruct v; simpl.
  - split; [reflexivity|]. split; [reflexivity|].
    split; [|repeat split].
    intros Hno. exfalso. apply Hno. apply Hiff. reflexivity.
  - split; [reflexivity|]. split; [|repeat split].
    intros Hfit. apply Hiff in Hfit. discriminate.
Qed.

Lemma spawn_col (s : Tetris) (shape : list N) (p : Piece) :
  0 <= width s ->
  Piece_init (mkLoc (height s - Z.of_nat (length shape)) (width s / 2)) shape
  = Ok p ->
  col (loc p) <= width s.
Proof.
  intros Hw Hp. destruct (Piece_init_fields _ _ _ Hp) as (Hl & _).
  rewrite Hl. simpl. apply Z.div_le_upper_bound; lia.
Qed.

Lemma Base_frame (s s' : Tetris) :
  Base s -> width s' = width s -> FULL_ROW s' = FULL_ROW s ->
  board s' = board s -> hold_piece s' = hold_piece s -> Base s'.
Proof.
  intros [H1 H2 H3 H4] Hw Hf Hb Hh.
  constructor; rewrite ?Hw, ?Hf, ?Hb, ?Hh; assumption.
Qed.

Lemma Base_locked (s : Tetris) (merged : list N) :
  Base s -> Base (_clear_rows (set_board s merged)).
Proof.
  intros [H1 H2 H3 H4]. constructor; simpl; try assumption.
  apply Forall_forall. intros x Hx. apply list_elem_of_In in Hx.
  apply filter_keeps in Hx. apply Hx.
Qed.

Lemma Base_set_hold_piece (s : Tetris) (hp : option Piece) :
  Base s -> (forall q, hp = Some q -> wf_piece q) ->
  Base (set_hold_piece s hp).
Proof.
  intros [H1 H2 H3 H4] Hq. constructor; simpl; assumption.
Qed.

(** *** Every board *)

Lemma add_piece_Sound (s s' : Tetris) (shape : list N) :
  Base s -> hold_flag s -> In shape SHAPES_values ->
  _add_piece s shape = Ok s' ->
  Sound s' /\ width s' = width s /\ height s' = height s.
Proof.
  intros HB Hf Hin Hadd.
  destruct (add_piece_current s shape Hin)
    as (p & s2 & Hp & Hadd2 & Hcur & _ & _ & Hb & Hw & Hh & Hfull & Hhp & _ & Hch).
  rewrite Hadd in Hadd2. injection Hadd2 as <-.
  split; [|split; assumption]. constructor.
  - apply (Base_frame s); assumption.
  - exists p. split; [exact Hcur|]. eapply wf_piece_init; eassumption.
  - intros q Hq. rewrite Hcur in Hq. injection Hq as <-.
    apply (spawn_col s shape p (base_width s HB)) in Hp. rewrite Hw. exact Hp.
  - unfold hold_flag. rewrite Hhp, Hch. exact Hf.
Qed.

Lemma Sound_set_current_piece (s : Tetris) (p : Piece) :
  Sound s -> wf_piece p -> col (loc p) <= width s ->
  Sound (set_current_piece s (Some p)).
Proof.
  intros [[H1 H2 H3 H4] Hp Hc Hf] Hwf Hcol.
  constructor; [constructor; simpl; assumption| | |exact Hf].
  - exists p. split; [reflexivity|exact Hwf].
  - intros q [= <-]. exact Hcol.
Qed.

Lemma Sound_set_can_hold (s : Tetris) (b : bool) :
  Sound s -> Sound (set_can_hold s (Some b)).
Proof.
  intros [[H1 H2 H3 H4] Hp Hc Hf].
  constructor; [constructor; simpl; assumption|exact Hp|exact Hc|].
  intros _. discriminate.
Qed.

Lemma stop_piece_Sound (s s' : Tetris) (choice : list N) :
  Sound s -> In choice SHAPES_values -> _stop_piece s choice = Ok s' ->
  Sound s' /\ width s' = width s /\ height s' = height s.
Proof.
  intros [HB _ _ Hf] Hin Hstop. unfold _stop_piece in Hstop.
  apply bind_Ok in Hstop. destruct Hstop as (p & _ & Hstop).
  apply bind_Ok in Hstop. destruct Hstop as (bits & _ & Hstop).
  apply bind_Ok in Hstop. destruct Hstop as (b & _ & Hstop).
  apply bind_Ok in Hstop. destruct Hstop as (s2 & Hadd & [= <-]).
  destruct (add_piece_Sound _ s2 choice (Base_locked s b HB) Hf Hin Hadd)
    as (HS & Hw & Hh).
  split; [apply Sound_set_can_hold; exact HS|].
  split; [exact Hw|exact Hh].
Qed.

Lemma tentative_Sound (s s' : Tetris) (p' : Piece) (v : bool) :
  Sound s -> wf_piece p' -> (v = true <-> fits s p') ->
  s' = (if v then set_current_piece s (Some p') else s) ->
  Sound s' /\ width s' = width s /\ height s' = height s.
Proof.
  intros HS Hwf Hiff ->. destruct v; [|split; [exact HS|split; reflexivity]].
  split; [|split; reflexivity].
  apply Sound_set_current_piece; [exact HS|exact Hwf|].
  apply (proj1 Hiff eq_refl).
Qed.

Lemma move_down_Sound (s s' : Tetris) (choice : list N) (v : bool) :
  Sound s -> In choice SHAPES_values -> move_down s choice = Ok (v, s') ->
  Sound s' /\ width s' = width s /\ height s' = height s.
Proof.
  intros HS Hin Hmd. destruct (sound_piece s HS) as (p & Hp & Hwf).
  destruct (move_down_spec s p choice Hp) as (v' & Hiff & Hm).
  rewrite Hm in Hmd. destruct v'.
  - injection Hmd as _ <-.
    split; [|split; reflexivity].
    apply Sound_set_current_piece;
      [exact HS|apply wf_piece_set_loc; exact Hwf|].
    apply (proj1 Hiff eq_refl).
  - apply bind_Ok in Hmd. destruct Hmd as (s3 & Hstop & [= _ <-]).
    apply (stop_piece_Sound s s3 choice HS Hin Hstop).
Qed.

Lemma drop_loop_Sound (fuel : nat) (choice : list N) :
  In choice SHAPES_values ->
  forall s s' : Tetris,
    Sound s -> drop_loop fuel s choice = Some (Ok s') ->
    Sound s' /\ width s' = width s /\ height s' = height s.
Proof.
  intros Hin. induction fuel as [|fuel IH]; intros s s' HS; simpl.
  - discriminate.
  - destruct (move_down s choice) as [[v s1]|e] eqn:Hmd; [|discriminate].
    destruct (move_down_Sound s s1 choice v HS Hin Hmd) as (HS1 & Hw & Hh).
    destruct v.
    + intros Hd. destruct (IH s1 s' HS1 Hd) as (HS' & Hw' & Hh').
      split; [exact HS'|]. split; congruence.
    + intros [= <-]. split; [exact HS1|]. split; assumption.
Qed.

(** [hold], case by case. *)
Lemma hold_cases (s : Tetris) (choice : list N) :
  Sound s -> In choice SHAPES_values ->
  exists s' : Tetris,
    hold s choice = Ok s' /\ Sound s' /\
    can_hold s' = Some false /\ board s' = board s /\
    width s' = width s /\ height s' = height s /\
    match hold_piece s, can_hold s with
    | Some hp, Some false => s' = s
    | Some hp, _ =>
        hold_piece s' = current_piece s /\
        In (dget (shapes hp) N_) SHAPES_values /\
        exists s1, _add_piece (set_hold_piece s (current_piece s))
                              (dget (shapes hp) N_) = Ok s1 /\
                   s' = set_can_hold s1 (Some false)
    | None, _ =>
        hold_piece s' = current_piece s /\
        exists s1, _add_piece (set_hold_piece s (current_piece s)) choice
                   = Ok s1 /\
                   s' = set_can_hold s1 (Some false)
    end.
Proof.
  intros HS Hin. destruct (sound_piece s HS) as (p & Hp & Hwf).
  pose proof (sound_flag s HS) as Hf.
  assert (HB : Base (set_hold_piece s (current_piece s))).
  { apply Base_set_hold_piece; [exact (sound_base s HS)|].
    intros q Hq. rewrite Hp in Hq. injection Hq as <-. exact Hwf. }
  assert (Hspawn : forall shape, In shape SHAPES_values ->
            exists s1, _add_piece (set_hold_piece s (current_piece s)) shape
                       = Ok s1 /\
                       Sound (set_can_hold s1 (Some false)) /\
                       board s1 = board s /\ hold_piece s1 = current_piece s /\
                       width s1 = width s /\ height s1 = height s).
  { intros shape Hshape.
    destruct (add_piece_current (set_hold_piece s (current_piece s)) shape
                Hshape)
      as (pn & s1 & Hpn & Hadd & Hcur & _ & _ & Hb & Hw & Hh & Hfull & Hhp & _).
    exists s1. split; [exact Hadd|]. split; [|repeat split; assumption].
    constructor.
    - apply (Base_frame (set_hold_piece s (current_piece s))); assumption.
    - exists pn. split; [exact Hcur|]. eapply wf_piece_init; eassumption.
    - intros q Hq. simpl in Hq. rewrite Hcur in Hq. injection Hq as <-.
      apply (spawn_col _ shape pn (base_width _ HB)) in Hpn.
      simpl. rewrite Hw. exact Hpn.
    - intros _. discriminate. }
  unfold hold. destruct (hold_piece s) as [hp|] eqn:Hhp.
  - destruct (can_hold s) as [b|] eqn:Hch.
    2:{ exfalso. apply Hf; [rewrite Hhp; discriminate|exact Hch]. }
    unfold read_can_hold. rewrite Hch. cbn [bind]. destruct b; cbn [bind].
    + assert (Hbase : In (dget (shapes hp) N_) SHAPES_values).
      { apply wf_piece_base. apply (base_hold s (sound_base s HS)). exact Hhp. }
      destruct (Hspawn _ Hbase) as (s1 & Hadd & HS1 & Hb & Hh & Hw & Hht).
      rewrite Hadd. cbn [bind]. eexists. split; [reflexivity|].
      split; [exact HS1|]. split; [reflexivity|].
      split; [exact Hb|]. split; [exact Hw|]. split; [exact Hht|].
      split; [exact Hh|]. split; [exact Hbase|].
      exists s1. split; reflexivity.
    + eexists. split; [reflexivity|].
      split; [apply Sound_set_can_hold; exact HS|].
      split; [reflexivity|]. split; [reflexivity|].
      split; [reflexivity|]. split; [reflexivity|].
      destruct s; simpl in *. subst. reflexivity.
  - destruct (Hspawn _ Hin) as (s1 & Hadd & HS1 & Hb & Hh & Hw & Hht).
    unfold _next_piece. rewrite Hadd. cbn [bind]. eexists.
    split; [reflexivity|]. split; [exact HS1|]. split; [reflexivity|].
    split; [exact Hb|]. split; [exact Hw|]. split; [exact Hht|].
    assert (Hgoal : hold_piece (set_can_hold s1 (Some false)) = current_piece s
                    /\ exists s2, Ok s1 = Ok s2 /\
                         set_can_hold s1 (Some false)
                         = set_can_hold s2 (Some false)).
    { split; [exact Hh|]. exists s1. split; reflexivity. }
    destruct (can_hold s) as [[|]|]; exact Hgoal.
Qed.

Lemma Tetris_init_Sound (old : option bool) (height0 width0 level0 : Z)
    (choice : list N) :
  0 <= width0 -> In choice SHAPES_values ->
  exists s : Tetris,
    Tetris_init old height0 width0 level0 choice = Ok s /\
    Sound s /\ width s = width0 /\ height s = height0 /\
    hold_piece s = None /\ board s = [] /\ game_over s = false.
Proof.
  intros Hw Hin. unfold Tetris_init, _next_piece.
  set (s0 := {| width := width0; height := height0; board := [];
                FULL_ROW := (2 ^ Z.to_N width0 - 1)%N;
                current_piece := None; hold_piece := None;
                cleared_lines := 0; starting_level := 0;
                game_over := false; can_hold := old |}).
  destruct (add_piece_current s0 choice Hin)
    as (p & s1 & Hp & Hadd & Hcur & _ & _ & Hb & Hw1 & Hh1 & Hfull & _).
  rewrite Hadd. cbn [bind]. eexists. split; [reflexivity|]. simpl.
  rewrite Hw1, Hh1, Hb, Hfull, Hcur. simpl.
  split; [|repeat split].
  constructor; simpl.
  - constructor; simpl; [exact Hw|reflexivity|constructor|discriminate].
  - exists p. split; [reflexivity|]. eapply wf_piece_init; eassumption.
  - intros q [= <-]. apply (spawn_col s0 choice p Hw Hp).
  - intros H. contradiction.
Qed.

Lemma step_Sound (s s' : Tetris) (a : action) :
  Sound s -> legal a -> step s a = Some (Ok s') ->
  Sound s' /\
  match a with
  | Restart _ => width s' = 10 /\ height s' = 20
  | _ => width s' = width s /\ height s' = height s
  end.
Proof.
  intros HS Hlegal Hstep.
  destruct (sound_piece s HS) as (p & Hp & Hwf).
  destruct a as [c| | |fuel c| | |c|c]; simpl in Hstep, Hlegal.
  - injection Hstep as Hstep. apply bind_Ok in Hstep.
    destruct Hstep as ([v s1] & Hmd & [= <-]).
    exact (move_down_Sound s s1 c v HS Hlegal Hmd).
  - destruct (move_left_spec s p Hp) as (v & Hiff & Hm).
    rewrite Hm in Hstep. injection Hstep as Hs.
    apply (tentative_Sound s s' (moved p 0 1) v HS);
      [apply wf_piece_set_loc; exact Hwf|exact Hiff|symmetry; exact Hs].
  - destruct (move_right_spec s p Hp) as (v & Hiff & Hm).
    rewrite Hm in Hstep. injection Hstep as Hs.
    apply (tentative_Sound s s' (moved p 0 (-1)) v HS);
      [apply wf_piece_set_loc; exact Hwf|exact Hiff|symmetry; exact Hs].
  - exact (drop_loop_Sound fuel c Hlegal s s' HS Hstep).
  - destruct (rot_right_spec s p Hp) as (v & Hiff & Hm).
    rewrite Hm in Hstep. injection Hstep as Hs.
    apply (tentative_Sound s s' (set_rot p (next_dir (rot p))) v HS);
      [apply wf_piece_set_rot; exact Hwf|exact Hiff|symmetry; exact Hs].
  - destruct (rot_left_spec s p Hp) as (v & Hiff & Hm).
    rewrite Hm in Hstep. injection Hstep as Hs.
    apply (tentative_Sound s s' (set_rot p (prev_dir (rot p))) v HS);
      [apply wf_piece_set_rot; exact Hwf|exact Hiff|symmetry; exact Hs].
  - destruct (hold_cases s c HS Hlegal) as (s1 & Hh & HS1 & _ & _ & Hw & Hht & _).
    rewrite Hh in Hstep. injection Hstep as <-.
    split; [exact HS1|]. split; assumption.
  - unfold restart in Hstep.
    destruct (Tetris_init_Sound (can_hold s) 20 10 0 c) as (s1 & Hi & HS1 & Hw & Hh & _);
      [lia|exact Hlegal|].
    rewrite Hi in Hstep. injection Hstep as <-.
    split; [exact HS1|]. split; assumption.
Qed.

Lemma reachable_Sound (s : Tetris) : reachable s -> Sound s.
Proof.
  induction 1 as [h w lvl c s Hw Hin Hi | s a s' Hr HS Hlegal Hstep].
  - destruct (Tetris_init_Sound None h w lvl c Hw Hin) as (s1 & Hi1 & HS & _).
    rewrite Hi1 in Hi. injection Hi as <-. exact HS.
  - apply (step_Sound s s' a HS Hlegal Hstep).
Qed.

(** *** Boards on which every shape spawns in bounds *)

Lemma add_piece_Inv (s s' : Tetris) (shape : list N) :
  4 <= height s -> 6 <= width s -> In shape SHAPES_values ->
  _add_piece s shape = Ok s' -> Inv s'.
Proof.
  intros Hh Hw Hin Hadd.
  destruct (Piece_init_SHAPES
              (mkLoc (height s - Z.of_nat (length shape)) (width s / 2))
              shape Hin) as (p & Hp & _).
  pose proof (spawn_in_bounds s shape p Hh Hw Hin Hp) as Hbd.
  destruct (add_piece_spec s shape p Hp) as (v & Hiff & Hadd2).
  rewrite Hadd in Hadd2. injection Hadd2 as ->.
  destruct v; constructor; simpl; try assumption.
  - exists p. split; [reflexivity|exact Hbd].
  - intros _ q [= <-]. apply Hiff. reflexivity.
  - exists p. split; [reflexivity|exact Hbd].
  - discriminate.
Qed.

Lemma Inv_set_can_hold (s : Tetris) (b : option bool) :
  Inv s -> Inv (set_can_hold s b).
Proof. intros [H1 H2 Hp Hpl]. constructor; simpl; assumption. Qed.

Lemma Inv_set_current_piece (s : Tetris) (p : Piece) :
  Inv s -> fits s p -> Inv (set_current_piece s (Some p)).
Proof.
  intros [H1 H2 Hp Hpl] Hfit. constructor; simpl; try assumption.
  - exists p. split; [reflexivity|]. apply (fits_in_bounds s). exact Hfit.
  - intros _ q [= <-]. exact Hfit.
Qed.

(** Locking a piece that is in bounds and not above the top of the board
    succeeds. *)
Lemma stop_piece_Inv (s : Tetris) (p : Piece) (choice : list N) :
  4 <= height s -> 6 <= width s ->
  current_piece s = Some p -> in_bounds s p ->
  row (loc p) <= len (board s) ->
  In choice SHAPES_values ->
  exists (merged : list N) (s' : Tetris),
    _stop_piece_loop (board s) (row (loc p)) (bits_of p) = Ok merged /\
    stacked (board s) (row (loc p)) (bits_of p) merged /\
    _stop_piece s choice = Ok s' /\ Inv s' /\
    board s' = List.filter (keep_row (FULL_ROW s)) merged /\
    can_hold s' = Some true.
Proof.
  intros Hh Hw Hp (Hr & Hc & Hwd) Hrow Hin.
  destruct (stop_piece_loop_stacked (bits_of p) (board s) (row (loc p)))
    as (merged & Hloop & Hst); [lia|].
  destruct (add_piece_current (_clear_rows (set_board s merged)) choice Hin)
    as (pn & s2 & _ & Hadd & _ & _ & _ & Hb & _).
  pose proof (add_piece_Inv (_clear_rows (set_board s merged)) s2 choice
                Hh Hw Hin Hadd) as HI.
  exists merged, (set_can_hold s2 (Some true)).
  split; [exact Hloop|]. split; [exact Hst|]. split.
  { rewrite (stop_piece_unfold s p (bits_of p) merged choice Hp
               (get_bits_ok p Hwd) Hloop).
    unfold _next_piece. rewrite Hadd. reflexivity. }
  split; [apply Inv_set_can_hold; exact HI|].
  simpl. rewrite Hb. split; reflexivity.
Qed.

Lemma move_down_cases (s : Tetris) (p : Piece) (choice : list N) :
  Inv s -> current_piece s = Some p -> In choice SHAPES_values ->
  (fits s (moved p (-1) 0) /\
   move_down s choice
   = Ok (true, set_current_piece s (Some (moved p (-1) 0))))
  \/
  (~ fits s (moved p (-1) 0) /\
   0 <= row (loc p) <= len (board s) /\
   exists (merged : list N) (s' : Tetris),
     _stop_piece_loop (board s) (row (loc p)) (bits_of p) = Ok merged /\
     stacked (board s) (row (loc p)) (bits_of p) merged /\
     _stop_piece s choice = Ok s' /\
     move_down s choice = Ok (false, s') /\
     Inv s' /\ can_hold s' = Some true /\
     board s' = List.filter (keep_row (FULL_ROW s)) merged).
Proof.
  intros HI Hp Hin.
  destruct (move_down_spec s p choice Hp) as (v & Hiff & Hmd).
  destruct v.
  - left. split; [apply Hiff; reflexivity|exact Hmd].
  - right.
    assert (Hno : ~ fits s (moved p (-1) 0))
      by (intros H; apply Hiff in H; discriminate).
    destruct (inv_piece s HI) as (q & Hq & Hbd).
    rewrite Hp in Hq. injection Hq as <-.
    pose proof (rejected_down_row s p (proj1 (proj2 Hbd))
                  (proj2 (proj2 Hbd)) Hno) as Hrow.
    destruct (stop_piece_Inv s p choice (inv_height s HI) (inv_width s HI)
                Hp Hbd Hrow Hin)
      as (merged & s' & Hloop & Hst & Hstop & HI' & Hb & Hch).
    split; [exact Hno|]. split; [destruct Hbd; lia|].
    exists merged, s'. rewrite Hmd, Hstop. simpl.
    split; [exact Hloop|]. split; [exact Hst|]. split; [reflexivity|].
    split; [reflexivity|]. split; [exact HI'|]. split; assumption.
Qed.

Lemma move_down_Inv (s : Tetris) (choice : list N) :
  Inv s -> In choice SHAPES_values ->
  exists (v : bool) (s' : Tetris),
    move_down s choice = Ok (v, s') /\ Inv s'.
Proof.
  intros HI Hin. destruct (inv_piece s HI) as (p & Hp & Hbd).
  destruct (move_down_cases s p choice HI Hp Hin)
    as [(Hfit & Hmd) | (_ & _ & merged & s' & _ & _ & _ & Hmd & HI' & _)].
  - eexists _, _. split; [exact Hmd|].
    apply Inv_set_current_piece; assumption.
  - exists false, s'. split; assumption.
Qed.

Lemma drop_loop_Inv (fuel : nat) (choice : list N) :
  In choice SHAPES_values ->
  forall s s' : Tetris,
    Inv s -> drop_loop fuel s choice = Some (Ok s') -> Inv s'.
Proof.
  intros Hin. induction fuel as [|fuel IH]; intros s s' HI; simpl.
  - discriminate.
  - destruct (move_down_Inv s choice HI Hin) as (v & s1 & Hmd & HI1).
    rewrite Hmd. destruct v.
    + apply IH; assumption.
    + intros [= <-]. assumption.
Qed.

Lemma tentative_Inv (s s' : Tetris) (p' : Piece) (v : bool) :
  Inv s -> (v = true <-> fits s p') ->
  s' = (if v then set_current_piece s (Some p') else s) ->
  Inv s'.
Proof.
  intros HI Hiff ->. destruct v; [|assumption].
  apply Inv_set_current_piece; [exact HI|apply Hiff; reflexivity].
Qed.

Lemma Tetris_init_Inv (old : option bool) (height0 width0 level0 : Z)
    (choice : list N) (s : Tetris) :
  4 <= height0 -> 6 <= width0 -> In choice SHAPES_values ->
  Tetris_init old height0 width0 level0 choice = Ok s -> Inv s.
Proof.
  intros Hh Hw Hin. unfold Tetris_init, _next_piece.
  set (s0 := {| width := width0; height := height0; board := [];
                FULL_ROW := (2 ^ Z.to_N width0 - 1)%N;
                current_piece := None; hold_piece := None;
                cleared_lines := 0; starting_level := 0;
                game_over := false; can_hold := old |}).
  destruct (Piece_init_SHAPES
              (mkLoc (height s0 - Z.of_nat (length choice)) (width s0 / 2))
              choice Hin) as (p & Hp & _).
  pose proof (spawn_in_bounds s0 choice p Hh Hw Hin Hp) as Hbd.
  destruct (add_piece_spec s0 choice p Hp) as (v & Hiff & Hadd).
  rewrite Hadd. cbn [bind].
  assert (Hfit : fits s0 p).
  { destruct Hbd as (H1 & H2 & H3). repeat split; try assumption.
    intros i layer x _ Hx. simpl in Hx. rewrite lookup_nil in Hx.
    discriminate. }
  intros [= <-].
  destruct v; constructor; simpl; try assumption.
  - exists p. split; [reflexivity|exact Hbd].
  - intros _ q [= <-]. exact Hfit.
  - exists p. split; [reflexivity|exact Hbd].
  - intros _ q [= <-]. exact Hfit.
Qed.

Lemma step_Inv (s s' : Tetris) (a : action) :
  Sound s -> Inv s -> legal a -> step s a = Some (Ok s') -> Inv s'.
Proof.
  intros HS HI Hlegal Hstep.
  destruct (sound_piece s HS) as (p & Hp & Hwf).
  destruct a as [c| | |fuel c| | |c|c]; simpl in Hstep, Hlegal.
  - destruct (move_down_Inv s c HI Hlegal) as (v & s1 & Hmd & HI1).
    rewrite Hmd in Hstep. simpl in Hstep. injection Hstep as <-. exact HI1.
  - destruct (move_left_spec s p Hp) as (v & Hiff & Hm).
    rewrite Hm in Hstep. injection Hstep as Hs.
    apply (tentative_Inv s s' _ v HI Hiff). symmetry. exact Hs.
  - destruct (move_right_spec s p Hp) as (v & Hiff & Hm).
    rewrite Hm in Hstep. injection Hstep as Hs.
    apply (tentative_Inv s s' _ v HI Hiff). symmetry. exact Hs.
  - exact (drop_loop_Inv fuel c Hlegal s s' HI Hstep).
  - destruct (rot_right_spec s p Hp) as (v & Hiff & Hm).
    rewrite Hm in Hstep. injection Hstep as Hs.
    apply (tentative_Inv s s' _ v HI Hiff). symmetry. exact Hs.
  - destruct (rot_left_spec s p Hp) as (v & Hiff & Hm).
    rewrite Hm in Hstep. injection Hstep as Hs.
    apply (tentative_Inv s s' _ v HI Hiff). symmetry. exact Hs.
  - destruct (hold_cases s c HS Hlegal) as (s1 & Hh & _ & _ & _ & _ & _ & Hcase).
    rewrite Hh in Hstep. injection Hstep as <-.
    assert (Hspawned : forall shape s2,
              In shape SHAPES_values ->
              _add_piece (set_hold_piece s (current_piece s)) shape = Ok s2 ->
              Inv (set_can_hold s2 (Some false))).
    { intros shape s2 Hshape Hadd. apply Inv_set_can_hold.
      apply (add_piece_Inv (set_hold_piece s (current_piece s)) s2 shape);
        [exact (inv_height s HI)|exact (inv_width s HI)|exact Hshape|exact Hadd]. }
    destruct (hold_piece s) as [hp|].
    + destruct (can_hold s) as [[|]|].
      * destruct Hcase as (_ & Hbase & s2 & Hadd & ->).
        exact (Hspawned _ s2 Hbase Hadd).
      * subst s1. exact HI.
      * destruct Hcase as (_ & Hbase & s2 & Hadd & ->).
        exact (Hspawned _ s2 Hbase Hadd).
    + assert (Hc : exists s2,
                _add_piece (set_hold_piece s (current_piece s)) c = Ok s2 /\
                s1 = set_can_hold s2 (Some false))
        by (destruct (can_hold s) as [[|]|]; apply Hcase).
      destruct Hc as (s2 & Hadd & ->). exact (Hspawned _ s2 Hlegal Hadd).
  - unfold restart in Hstep. injection Hstep as Hstep.
    apply (Tetris_init_Inv (can_hold s) 20 10 0 c s'); [lia|lia|exact Hlegal|exact Hstep].
Qed.

(** On a board of at least 4 rows and 6 columns every state of a session
    has its piece in bounds, and in place as long as the game is not
    over. *)
Lemma reachable_Inv (s : Tetris) :
  reachable s -> 4 <= height s -> 6 <= width s -> Inv s.
Proof.
  induction 1 as [h w lvl c s Hw Hin Hi | s a s' Hr IH Hlegal Hstep];
    intros Hh4 Hw6.
  - destruct (Tetris_init_Sound None h w lvl c Hw Hin)
      as (s1 & Hi1 & _ & Hw1 & Hh1 & _).
    rewrite Hi in Hi1. injection Hi1 as <-. subst h w.
    apply (Tetris_init_Inv None _ _ lvl c s Hh4 Hw6 Hin Hi).
  - pose proof (reachable_Sound s Hr) as HS.
    destruct (step_Sound s s' a HS Hlegal Hstep) as (_ & Hdims).
    destruct a as [c| | |fuel c| | |c|c];
      try (destruct Hdims as (Hw & Hh); rewrite Hw in Hw6; rewrite Hh in Hh4;
           exact (step_Inv s s' _ HS (IH Hh4 Hw6) Hlegal Hstep)).
    simpl in Hstep, Hlegal. unfold restart in Hstep. injection Hstep as Hstep.
    apply (Tetris_init_Inv (can_hold s) 20 10 0 c s'); [lia|lia|exact Hlegal|exact Hstep].
Qed.

Lemma run_reachable (acts : list action) :
  forall s s' : Tetris,
    reachable s -> Forall legal acts -> run s acts = Some (Ok s') ->
    reachable s'.
Proof.
  induction acts as [|a acts IH]; intros s s' Hr Hl Hrun; simpl in Hrun.
  - injection Hrun as <-. exact Hr.
  - inversion Hl as [|a' acts' Ha Hacts]; subst.
    destruct (step s a) as [[s1|e]|] eqn:Hstep; try discriminate.
    apply (IH s1 s'); [|exact Hacts|exact Hrun].
    eapply reach_step; eassumption.
Qed.

Lemma filter_sublist (full : N) (l : list N) :
  sublist (List.filter (keep_row full) l) l.
Proof.
  induction l as [|x l IH]; simpl; [constructor|].
  destruct (keep_row full x); [apply sublist_skip|apply sublist_cons];
    exact IH.
Qed.

(** ** Concrete sessions *)

Lemma square_in_SHAPES : In [3; 3]%N SHAPES_values.
Proof. left. reflexivity. Qed.

Lemma floor_state_reachable : reachable floor_state.
Proof.
  assert (Hinit : exists s0, Tetris_init None 20 10 0 [3; 3]%N = Ok s0 /\
                             run s0 (repeat (MoveDown [3; 3]%N) 18)
                             = Some (Ok floor_state)).
  { eexists. split; [vm_compute; reflexivity|vm_compute; reflexivity]. }
  destruct Hinit as (s0 & Hinit & Hrun).
  apply (run_reachable (repeat (MoveDown [3; 3]%N) 18) s0 floor_state);
    [|apply Forall_forall|exact Hrun].
  - apply (reach_init 20 10 0 [3; 3]%N);
      [lia|exact square_in_SHAPES|exact Hinit].
  - intros a Ha. apply list_elem_of_In, repeat_spec in Ha. subst a.
    exact square_in_SHAPES.
Qed.

Lemma floor_state_locked_reachable : reachable floor_state_locked.
Proof.
  apply (reach_step floor_state (MoveDown [3; 3]%N));
    [exact floor_state_reachable|exact square_in_SHAPES|].
  vm_compute. reflexivity.
Qed.

Lemma held_state_reachable : reachable held_state.
Proof.
  apply (run_reachable [Hold [3; 3]%N; Drop 20 [3; 3]%N] floor_state_locked);
    [exact floor_state_locked_reachable| |vm_compute; reflexivity].
  repeat constructor; exact square_in_SHAPES.
Qed.

Lemma violates_rejected (s : Tetris) (p' : Piece) (v : bool) :
  tables_ok p' -> violates s p' -> (v = true <-> fits s p') -> v = false.
Proof.
  intros Ht Hv Hiff. destruct v; [|reflexivity]. exfalso.
  apply (violates_not_placement_ok s p' Hv).
  apply fits_placement_ok; [exact Ht|]. apply Hiff. reflexivity.
Qed.

Lemma set_can_hold_same (s : Tetris) (b : option bool) :
  can_hold s = b -> set_can_hold s b = s.
Proof. destruct s; simpl. intros ->. reflexivity. Qed.

Lemma move_down_true_row (s s' : Tetris) (p : Piece) (choice : list N) :
  current_piece s = Some p ->
  move_down s choice = Ok (true, s') ->
  exists p' : Piece,
    current_piece s' = Some p' /\
    row (loc p') = row (loc p) - 1 /\ 0 <= row (loc p') /\
    col (loc p') = col (loc p) /\ rot p' = rot p /\ board s' = board s.
Proof.
  intros Hp Hmd. destruct (move_down_spec s p choice Hp) as (v & Hiff & Hm).
  rewrite Hm in Hmd. destruct v.
  - injection Hmd as <-. exists (moved p (-1) 0).
    destruct (proj1 Hiff eq_refl) as (Hrow & _).
    simpl in *. repeat split; try reflexivity; lia.
  - destruct (_stop_piece s choice); discriminate.
Qed.

Lemma drop_descends (choice : list N) :
  In choice SHAPES_values ->
  forall (m : nat) (s : Tetris) (p : Piece),
    Inv s -> current_piece s = Some p -> row (loc p) = Z.of_nat m ->
    exists (n : nat) (s_low s' : Tetris) (p_low : Piece),
      (n <= m)%nat /\
      falls choice s n s_low /\
      current_piece s_low = Some p_low /\
      row (loc p_low) = row (loc p) - Z.of_nat n /\
      move_down s_low choice = Ok (false, s') /\
      _stop_piece s_low choice = Ok s' /\
      can_hold s' = Some true /\
      forall fuel : nat, (n < fuel)%nat ->
        drop_loop fuel s choice = Some (Ok s').
Proof.
  intros Hin. induction m as [|m IH]; intros s p HI Hp Hrow.
  - destruct (move_down_cases s p choice HI Hp Hin)
      as [(Hfit & _) | (_ & _ & merged & s' & _ & _ & Hstop & Hmd & _ & Hch & _)].
    + destruct Hfit as (H0 & _). simpl in H0. lia.
    + exists 0%nat, s, s', p. split; [lia|]. split; [constructor|].
      split; [exact Hp|]. split; [lia|]. split; [exact Hmd|].
      split; [exact Hstop|]. split; [exact Hch|].
      intros [|fuel] Hfuel; [lia|]. simpl. rewrite Hmd. reflexivity.
  - destruct (move_down_cases s p choice HI Hp Hin)
      as [(Hfit & Hmd) | (_ & _ & merged & s' & _ & _ & Hstop & Hmd & _ & Hch & _)].
    + destruct (IH (set_current_piece s (Some (moved p (-1) 0)))
                   (moved p (-1) 0))
        as (n & s_low & s' & p_low & Hn & Hfalls & Hlow & Hrl & Hmd' & Hstop
            & Hch & Hfuel).
      * apply Inv_set_current_piece; [exact HI|exact Hfit].
      * reflexivity.
      * simpl. lia.
      * exists (S n), s_low, s', p_low. split; [lia|].
        split; [eapply falls_S; eassumption|]. split; [exact Hlow|].
        split; [simpl in Hrl; lia|]. split; [exact Hmd'|].
        split; [exact Hstop|]. split; [exact Hch|].
        intros [|fuel] Hf; [lia|]. simpl. rewrite Hmd. apply Hfuel. lia.
    + exists 0%nat, s, s', p. split; [lia|]. split; [constructor|].
      split; [exact Hp|]. split; [lia|]. split; [exact Hmd|].
      split; [exact Hstop|]. split; [exact Hch|].
      intros [|fuel] Hfuel; [lia|]. simpl. rewrite Hmd. reflexivity.
Qed.

Lemma stop_piece_inversion (s s' : Tetris) (p : Piece) (choice : list N) :
  current_piece s = Some p -> In choice SHAPES_values ->
  _stop_piece s choice = Ok s' ->
  exists bits merged : list N,
    get_bits p = Ok bits /\
    _stop_piece_loop (board s) (row (loc p)) bits = Ok merged /\
    board s' = List.filter (keep_row (FULL_ROW s)) merged.
Proof.
  intros Hp Hin Hstop. unfold _stop_piece, the_piece in Hstop.
  rewrite Hp in Hstop. cbn [bind] in Hstop.
  apply bind_Ok in Hstop. destruct Hstop as (bits & Hbits & Hstop).
  apply bind_Ok in Hstop. destruct Hstop as (merged & Hloop & Hstop).
  apply bind_Ok in Hstop. destruct Hstop as (s2 & Hadd & [= <-]).
  exists bits, merged. split; [exact Hbits|]. split; [exact Hloop|].
  destruct (add_piece_current (_clear_rows (set_board s merged)) choice Hin)
    as (pn & s3 & _ & Hadd3 & _ & _ & _ & Hb & _).
  unfold _next_piece in Hadd. rewrite Hadd in Hadd3. injection Hadd3 as <-.
  simpl. rewrite Hb. reflexivity.
Qed.

(** The loop of [drop] exits: after [n] successful [move_down] calls, at
    most as many as the anchor row, the next call runs [_stop_piece], and
    [drop] ends as that call ends. *)
Lemma drop_total (choice : list N) :
  forall (m : nat) (s : Tetris) (p : Piece),
    current_piece s = Some p -> row (loc p) <= Z.of_nat m ->
    exists (n : nat) (s_low : Tetris) (p_low : Piece),
      (n <= m)%nat /\
      falls choice s n s_low /\
      current_piece s_low = Some p_low /\
      row (loc p_low) = row (loc p) - Z.of_nat n /\
      move_down s_low choice
      = (s' <- _stop_piece s_low choice ;; Ok (false, s')) /\
      forall fuel : nat, (n < fuel)%nat ->
        drop_loop fuel s choice = Some (_stop_piece s_low choice).
Proof.
  induction m as [|m IH]; intros s p Hp Hrow.
  - destruct (move_down_spec s p choice Hp) as (v & Hiff & Hmd).
    destruct v.
    + destruct (proj1 Hiff eq_refl) as (H0 & _). simpl in H0. lia.
    + exists 0%nat, s, p. split; [lia|]. split; [constructor|].
      split; [exact Hp|]. split; [lia|]. split; [exact Hmd|].
      intros [|fuel] Hfuel; [lia|]. simpl. rewrite Hmd.
      destruct (_stop_piece s choice); reflexivity.
  - destruct (move_down_spec s p choice Hp) as (v & Hiff & Hmd).
    destruct v.
    + destruct (IH (set_current_piece s (Some (moved p (-1) 0)))
                   (moved p (-1) 0) eq_refl)
        as (n & s_low & p_low & Hn & Hfalls & Hlow & Hrl & Hmd' & Hfuel).
      { simpl. lia. }
      exists (S n), s_low, p_low. split; [lia|].
      split; [eapply falls_S; eassumption|]. split; [exact Hlow|].
      split; [simpl in Hrl; lia|]. split; [exact Hmd'|].
      intros [|fuel] Hf; [lia|]. simpl. rewrite Hmd. apply Hfuel. lia.
    + exists 0%nat, s, p. split; [lia|]. split; [constructor|].
      split; [exact Hp|]. split; [lia|]. split; [exact Hmd|].
      intros [|fuel] Hfuel; [lia|]. simpl. rewrite Hmd.
      destruct (_stop_piece s choice); reflexivity.
Qed.

(** ** [rotation] *)

Lemma bin_str_rev (layer : N) : bin_str layer = rev (digits_lsb layer).
Proof. destruct layer; reflexivity. Qed.

Lemma nth_pos_digits (p : positive) :
  forall i : nat,
    nth i (pos_digits p) "0"%char = bitc (N.testbit (Npos p) (N.of_nat i)).
Proof.
  induction p as [q IH|q IH|]; intros [|i]; try reflexivity.
  - cbn [pos_digits nth]. rewrite IH, Nat2N.inj_succ.
    change (N.pos q~1) with (2 * N.pos q + 1)%N.
    rewrite N.testbit_odd_succ'. reflexivity.
  - cbn [pos_digits nth]. rewrite IH, Nat2N.inj_succ.
    change (N.pos q~0) with (2 * N.pos q)%N.
    rewrite N.testbit_even_succ'. reflexivity.
  - cbn [pos_digits nth]. rewrite Nat2N.inj_succ.
    change 1%N with (2 * 0 + 1)%N.
    rewrite N.testbit_odd_succ', N.bits_0. destruct i; reflexivity.
Qed.

Lemma nth_digits_lsb (layer : N) (i : nat) :
  nth i (digits_lsb layer) "0"%char = bitc (N.testbit layer (N.of_nat i)).
Proof.
  destruct layer as [|p]; [|apply nth_pos_digits].
  simpl. destruct i as [|[|i]]; reflexivity.
Qed.

Lemma length_pos_digits (p : positive) :
  length (pos_digits p) = Pos.to_nat (Pos.size p).
Proof.
  induction p as [q IH|q IH|]; simpl; try rewrite IH;
    try rewrite Pos2Nat.inj_succ; reflexivity.
Qed.

Lemma length_digits_lsb (layer : N) (w : Z) :
  bit_length layer <= w -> 1 <= w ->
  (length (digits_lsb layer) <= Z.to_nat w)%nat.
Proof.
  unfold bit_length. destruct layer as [|p]; simpl; intros H1 H2; [lia|].
  rewrite length_pos_digits. lia.
Qed.

Lemma format_b_length (layer : N) (w : Z) :
  bit_length layer <= w -> 1 <= w ->
  length (format_b layer w) = Z.to_nat w.
Proof.
  intros H1 H2. pose proof (length_digits_lsb layer w H1 H2) as Hl.
  unfold format_b. rewrite bin_str_rev, length_app, repeat_length, length_rev.
  lia.
Qed.

Lemma format_b_nth (layer : N) (w : Z) (k : nat) :
  bit_length layer <= w -> 1 <= w -> (k < Z.to_nat w)%nat ->
  nth k (format_b layer w) "0"%char
  = bitc (N.testbit layer (N.of_nat (Z.to_nat w - 1 - k))).
Proof.
  intros H1 H2 Hk. pose proof (length_digits_lsb layer w H1 H2) as Hl.
  rewrite <- nth_digits_lsb. unfold format_b.
  rewrite bin_str_rev, length_rev.
  set (L := length (digits_lsb layer)) in *.
  destruct (Nat.lt_ge_cases k (Z.to_nat w - L)) as [Hlt|Hge].
  - rewrite app_nth1 by (rewrite repeat_length; exact Hlt).
    rewrite nth_repeat. symmetry. apply nth_overflow. fold L. lia.
  - rewrite app_nth2 by (rewrite repeat_length; exact Hge).
    rewrite repeat_length, rev_nth by (fold L; lia). fold L.
    f_equal. lia.
Qed.

Lemma min_length_const {A : Type} (rows : list (list A)) (n : nat) :
  rows <> [] -> Forall (fun r => length r = n) rows -> min_length rows = n.
Proof.
  destruct rows as [|r rows]; [congruence|]. intros _ Hall.
  apply Forall_cons_1 in Hall. destruct Hall as [Hr Hall]. simpl.
  rewrite Hr. clear Hr r.
  induction Hall as [|r rows Hr Hall IH]; simpl; [reflexivity|].
  rewrite Hr, Nat.min_id. exact IH.
Qed.

Lemma digit2_bitc (b : bool) : digit2 (bitc b) = Ok (N.b2n b).
Proof. destruct b; reflexivity. Qed.

Lemma int2_loop_bits (bs : list bool) :
  forall acc : N, int2_loop acc (map bitc bs) = Ok (of_msb acc bs).
Proof.
  induction bs as [|b bs IH]; intros acc; simpl; [reflexivity|].
  rewrite digit2_bitc. simpl. apply IH.
Qed.

Lemma int2_bits (bs : list bool) :
  bs <> [] -> int2 (map bitc bs) = Ok (of_msb 0 bs).
Proof.
  intros Hne. destruct bs as [|b bs]; [congruence|].
  apply (int2_loop_bits (b :: bs)).
Qed.

Lemma of_msb_testbit (bs : list bool) :
  forall (acc : N) (j : nat),
    N.testbit (of_msb acc bs) (N.of_nat j)
    = if (j <? length bs)%nat then nth (length bs - 1 - j) bs false
      else N.testbit acc (N.of_nat (j - length bs)).
Proof.
  induction bs as [|b bs IH]; intros acc j.
  - simpl. rewrite Nat.sub_0_r. reflexivity.
  - change (of_msb acc (b :: bs)) with (of_msb (2 * acc + N.b2n b) bs).
    rewrite IH. cbn [length].
    destruct (j <? length bs)%nat eqn:H1.
    + apply Nat.ltb_lt in H1.
      assert (H2 : (j <? S (length bs))%nat = true) by (apply Nat.ltb_lt; lia).
      rewrite H2.
      replace (S (length bs) - 1 - j)%nat with (S (length bs - 1 - j))
        by lia. reflexivity.
    + apply Nat.ltb_ge in H1.
      destruct (Nat.eq_dec j (length bs)) as [->|Hne].
      * rewrite Nat.sub_diag.
        assert (H2 : (length bs <? S (length bs))%nat = true)
          by (apply Nat.ltb_lt; lia).
        rewrite H2.
        replace (S (length bs) - 1 - length bs)%nat with 0%nat by lia.
        simpl. apply N.testbit_0_r.
      * assert (H2 : (j <? S (length bs))%nat = false)
          by (apply Nat.ltb_ge; lia).
        rewrite H2.
        replace (j - length bs)%nat with (S (j - S (length bs))) by lia.
        rewrite Nat2N.inj_succ. apply N.testbit_succ_r.
Qed.

Lemma mapM_map {A B C : Type} (f : B -> result C) (h : A -> B) (g : A -> C)
    (l : list A) :
  (forall a, In a l -> f (h a) = Ok (g a)) ->
  mapM f (map h l) = Ok (map g l).
Proof.
  induction l as [|a l IH]; intros H; simpl; [reflexivity|].
  rewrite (H a) by (left; reflexivity). simpl.
  rewrite IH by (intros b Hb; apply H; right; exact Hb). reflexivity.
Qed.

Lemma rotation_rows (shape : list N) (w : Z) :
  shape_width shape = Ok w -> 1 <= w ->
  rotation shape
  = Ok (map (turned_row shape (Z.to_nat w)) (seq 0 (Z.to_nat w))).
Proof.
  intros Hw H1. unfold rotation. unfold shape_width in Hw. rewrite Hw. simpl.
  assert (Hne : shape <> []) by (intros ->; discriminate).
  assert (Hb : forall layer, In layer shape -> bit_length layer <= w)
    by (apply shape_width_bound; exact Hw).
  unfold zip_star.
  rewrite (min_length_const _ (Z.to_nat w)).
  - apply mapM_map. intros k Hk. apply in_seq in Hk.
    unfold turned_row. rewrite <- int2_bits.
    + f_equal. rewrite <- map_rev, !map_map.
      apply map_ext_in. intros layer Hl. apply in_rev in Hl.
      apply format_b_nth; [apply Hb; exact Hl|exact H1|lia].
    + destruct shape as [|l0 shape]; [congruence|].
      simpl. rewrite map_app. simpl. intros H.
      apply app_eq_nil in H. destruct H as [_ H]. discriminate.
  - destruct shape as [|l0 shape]; [congruence|].
    simpl. intros H. apply app_eq_nil in H. destruct H as [_ H].
    discriminate.
  - apply Forall_forall. intros r Hr. apply list_elem_of_In in Hr.
    apply in_rev, in_map_iff in Hr.
    destruct Hr as (layer & <- & Hl).
    apply format_b_length; [apply Hb; exact Hl|exact H1].
Qed.

Lemma turned_row_testbit (shape : list N) (w k j : nat) :
  N.testbit (turned_row shape w k) (N.of_nat j)
  = if (j <? length shape)%nat
    then N.testbit (nth j shape 0%N) (N.of_nat (w - 1 - k))
    else false.
Proof.
  unfold turned_row. rewrite of_msb_testbit, length_map, length_rev.
  destruct (j <? length shape)%nat eqn:Hj; [|apply N.bits_0].
  apply Nat.ltb_lt in Hj.
  rewrite (nth_indep _ false (N.testbit 0%N (N.of_nat (w - 1 - k))))
    by (rewrite length_map, length_rev; lia).
  rewrite (map_nth (fun layer => N.testbit layer (N.of_nat (w - 1 - k)))).
  rewrite rev_nth by lia. do 2 f_equal. lia.
Qed.

Lemma fold_left_max_le (l : list Z) (x m : Z) :
  x <= m -> (forall y, In y l -> y <= m) -> fold_left Z.max l x <= m.
Proof.
  revert x. induction l as [|a l IH]; intros x Hx Hl; simpl; [exact Hx|].
  apply IH.
  - pose proof (Hl a (or_introl eq_refl)). lia.
  - intros y Hy. apply Hl. right. exact Hy.
Qed.

Lemma py_max_eq (l : list Z) (m : Z) :
  (forall x, In x l -> x <= m) -> In m l -> py_max l = Ok m.
Proof.
  intros Hle Hin. destruct l as [|x l]; [destruct Hin|]. simpl. f_equal.
  apply Z.le_antisymm.
  - apply fold_left_max_le; [apply Hle; left; reflexivity|].
    intros y Hy. apply Hle. right. exact Hy.
  - destruct (fold_left_max_ge l x) as [H1 H2].
    destruct Hin as [<-|Hin]; [exact H1|apply H2; exact Hin].
Qed.

Lemma bit_length_le (x : N) (h : nat) :
  (forall j : nat, (h <= j)%nat -> N.testbit x (N.of_nat j) = false) ->
  bit_length x <= Z.of_nat h.
Proof.
  intros Hhigh. unfold bit_length.
  destruct (N.eq_dec x 0%N) as [->|Hne]; [simpl; lia|].
  rewrite N.size_log2 by exact Hne.
  destruct (Nat.lt_ge_cases (N.to_nat (N.log2 x)) h) as [Hlt|Hge]; [lia|].
  apply Hhigh in Hge. rewrite N2Nat.id, N.bit_log2 in Hge by exact Hne.
  discriminate.
Qed.

(** ** A lock that raises, and a rejected [move_down] *)

Lemma stop_piece_loop_total (shape : list N) :
  forall (b : list N) (r : Z),
    - len b <= r -> exists merged, _stop_piece_loop b r shape = Ok merged.
Proof.
  induction shape as [|layer shape IH]; intros b r Hr; simpl;
    [exists b; reflexivity|].
  destruct (r <? len b) eqn:Hlt.
  - apply Z.ltb_lt in Hlt. unfold getitem, setitem, py_index. fold (len b).
    destruct ((0 <=? r) && (r <? len b)) eqn:H1.
    + cbn [bind]. apply andb_true_iff in H1. destruct H1 as (H0 & _).
      apply Z.leb_le in H0.
      destruct (lookup_lt_is_Some_2 b (Z.to_nat r)) as (x & Hx);
        [unfold len in Hlt; lia|].
      rewrite Hx. cbn [bind]. apply IH.
      unfold len in *. rewrite length_insert. lia.
    + assert (H2 : (- len b <=? r) && (r <? 0) = true).
      { apply andb_false_iff in H1. apply andb_true_iff.
        split; [apply Z.leb_le; exact Hr|]. apply Z.ltb_lt.
        destruct H1 as [H1|H1]; [apply Z.leb_gt in H1; exact H1|].
        apply Z.ltb_ge in H1. lia. }
      rewrite H2. cbn [bind].
      apply andb_true_iff in H2. destruct H2 as (_ & H0). apply Z.ltb_lt in H0.
      destruct (lookup_lt_is_Some_2 b (Z.to_nat (len b + r))) as (x & Hx);
        [unfold len in *; lia|].
      rewrite Hx. cbn [bind]. apply IH.
      unfold len in *. rewrite length_insert. lia.
  - apply IH. unfold len in *. rewrite length_app. simpl. lia.
Qed.

(** The merge loop raises only at its first layer, before it has changed
    any row: [IndexError], when the anchor row is below [- len b]. *)
Lemma stop_piece_loop_Raise (shape : list N) (b : list N) (r : Z) (e : exn) :
  _stop_piece_loop b r shape = Raise e -> e = IndexError /\ r < - len b.
Proof.
  intros H. destruct (Z.lt_ge_cases r (- len b)) as [Hlt|Hge].
  - split; [|exact Hlt]. destruct shape as [|layer shape]; [discriminate|].
    simpl in H. replace (r <? len b) with true in H
      by (symmetry; apply Z.ltb_lt; unfold len in *; lia).
    unfold getitem, py_index in H. fold (len b) in H.
    replace ((0 <=? r) && (r <? len b)) with false in H
      by (symmetry; apply andb_false_iff; left; apply Z.leb_gt;
          unfold len in *; lia).
    replace ((- len b <=? r) && (r <? 0)) with false in H
      by (symmetry; apply andb_false_iff; left; apply Z.leb_gt; exact Hlt).
    cbn [bind] in H. injection H as <-. reflexivity.
  - destruct (stop_piece_loop_total shape b r) as (m & Hm); [lia|].
    rewrite Hm in H. discriminate.
Qed.

Lemma mapM_py_shl_Raise (shape : list N) (n : Z) (e : exn) :
  mapM (fun layer => py_shl layer n) shape = Raise e ->
  e = ValueError /\ n < 0.
Proof.
  intros H. destruct (Z.lt_ge_cases n 0) as [Hlt|Hge].
  - split; [|exact Hlt]. destruct shape as [|layer shape]; [discriminate|].
    simpl in H. unfold py_shl in H.
    replace (n <? 0) with true in H by (symmetry; apply Z.ltb_lt; exact Hlt).
    cbn [bind] in H. injection H as <-. reflexivity.
  - rewrite mapM_py_shl in H by lia. discriminate.
Qed.

(** [_stop_piece] raises only at its first step, before any assignment:
    [ValueError] from [get_bits] when the anchor column is less than the
    width of the piece, or [IndexError] from the first board row it reads. *)
Lemma stop_piece_Raise (s : Tetris) (p : Piece) (choice : list N) (e : exn) :
  current_piece s = Some p -> In choice SHAPES_values ->
  _stop_piece s choice = Raise e ->
  (e = ValueError /\ col (loc p) < get_width p) \/
  (e = IndexError /\ get_width p <= col (loc p) /\
   row (loc p) < - len (board s)).
Proof.
  intros Hp Hin H. unfold _stop_piece, the_piece in H. rewrite Hp in H.
  cbn [bind] in H.
  destruct (get_bits p) as [bits|e1] eqn:Hbits; cbn [bind] in H.
  - destruct (_stop_piece_loop (board s) (row (loc p)) bits) as [m|e2] eqn:Hl;
      cbn [bind] in H.
    + exfalso. unfold _next_piece in H.
      destruct (add_piece_current (_clear_rows (set_board s m)) choice Hin)
        as (pn & s2 & _ & Hadd & _).
      rewrite Hadd in H. discriminate.
    + injection H as <-.
      destruct (stop_piece_loop_Raise bits (board s) (row (loc p)) e2 Hl)
        as (He & Hr).
      right. split; [exact He|]. split; [|exact Hr].
      destruct (Z.lt_ge_cases (col (loc p)) (get_width p)) as [Hlt|Hge];
        [|exact Hge].
      exfalso. unfold get_bits in Hbits.
      destruct (dget (shapes p) (rot p)) as [|layer shape] eqn:Hsh.
      * simpl in Hbits. injection Hbits as <-. discriminate.
      * simpl in Hbits. unfold py_shl in Hbits.
        replace (col (loc p) - get_width p <? 0) with true in Hbits
          by (symmetry; apply Z.ltb_lt; lia).
        discriminate.
  - injection H as <-. unfold get_bits in Hbits.
    apply mapM_py_shl_Raise in Hbits. destruct Hbits as (He & Hn).
    left. split; [exact He|lia].
Qed.

(** A [move_down] whose tentative placement does not fit takes the
    translation back, which gives the state [s] again, and then is the lock
    of [s]. *)
Lemma move_down_reverts (s : Tetris) (p : Piece) (choice : list N) :
  current_piece s = Some p -> ~ fits s (moved p (-1) 0) ->
  (exists s1 : Tetris,
      move_piece s (-1) 0 = Ok s1 /\
      current_piece s1 = Some (moved p (-1) 0) /\
      piece_en_cours s1 = Ok false /\
      move_piece s1 1 0 = Ok s) /\
  move_down s choice = (s' <- _stop_piece s choice ;; Ok (false, s')).
Proof.
  intros Hp Hnf. split.
  - exists (set_current_piece s (Some (moved p (-1) 0))).
    split; [unfold move_piece, the_piece; rewrite Hp; reflexivity|].
    split; [reflexivity|]. split.
    + destruct (tentative_spec s (moved p (-1) 0)) as ([|] & Hv & Hiff);
        [|exact Hv].
      exfalso. apply Hnf. apply Hiff. reflexivity.
    + unfold move_piece, the_piece. simpl.
      rewrite moved_back by reflexivity.
      rewrite set_current_piece_same by exact Hp. reflexivity.
  - destruct (move_down_spec s p choice Hp) as ([|] & Hiff & Hm);
      [|exact Hm].
    exfalso. apply Hnf. apply Hiff. reflexivity.
Qed.

(** What a completed lock has done with the piece. *)
Lemma stop_piece_locks (s s' : Tetris) (p : Piece) (choice : list N) :
  Sound s -> current_piece s = Some p -> In choice SHAPES_values ->
  ~ fits s (moved p (-1) 0) ->
  _stop_piece s choice = Ok s' ->
  exists (merged : list N) (pn : Piece),
    get_bits p = Ok (bits_of p) /\
    _stop_piece_loop (board s) (row (loc p)) (bits_of p) = Ok merged /\
    board s' = List.filter (fun layer => negb (layer =? FULL_ROW s)%N) merged /\
    (0 <= row (loc p) ->
     forall r c : Z, occupied p r c -> locked merged r c) /\
    Piece_init (mkLoc (height s - Z.of_nat (length choice)) (width s / 2))
               choice = Ok pn /\
    current_piece s' = Some pn.
Proof.
  intros HS Hp Hin Hnf Hstop.
  destruct (sound_piece s HS) as (q & Hq & Hwf).
  rewrite Hp in Hq. injection Hq as <-.
  destruct (stop_piece_inversion s s' p choice Hp Hin Hstop)
    as (bits & merged & Hbits & Hloop & Hb).
  assert (Hw : 0 <= col (loc p) - get_width p).
  { apply (mapM_py_shl_Ok (dget (shapes p) (rot p)) bits); [|exact Hbits].
    intros Hnil. pose proof (wf_piece_tables p Hwf (rot p)) as Ht.
    rewrite Hnil in Ht. discriminate. }
  rewrite (get_bits_ok p Hw) in Hbits. injection Hbits as <-.
  assert (Hrow : row (loc p) <= len (board s))
    by (apply rejected_down_row;
        [apply (sound_col s HS); exact Hp|exact Hw|exact Hnf]).
  rewrite (stop_piece_unfold s p (bits_of p) merged choice Hp
             (get_bits_ok p Hw) Hloop) in Hstop.
  unfold _next_piece in Hstop.
  destruct (add_piece_current (_clear_rows (set_board s merged)) choice Hin)
    as (pn & s2 & Hpn & Hadd & Hcur & _).
  rewrite Hadd in Hstop. cbn [bind] in Hstop. injection Hstop as <-.
  exists merged, pn. split; [exact (get_bits_ok p Hw)|]. split; [exact Hloop|].
  split; [exact Hb|]. split; [|split; [exact Hpn|exact Hcur]].
  intros H0 r c (i & layer & Hl & Hr & Hc & Hbit).
  pose proof (stop_piece_loop_Ok_stacked _ _ _ _ Hrow Hloop) as Hst.
  destruct (stacked_rows _ _ _ _ Hst (conj H0 Hrow)) as (_ & Hrows & _).
  assert (Hbi : bits_of p !! i
                = Some (N.shiftl layer (Z.to_N (col (loc p) - get_width p))))
    by (rewrite bits_of_lookup, Hl; reflexivity).
  specialize (Hrows i _ Hbi).
  split; [lia|]. split; [lia|].
  eexists. split.
  - replace (Z.to_nat r) with (Z.to_nat (row (loc p)) + i)%nat by lia.
    exact Hrows.
  - rewrite N.lor_spec, N.shiftl_spec_high' by lia.
    replace (Z.to_N c - Z.to_N (col (loc p) - get_width p))%N
      with (Z.to_N (c - (col (loc p) - get_width p))) by lia.
    rewrite Hbit. apply orb_true_r.
Qed.

Lemma narrow_state_init : Tetris_init None 20 2 0 [2; 7]%N = Ok narrow_state.
Proof. vm_compute. reflexivity. Qed.

Lemma tee_in_SHAPES : In [2; 7]%N SHAPES_values.
Proof. unfold SHAPES_values, SHAPES. simpl. tauto. Qed.

Lemma narrow_state_reachable : reachable narrow_state.
Proof.
  apply (reach_init 20 2 0 [2; 7]%N);
    [lia|exact tee_in_SHAPES|exact narrow_state_init].
Qed.

(** * The claims *)

(** C1.  [get_height] does not return the row count of the current
    variant: it reads the [widths] table.  For the line shape in its base
    rotation the variant has 4 rows, the [heights] table built by the
    constructor holds 4, and [get_height] returns 1. *)
Theorem get_height_line_piece :
  exists p : Piece,
    Piece_init (mkLoc 16 5) [1; 1; 1; 1]%N = Ok p /\
    Z.of_nat (length (dget (shapes p) (rot p))) = 4 /\
    dget (heights p) (rot p) = 4 /\
    get_height p = 1.
Proof.
  eexists. split; [vm_compute; reflexivity|].
  split; [reflexivity|]. split; reflexivity.
Qed.

(** C2.  In every reachable Playing state, a move or a rotation whose
    tentative placement violates the placement invariant leaves the piece
    with its position and its rotation.  [move_left], [move_right],
    [rot_right] and [rot_left] return the whole state unchanged.
    [move_down] takes the translation back, which gives the state of before
    the call again, and then is the lock of that state: the lock reads the
    piece at its unchanged anchor and in its unchanged rotation.  When the
    call returns, it returns [False], the layers of the piece have been
    merged from its anchor row on (every cell the piece covered is a locked
    cell of the merged rows when the anchor row is not negative), and
    [current_piece] holds the piece that was spawned next.  On a board of
    at least 4 rows and 6 columns the call returns.  On a smaller board the
    lock can raise, at its first step and before any assignment:
    [ValueError] when the anchor column is less than the width of the
    piece, [IndexError] when the anchor row is below [- len(board)]. *)
Theorem rejected_moves_keep_piece (s : Tetris) (p : Piece) :
  reachable s -> game_over s = false -> current_piece s = Some p ->
  (violates s (moved p 0 1) -> move_left s = Ok s) /\
  (violates s (moved p 0 (-1)) -> move_right s = Ok s) /\
  (forall p', Piece_rot_right p = Ok p' -> violates s p' -> rot_right s = Ok s) /\
  (forall p', Piece_rot_left p = Ok p' -> violates s p' -> rot_left s = Ok s) /\
  (forall choice,
     In choice SHAPES_values ->
     violates s (moved p (-1) 0) ->
     (exists s1 : Tetris,
         move_piece s (-1) 0 = Ok s1 /\
         current_piece s1 = Some (moved p (-1) 0) /\
         piece_en_cours s1 = Ok false /\
         move_piece s1 1 0 = Ok s) /\
     move_down s choice = (s' <- _stop_piece s choice ;; Ok (false, s')) /\
     (forall (v : bool) (s' : Tetris),
         move_down s choice = Ok (v, s') ->
         v = false /\ _stop_piece s choice = Ok s' /\
         exists (merged : list N) (pn : Piece),
           get_bits p = Ok (bits_of p) /\
           _stop_piece_loop (board s) (row (loc p)) (bits_of p) = Ok merged /\
           board s'
           = List.filter (fun layer => negb (layer =? FULL_ROW s)%N) merged /\
           (0 <= row (loc p) ->
            forall r c : Z, occupied p r c -> locked merged r c) /\
           Piece_init (mkLoc (height s - Z.of_nat (length choice))
                             (width s / 2)) choice = Ok pn /\
           current_piece s' = Some pn) /\
     (forall e : exn,
         move_down s choice = Raise e ->
         _stop_piece s choice = Raise e /\
         ((e = ValueError /\ col (loc p) < get_width p) \/
          (e = IndexError /\ get_width p <= col (loc p) /\
           row (loc p) < - len (board s)))) /\
     (4 <= height s -> 6 <= width s ->
      exists s' : Tetris, move_down s choice = Ok (false, s'))).
Proof.
  intros Hr _ Hp. pose proof (reachable_Sound s Hr) as HS.
  destruct (sound_piece s HS) as (q & Hq & Hwf).
  rewrite Hp in Hq. injection Hq as <-.
  assert (Ht : tables_ok p) by (apply wf_piece_tables; exact Hwf).
  split; [|split; [|split; [|split]]].
  - intros Hv. destruct (move_left_spec s p Hp) as (v & Hiff & Hm).
    rewrite (violates_rejected s (moved p 0 1) v Ht Hv Hiff) in Hm. exact Hm.
  - intros Hv. destruct (move_right_spec s p Hp) as (v & Hiff & Hm).
    rewrite (violates_rejected s (moved p 0 (-1)) v Ht Hv Hiff) in Hm.
    exact Hm.
  - intros p' Hp' Hv. rewrite Piece_rot_right_ok in Hp'. injection Hp' as <-.
    destruct (rot_right_spec s p Hp) as (v & Hiff & Hm).
    rewrite (violates_rejected s (set_rot p (next_dir (rot p))) v Ht Hv Hiff)
      in Hm.
    exact Hm.
  - intros p' Hp' Hv. rewrite Piece_rot_left_ok in Hp'. injection Hp' as <-.
    destruct (rot_left_spec s p Hp) as (v & Hiff & Hm).
    rewrite (violates_rejected s (set_rot p (prev_dir (rot p))) v Ht Hv Hiff)
      in Hm.
    exact Hm.
  - intros choice Hin Hv.
    assert (Hnf : ~ fits s (moved p (-1) 0)).
    { intros Hf.
      pose proof (violates_rejected s (moved p (-1) 0) true Ht Hv
                    (conj (fun _ => Hf) (fun _ => eq_refl))) as H.
      discriminate. }
    destruct (move_down_reverts s p choice Hp Hnf) as (Hrev & Hmd).
    split; [exact Hrev|]. split; [exact Hmd|]. split; [|split].
    + intros v s' Hok. rewrite Hmd in Hok. apply bind_Ok in Hok.
      destruct Hok as (s2 & Hstop & Hret). injection Hret as <- <-.
      split; [reflexivity|]. split; [exact Hstop|].
      exact (stop_piece_locks s s2 p choice HS Hp Hin Hnf Hstop).
    + intros e He. rewrite Hmd in He.
      destruct (_stop_piece s choice) as [s2|e2] eqn:Hstop;
        cbn [bind] in He; [discriminate|].
      injection He as <-. split; [reflexivity|].
      exact (stop_piece_Raise s p choice e2 Hp Hin Hstop).
    + intros Hh Hw. pose proof (reachable_Inv s Hr Hh Hw) as HI.
      destruct (move_down_Inv s choice HI Hin) as (v & s' & Hmd' & _).
      exists s'. rewrite Hmd in Hmd'. apply bind_Ok in Hmd'.
      destruct Hmd' as (s2 & Hstop & Hret). injection Hret as <- <-.
      rewrite Hmd, Hstop. reflexivity.
Qed.

Lemma rejected_moves_keep_piece_witness :
  exists s' : Tetris, move_down floor_state [3; 3]%N = Ok (false, s').
Proof.
  refine (proj2 (proj2 (proj2 (proj2
            (proj2 (proj2 (proj2 (proj2
               (rejected_moves_keep_piece floor_state (square_at 0 5)
                  floor_state_reachable eq_refl eq_refl))))
               [3; 3]%N square_in_SHAPES _))))
            ltac:(simpl; lia) ltac:(simpl; lia)).
  exists (-1), 3. split.
  - exists 0%nat, 3%N. repeat split; try reflexivity; vm_compute; discriminate.
  - right. right. right. lia.
Defined.

(** C3.  For every lock: when merging the rows of the current piece into
    the board gives the rows [merged], of which exactly [k] equal the
    full-row mask, then [_stop_piece] returns, the cleared-line count has
    grown by exactly [k], and the board is [merged] without its [k] full
    rows: the other rows, all of them, in their bottom-up order. *)
Theorem lock_clears_full_rows (s : Tetris) (p : Piece) (bits merged : list N)
    (choice : list N) (k : nat) :
  current_piece s = Some p ->
  get_bits p = Ok bits ->
  _stop_piece_loop (board s) (row (loc p)) bits = Ok merged ->
  In choice SHAPES_values ->
  count_occ N.eq_dec merged (FULL_ROW s) = k ->
  exists s' : Tetris,
    _stop_piece s choice = Ok s' /\
    cleared_lines s' = cleared_lines s + Z.of_nat k /\
    board s' = List.filter (fun layer => negb (layer =? FULL_ROW s)%N) merged /\
    (length (board s') + k)%nat = length merged /\
    (forall x, In x (board s') <-> In x merged /\ x <> FULL_ROW s) /\
    sublist (board s') merged.
Proof.
  intros Hp Hbits Hloop Hin Hk.
  destruct (add_piece_current (_clear_rows (set_board s merged)) choice Hin)
    as (pn & s2 & _ & Hadd & _ & _ & _ & Hb & _ & _ & _ & _ & Hcl & _).
  exists (set_can_hold s2 (Some true)). split.
  { rewrite (stop_piece_unfold s p bits merged choice Hp Hbits Hloop).
    unfold _next_piece. rewrite Hadd. reflexivity. }
  simpl. rewrite Hb, Hcl, clear_rows_board, clear_rows_count. simpl.
  rewrite Hk. split; [reflexivity|]. split; [reflexivity|].
  split; [rewrite (filter_count (FULL_ROW s) merged), Hk; reflexivity|].
  split; [intros x; apply filter_keeps|apply filter_sublist].
Qed.

Lemma lock_clears_full_rows_witness :
  exists s' : Tetris,
    _stop_piece gap_state [3; 3]%N = Ok s' /\
    cleared_lines s' = 1 /\ board s' = [24]%N.
Proof.
  destruct (lock_clears_full_rows gap_state (square_at 0 5) [24; 24]%N
              [1023; 24]%N [3; 3]%N 1%nat eq_refl eq_refl eq_refl
              square_in_SHAPES eq_refl)
    as (s' & Hstop & Hcl & Hb & _).
  exists s'. split; [exact Hstop|]. split; [exact Hcl|exact Hb].
Defined.

(** C4.  The full-row mask of a board of width [w] is [2^w - 1];
    [_clear_rows] removes a stored row exactly when it equals the mask; and
    in every state of a session the mask is [2^width - 1] and no stored
    row equals it. *)
Theorem full_row_mask :
  (forall (old : option bool) (h w lvl : Z) (c : list N) (s : Tetris),
      0 <= w -> Tetris_init old h w lvl c = Ok s ->
      Z.of_N (FULL_ROW s) = 2 ^ w - 1) /\
  (forall (s : Tetris) (x : N),
      In x (board s) ->
      (~ In x (board (_clear_rows s)) <-> x = FULL_ROW s)) /\
  (forall s : Tetris,
      reachable s ->
      Z.of_N (FULL_ROW s) = 2 ^ width s - 1 /\
      forall x, In x (board s) -> x <> FULL_ROW s).
Proof.
  assert (Hpow : forall w, 0 <= w ->
            Z.of_N (2 ^ Z.to_N w - 1)%N = 2 ^ w - 1).
  { intros w Hw.
    assert (0 < 2 ^ Z.to_N w)%N by (apply N.neq_0_lt_0, N.pow_nonzero; lia).
    rewrite N2Z.inj_sub by lia. rewrite N2Z.inj_pow, Z2N.id by exact Hw.
    reflexivity. }
  split; [|split].
  - intros old h w lvl c s Hw Hinit. unfold Tetris_init in Hinit.
    apply bind_Ok in Hinit. destruct Hinit as (s1 & Hnext & [= <-]).
    unfold _next_piece, _add_piece in Hnext.
    apply bind_Ok in Hnext. destruct Hnext as (pn & _ & Hnext).
    apply bind_Ok in Hnext. destruct Hnext as (ok & _ & Hnext).
    destruct ok; simpl in Hnext; injection Hnext as <-; simpl;
      apply Hpow; exact Hw.
  - intros s x Hx. rewrite clear_rows_board, filter_keeps. split.
    + intros Hno. destruct (N.eq_dec x (FULL_ROW s)) as [H|H]; [exact H|].
      exfalso. apply Hno. split; assumption.
    + intros -> [_ H]. apply H. reflexivity.
  - intros s Hr. destruct (reachable_Sound s Hr) as [[H1 H2 H3 H4] _ _ _].
    split.
    + rewrite H2. apply Hpow. exact H1.
    + intros x Hx. rewrite Forall_forall in H3. apply H3.
      apply list_elem_of_In. exact Hx.
Qed.

Lemma full_row_mask_witness :
  Z.of_N (FULL_ROW floor_state_locked) = 2 ^ 10 - 1 /\
  forall x, In x (board floor_state_locked) -> x <> 1023%N.
Proof.
  exact (proj2 (proj2 full_row_mask) floor_state_locked
               floor_state_locked_reachable).
Defined.

(** C5.  Every spawn of a shape of the table makes the current piece a
    new piece in rotation state [N], anchored at column [width // 2] and at
    row [height] minus the height (row count) of the shape.  It sets the
    game-over flag exactly when that piece violates the placement invariant
    (a covered cell out of bounds or on a locked cell), and otherwise
    leaves the flag as it was; the piece stays the current piece in both
    cases and the rest of the state is untouched. *)
Theorem spawn_places_piece (s : Tetris) (shape : list N) :
  In shape SHAPES_values ->
  exists (p : Piece) (s' : Tetris),
    _add_piece s shape = Ok s' /\
    _next_piece s shape = Ok s' /\
    current_piece s' = Some p /\
    rot p = N_ /\
    dget (shapes p) (rot p) = shape /\
    dget (heights p) (rot p) = Z.of_nat (length shape) /\
    col (loc p) = width s / 2 /\
    row (loc p) = height s - dget (heights p) (rot p) /\
    (placement_ok s' p -> game_over s' = game_over s) /\
    (~ placement_ok s' p -> game_over s' = true) /\
    board s' = board s /\ hold_piece s' = hold_piece s /\
    cleared_lines s' = cleared_lines s /\ can_hold s' = can_hold s.
Proof.
  intros Hin.
  destruct (add_piece_current s shape Hin)
    as (p & s' & Hp & Hadd & Hcur & Hfit & Hno & Hb & Hw & Hh & _ & Hhp & Hcl & Hch).
  destruct (Piece_init_fields _ _ _ Hp) as (Hl & Hr & Hs & Hhs & Ht).
  destruct (Piece_init_SHAPES (loc p) shape Hin) as (p' & Hp' & _ & _ & Hsnug).
  rewrite Hl, Hp in Hp'. injection Hp' as <-.
  exists p, s'. split; [exact Hadd|]. split; [exact Hadd|].
  split; [exact Hcur|]. split; [exact Hr|]. rewrite Hr.
  split; [exact Hs|]. split; [exact Hhs|]. rewrite Hl, Hhs. simpl.
  split; [reflexivity|]. split; [reflexivity|].
  assert (Hiff : placement_ok s' p <-> fits s p).
  { split.
    - intros Hok. apply (placement_ok_fits s p).
      + unfold get_width. rewrite Hr. simpl in Hs. simpl. rewrite Hs.
        exact Hsnug.
      + intros r c Hocc. destruct (Hok r c Hocc) as (H1 & H2 & H3).
        rewrite Hw in H1. rewrite Hb in H3. repeat split; assumption || lia.
    - intros Hf r c Hocc.
      destruct (fits_placement_ok s p Ht Hf r c Hocc) as (H1 & H2 & H3).
      rewrite Hw, Hb. repeat split; assumption || lia. }
  split; [intros H; apply Hfit, Hiff, H|].
  split; [intros H; apply Hno; intros Hf; apply H, Hiff, Hf|].
  repeat split; assumption.
Qed.

Lemma spawn_places_piece_witness :
  exists (p : Piece) (s' : Tetris),
    _add_piece floor_state_locked [1; 1; 1; 1]%N = Ok s' /\
    current_piece s' = Some p /\ rot p = N_ /\
    col (loc p) = 5 /\ row (loc p) = 16.
Proof.
  destruct (spawn_places_piece floor_state_locked [1; 1; 1; 1]%N
              ltac:(right; left; reflexivity))
    as (p & s' & Hadd & _ & Hcur & Hrot & _ & Hh & Hc & Hr & _).
  exists p, s'. split; [exact Hadd|]. split; [exact Hcur|].
  split; [exact Hrot|]. split; [exact Hc|]. rewrite Hr, Hh. reflexivity.
Defined.

(** C6.  In every state of a session in which a piece is held, [hold]
    returns, and a second [hold] right after it changes nothing at all:
    neither the current piece, nor the held piece, nor the board.  The first
    call swaps when hold is available (the piece that was current becomes
    the held one, and the held shape is spawned) and changes nothing when
    it is not.  Every lock leaves [can_hold] true. *)
Theorem hold_twice :
  (forall (s : Tetris) (hp : Piece) (c1 c2 : list N),
      reachable s -> hold_piece s = Some hp ->
      In c1 SHAPES_values -> In c2 SHAPES_values ->
      exists s1 : Tetris,
        hold s c1 = Ok s1 /\
        hold s1 c2 = Ok s1 /\
        (can_hold s = Some true \/ can_hold s = Some false) /\
        (can_hold s = Some true ->
         exists pn : Piece,
           Piece_init (mkLoc (height s
                              - Z.of_nat (length (dget (shapes hp) N_)))
                             (width s / 2))
                      (dget (shapes hp) N_) = Ok pn /\
           current_piece s1 = Some pn /\
           hold_piece s1 = current_piece s /\
           board s1 = board s /\
           can_hold s1 = Some false) /\
        (can_hold s = Some false -> s1 = s)) /\
  (forall (s : Tetris) (c : list N) (s' : Tetris),
      _stop_piece s c = Ok s' -> can_hold s' = Some true).
Proof.
  split.
  - intros s hp c1 c2 Hr Hhp Hc1 Hc2.
    pose proof (reachable_Sound s Hr) as HS.
    destruct (sound_piece s HS) as (p & Hp & Hwf).
    pose proof (sound_flag s HS) as Hf.
    destruct (hold_cases s c1 HS Hc1)
      as (s1 & Hh1 & HS1 & Hch1 & Hb1 & _ & _ & Hcase).
    exists s1. split; [exact Hh1|].
    rewrite Hhp in Hcase.
    assert (Hheld : exists q, hold_piece s1 = Some q).
    { destruct (can_hold s) as [[|]|].
      - exists p. rewrite <- Hp. apply Hcase.
      - subst s1. exists hp. exact Hhp.
      - exists p. rewrite <- Hp. apply Hcase. }
    destruct Hheld as (q & Hq).
    split.
    { destruct (hold_cases s1 c2 HS1 Hc2)
        as (s2 & Hh2 & _ & _ & _ & _ & _ & Hc).
      rewrite Hq, Hch1 in Hc. rewrite Hh2, Hc. reflexivity. }
    destruct (can_hold s) as [[|]|] eqn:Hch.
    + split; [left; reflexivity|]. split; [|discriminate].
      intros _. destruct Hcase as (Hh & Hbase & s1' & Hadd & ->).
      destruct (add_piece_current (set_hold_piece s (current_piece s))
                  (dget (shapes hp) N_) Hbase)
        as (pn & s2 & Hpn & Hadd2 & Hcur & _ & _ & Hb & _).
      rewrite Hadd in Hadd2. injection Hadd2 as <-.
      exists pn. split; [exact Hpn|]. split; [exact Hcur|].
      split; [exact Hh|]. split; [exact Hb|reflexivity].
    + split; [right; reflexivity|]. split; [discriminate|].
      intros _. exact Hcase.
    + exfalso. apply Hf; [rewrite Hhp; discriminate|exact Hch].
  - intros s c s' Hstop. exact (stop_piece_can_hold s s' c Hstop).
Qed.

Lemma hold_twice_witness :
  exists s1 : Tetris,
    hold held_state [3; 3]%N = Ok s1 /\
    hold s1 [1; 1; 1; 1]%N = Ok s1 /\
    hold_piece s1 = current_piece held_state.
Proof.
  destruct (proj1 hold_twice held_state (square_at 18 5)
              [3; 3]%N [1; 1; 1; 1]%N held_state_reachable eq_refl
              square_in_SHAPES ltac:(right; left; reflexivity))
    as (s1 & H1 & H2 & _ & Hswap & _).
  exists s1. split; [exact H1|]. split; [exact H2|].
  destruct (Hswap eq_refl) as (pn & _ & _ & Hh & _). exact Hh.
Defined.

(** C7, as the specification words it, fails on the two-row shape whose
    top row is empty: its rotation is the single row [1], of width 1, not
    2. *)
Lemma rotation_flat_top : ~ rotation_swaps_dimensions [1; 0]%N.
Proof.
  intros (r & w & _ & Hr & _ & Hwr).
  vm_compute in Hr. injection Hr as <-. vm_compute in Hwr. discriminate.
Qed.

(** C7, amended.  For every row-bitmask sequence [shape] of height [h] and
    width [w] with at least one occupied cell ([1 <= w]), [rotation]
    returns a sequence of height [w] that is [shape] turned by a quarter
    turn: the cell in row [j] and bit [c] of [shape] is the cell in row
    [w - 1 - c] and bit [j] of the result, and the result has no bit at or
    above position [h].  When the last row of [shape] is not empty, the
    width of the result is [h]. *)
Theorem rotation_quarter_turn (shape : list N) (w : Z) :
  shape_width shape = Ok w -> 1 <= w ->
  exists r : list N,
    rotation shape = Ok r /\
    Z.of_nat (length r) = w /\
    (forall (j k : nat) (layer : N),
        shape !! j = Some layer -> (k < length r)%nat ->
        exists x : N,
          r !! k = Some x /\
          N.testbit x (N.of_nat j)
          = N.testbit layer (N.of_nat (length r - 1 - k))) /\
    (forall (k : nat) (x : N) (j : nat),
        r !! k = Some x -> (length shape <= j)%nat ->
        N.testbit x (N.of_nat j) = false) /\
    (forall top : N,
        shape !! (length shape - 1)%nat = Some top -> top <> 0%N ->
        shape_width r = Ok (Z.of_nat (length shape))).
Proof.
  intros Hw H1. set (W := Z.to_nat w).
  exists (map (turned_row shape W) (seq 0 W)).
  assert (Hlen : length (map (turned_row shape W) (seq 0 W)) = W)
    by (rewrite length_map, length_seq; reflexivity).
  assert (Hrow : forall k, (k < W)%nat ->
            map (turned_row shape W) (seq 0 W) !! k
            = Some (turned_row shape W k)).
  { intros k Hk. rewrite list_lookup_fmap, lookup_seq_lt by exact Hk.
    reflexivity. }
  assert (Hhigh : forall k j, (length shape <= j)%nat ->
            N.testbit (turned_row shape W k) (N.of_nat j) = false).
  { intros k j Hj. rewrite turned_row_testbit.
    apply Nat.ltb_ge in Hj. rewrite Hj. reflexivity. }
  split; [apply rotation_rows; assumption|]. rewrite Hlen.
  split; [unfold W; lia|]. split; [|split].
  - intros j k layer Hj Hk. exists (turned_row shape W k).
    split; [apply Hrow; exact Hk|].
    rewrite turned_row_testbit.
    pose proof (lookup_lt_Some _ _ _ Hj) as Hjlt.
    apply Nat.ltb_lt in Hjlt. rewrite Hjlt.
    rewrite (nth_lookup_Some _ _ _ _ Hj). reflexivity.
  - intros k x j Hx Hj.
    pose proof (lookup_lt_Some _ _ _ Hx) as Hk. rewrite Hlen in Hk.
    rewrite Hrow in Hx by exact Hk. injection Hx as <-.
    apply Hhigh. exact Hj.
  - intros top Htop Hne.
    pose proof (lookup_lt_Some _ _ _ Htop) as Hh.
    assert (Hbit : N.testbit top (N.log2 top) = true)
      by (apply N.bit_log2; exact Hne).
    assert (Hc : Z.of_N (N.log2 top) < w).
    { pose proof (testbit_bit_length _ _ Hbit).
      pose proof (shape_width_bound shape w Hw top) as Hb.
      assert (In top shape)
        by (apply list_elem_of_In; eapply list_elem_of_lookup_2; exact Htop).
      specialize (Hb H0). lia. }
    set (c := N.to_nat (N.log2 top)) in *.
    unfold shape_width. apply py_max_eq.
    + intros x Hx. apply in_map_iff in Hx. destruct Hx as (y & <- & Hy).
      apply in_map_iff in Hy. destruct Hy as (k & <- & _).
      apply bit_length_le. intros j Hj. apply Hhigh. exact Hj.
    + apply in_map_iff. exists (turned_row shape W (W - 1 - c)). split.
      * apply Z.le_antisymm.
        -- apply bit_length_le. intros j Hj. apply Hhigh. exact Hj.
        -- assert (Ht : N.testbit (turned_row shape W (W - 1 - c))
                                  (N.of_nat (length shape - 1)) = true).
           { rewrite turned_row_testbit.
             assert (Hlt : (length shape - 1 <? length shape)%nat = true)
               by (apply Nat.ltb_lt; lia).
             rewrite Hlt, (nth_lookup_Some _ _ _ _ Htop).
             replace (W - 1 - (W - 1 - c))%nat with c by (unfold W, c; lia).
             unfold c. rewrite N2Nat.id. exact Hbit. }
           apply testbit_bit_length in Ht. lia.
      * apply in_map. apply in_seq. unfold W, c. lia.
Qed.

Lemma rotation_quarter_turn_witness :
  exists r : list N,
    rotation [3; 1; 1]%N = Ok r /\ Z.of_nat (length r) = 2 /\
    shape_width r = Ok 3.
Proof.
  destruct (rotation_quarter_turn [3; 1; 1]%N 2 eq_refl ltac:(lia))
    as (r & Hr & Hlen & _ & _ & Htop).
  exists r. split; [exact Hr|]. split; [exact Hlen|].
  apply (Htop 1%N); [reflexivity|discriminate].
Defined.

(** C8.  For every piece, four calls of [Piece.rot_right] give back the
    piece: the same rotation state and the same occupancy pattern
    ([get_bits]); and [Piece.rot_left] undoes [Piece.rot_right] and the
    other way round, so the four rotation states form a cycle. *)
Theorem rot_right_four_times (p : Piece) :
  (p1 <- Piece_rot_right p ;; p2 <- Piece_rot_right p1 ;;
   p3 <- Piece_rot_right p2 ;; p4 <- Piece_rot_right p3 ;;
   Ok (p4, rot p4, get_bits p4))
  = Ok (p, rot p, get_bits p) /\
  (p1 <- Piece_rot_right p ;; Piece_rot_left p1) = Ok p /\
  (p1 <- Piece_rot_left p ;; Piece_rot_right p1) = Ok p /\
  (forall d : Dir,
      prev_dir (next_dir d) = d /\ next_dir (prev_dir d) = d /\
      next_dir (next_dir (next_dir (next_dir d))) = d) /\
  Piece_rot_right p = Ok (set_rot p (next_dir (rot p))) /\
  Piece_rot_left p = Ok (set_rot p (prev_dir (rot p))).
Proof.
  split; [|split; [|split; [|split; [|split]]]].
  - destruct p as [sh l d ws hs]. destruct d; reflexivity.
  - destruct p as [sh l d ws hs]. destruct d; reflexivity.
  - destruct p as [sh l d ws hs]. destruct d; reflexivity.
  - intros d. destruct d; repeat split.
  - apply Piece_rot_right_ok.
  - apply Piece_rot_left_ok.
Qed.

(** C9.  From every reachable Playing state the loop of [drop] exits after
    finitely many [move_down] calls: [n] calls return [True], with [n] at
    most the anchor row of the piece, and the next one runs the lock
    ([_stop_piece]) and ends the loop, for every number of iterations above
    [n].  When [drop] returns, that last [move_down] has returned [False]
    and the lock has been performed ([can_hold] is true again); on a board
    of at least 4 rows and 6 columns [drop] always returns, and on a
    smaller one the lock may raise an exception instead.  Every
    [move_down] that returns [True] lowers the anchor row by exactly one
    and leaves it at 0 or above. *)
Theorem drop_terminates (s : Tetris) (choice : list N) :
  reachable s -> game_over s = false -> In choice SHAPES_values ->
  (exists (n : nat) (p p_low : Piece) (s_low : Tetris),
      current_piece s = Some p /\
      Z.of_nat n <= Z.max 0 (row (loc p)) /\
      falls choice s n s_low /\
      current_piece s_low = Some p_low /\
      row (loc p_low) = row (loc p) - Z.of_nat n /\
      (forall fuel : nat, (n < fuel)%nat ->
         drop_loop fuel s choice = Some (_stop_piece s_low choice)) /\
      (forall s' : Tetris,
         _stop_piece s_low choice = Ok s' ->
         move_down s_low choice = Ok (false, s') /\
         can_hold s' = Some true) /\
      (4 <= height s -> 6 <= width s ->
       exists s' : Tetris, _stop_piece s_low choice = Ok s')) /\
  (forall (s1 s2 : Tetris) (p1 : Piece) (c : list N),
      current_piece s1 = Some p1 ->
      move_down s1 c = Ok (true, s2) ->
      exists p2 : Piece,
        current_piece s2 = Some p2 /\
        row (loc p2) = row (loc p1) - 1 /\ 0 <= row (loc p2)).
Proof.
  intros Hr _ Hin. split.
  - destruct (sound_piece s (reachable_Sound s Hr)) as (p & Hp & _).
    destruct (drop_total choice (Z.to_nat (row (loc p))) s p Hp)
      as (n & s_low & p_low & Hn & Hfalls & Hlow & Hrl & Hmd & Hfuel); [lia|].
    exists n, p, p_low, s_low. split; [exact Hp|]. split; [lia|].
    split; [exact Hfalls|]. split; [exact Hlow|]. split; [exact Hrl|].
    split; [exact Hfuel|]. split.
    + intros s' Hstop. rewrite Hmd, Hstop. split; [reflexivity|].
      exact (stop_piece_can_hold s_low s' choice Hstop).
    + intros Hh Hw. pose proof (reachable_Inv s Hr Hh Hw) as HI.
      destruct (inv_piece s HI) as (q & Hq & (Hrow & _)).
      rewrite Hp in Hq. injection Hq as <-.
      destruct (drop_descends choice Hin (Z.to_nat (row (loc p))) s p HI Hp)
        as (n' & _ & s' & _ & _ & _ & _ & _ & _ & _ & _ & Hfuel'); [lia|].
      exists s'.
      pose proof (Hfuel (S (n + n')) ltac:(lia)) as H1.
      pose proof (Hfuel' (S (n + n')) ltac:(lia)) as H2.
      rewrite H1 in H2. injection H2 as H2. exact H2.
  - intros s1 s2 p1 c Hp1 Hmd.
    destruct (move_down_true_row s1 s2 p1 c Hp1 Hmd) as (p2 & H1 & H2 & H3 & _).
    exists p2. repeat split; assumption.
Qed.

Lemma drop_terminates_witness :
  exists s' : Tetris,
    drop_loop 20 floor_state_locked [3; 3]%N = Some (Ok s') /\
    can_hold s' = Some true.
Proof.
  destruct (proj1 (drop_terminates floor_state_locked [3; 3]%N
                     floor_state_locked_reachable eq_refl square_in_SHAPES))
    as (n & p & p_low & s_low & Hp & Hn & _ & _ & _ & Hfuel & Hret & Hstd).
  destruct (Hstd ltac:(simpl; lia) ltac:(simpl; lia)) as (s' & Hstop).
  exists s'. split; [|exact (proj2 (Hret s' Hstop))].
  rewrite <- Hstop. apply Hfuel. injection Hp as <-. simpl in Hn. lia.
Defined.

(** C10, as it is worded, fails on a narrow board.  [narrow_state] is a
    Playing state of a session on a board of 20 rows and 2 columns.  The
    tentative placement of its tee one row lower violates the placement
    invariant (the cell in row 17 would lie in column -1), [move_down]
    takes the translation back and triggers the lock: the anchor row of the
    piece is 18 and the board has no row.  The lock raises [ValueError]
    before it merges anything. *)
Lemma lock_triggered_above_board :
  reachable narrow_state /\
  game_over narrow_state = false /\
  current_piece narrow_state = Some (tee_at 18 1) /\
  violates narrow_state (moved (tee_at 18 1) (-1) 0) /\
  piece_en_cours
    (set_current_piece narrow_state (Some (moved (tee_at 18 1) (-1) 0)))
  = Ok false /\
  move_down narrow_state [2; 7]%N
  = (s' <- _stop_piece narrow_state [2; 7]%N ;; Ok (false, s')) /\
  row (loc (tee_at 18 1)) = 18 /\ len (board narrow_state) = 0 /\
  ~ row (loc (tee_at 18 1)) <= len (board narrow_state) /\
  _stop_piece narrow_state [2; 7]%N = Raise ValueError /\
  move_down narrow_state [2; 7]%N = Raise ValueError.
Proof.
  split; [exact narrow_state_reachable|]. split; [reflexivity|].
  split; [reflexivity|]. split.
  { exists 17, (-1). split.
    - exists 0%nat, 2%N. repeat split; try reflexivity; vm_compute; discriminate.
    - right. left. lia. }
  split; [vm_compute; reflexivity|]. split; [vm_compute; reflexivity|].
  split; [reflexivity|]. split; [reflexivity|].
  split; [vm_compute; intros H; apply H; reflexivity|].
  split; vm_compute; reflexivity.
Qed.

(** C10, amended.  In every state of a session, when a rejected
    [move_down] has locked the piece and returned [False], the anchor row
    of the piece was at most the row count of the board.  The merge loop
    has then OR-ed every layer of the piece into a board row that existed
    or appended it at exactly the current top ([stacked]), so that the row
    list never gets a row above its length, and the stored board is the
    merged one without its full rows.  When the anchor row is not negative,
    as it always is on a board of at least 4 rows and 6 columns, layer [i]
    ends at index [row + i], the rows outside the piece are untouched and
    the merged board has [max (len board) (row + height)] rows.  On a board
    of at least 4 rows and 6 columns every [move_down] whose tentative
    placement violates the placement invariant locks and returns [False].
    On a smaller board the lock it triggers can raise instead; it does so
    at its first step, before any row is changed: [ValueError] when the
    anchor column is less than the width of the piece, [IndexError] when
    the anchor row is below [- len(board)]. *)
Theorem lock_stacks_rows (s : Tetris) (p : Piece) (choice : list N) :
  reachable s -> current_piece s = Some p -> In choice SHAPES_values ->
  (forall s' : Tetris,
     move_down s choice = Ok (false, s') ->
     row (loc p) <= len (board s) /\
     (4 <= height s -> 6 <= width s -> 0 <= row (loc p)) /\
     exists bits merged : list N,
       get_bits p = Ok bits /\
       _stop_piece_loop (board s) (row (loc p)) bits = Ok merged /\
       stacked (board s) (row (loc p)) bits merged /\
       board s'
       = List.filter (fun layer => negb (layer =? FULL_ROW s)%N) merged /\
       (0 <= row (loc p) ->
        len merged = Z.max (len (board s)) (row (loc p) + len bits) /\
        (forall (i : nat) (layer : N),
            bits !! i = Some layer ->
            merged !! (Z.to_nat (row (loc p)) + i)%nat
            = Some (N.lor (default 0%N
                             (board s !! (Z.to_nat (row (loc p)) + i)%nat))
                          layer)) /\
        (forall j : nat,
            (j < Z.to_nat (row (loc p)))%nat \/
            (Z.to_nat (row (loc p)) + length bits <= j)%nat ->
            merged !! j = board s !! j))) /\
  (4 <= height s -> 6 <= width s ->
   violates s (moved p (-1) 0) ->
   exists s' : Tetris, move_down s choice = Ok (false, s')) /\
  (forall e : exn,
     move_down s choice = Raise e ->
     piece_en_cours (set_current_piece s (Some (moved p (-1) 0))) = Ok false /\
     _stop_piece s choice = Raise e /\
     ((e = ValueError /\ col (loc p) < get_width p) \/
      (e = IndexError /\ get_width p <= col (loc p) /\
       row (loc p) < - len (board s)))).
Proof.
  intros Hr Hp Hin. pose proof (reachable_Sound s Hr) as HS.
  destruct (sound_piece s HS) as (q & Hq & Hwf).
  rewrite Hp in Hq. injection Hq as <-.
  split; [|split].
  - intros s' Hmd.
    destruct (move_down_spec s p choice Hp) as (v & Hiff & Hm).
    rewrite Hm in Hmd. destruct v; [discriminate|].
    apply bind_Ok in Hmd. destruct Hmd as (s2 & Hstop & [= <-]).
    destruct (stop_piece_inversion s s2 p choice Hp Hin Hstop)
      as (bits & merged & Hbits & Hloop & Hb).
    assert (Hw : 0 <= col (loc p) - get_width p).
    { apply (mapM_py_shl_Ok (dget (shapes p) (rot p)) bits); [|exact Hbits].
      intros Hnil. pose proof (wf_piece_tables p Hwf (rot p)) as Ht.
      rewrite Hnil in Ht. discriminate. }
    assert (Hrow : row (loc p) <= len (board s)).
    { apply rejected_down_row; [apply (sound_col s HS); exact Hp|exact Hw|].
      intros H. apply Hiff in H. discriminate. }
    split; [exact Hrow|]. split.
    { intros Hh4 Hw6. destruct (inv_piece s (reachable_Inv s Hr Hh4 Hw6))
        as (q & Hq & (H0 & _)).
      rewrite Hp in Hq. injection Hq as <-. exact H0. }
    exists bits, merged. split; [exact Hbits|]. split; [exact Hloop|].
    pose proof (stop_piece_loop_Ok_stacked bits (board s) (row (loc p)) merged
                  Hrow Hloop) as Hst.
    split; [exact Hst|]. split; [exact Hb|].
    intros H0. apply (stacked_rows _ _ _ _ Hst). lia.
  - intros Hh Hw Hv.
    assert (Hnf : ~ fits s (moved p (-1) 0)).
    { intros Hf.
      pose proof (violates_rejected s (moved p (-1) 0) true
                    (wf_piece_tables p Hwf) Hv
                    (conj (fun _ => Hf) (fun _ => eq_refl))) as H.
      discriminate. }
    destruct (move_down_reverts s p choice Hp Hnf) as (_ & Hmd).
    pose proof (reachable_Inv s Hr Hh Hw) as HI.
    destruct (move_down_Inv s choice HI Hin) as (v & s' & Hmd' & _).
    exists s'. rewrite Hmd in Hmd'. apply bind_Ok in Hmd'.
    destruct Hmd' as (s2 & Hstop & Hret). injection Hret as <- <-.
    rewrite Hmd, Hstop. reflexivity.
  - intros e He.
    destruct (move_down_spec s p choice Hp) as (v & Hiff & Hm).
    rewrite Hm in He. destruct v; [discriminate|].
    assert (Hnf : ~ fits s (moved p (-1) 0))
      by (intros Hf; apply Hiff in Hf; discriminate).
    destruct (move_down_reverts s p choice Hp Hnf)
      as ((s1 & Hs1 & _ & Hpc & _) & _).
    unfold move_piece, the_piece in Hs1. rewrite Hp in Hs1.
    cbn [bind] in Hs1. injection Hs1 as <-.
    split; [exact Hpc|].
    destruct (_stop_piece s choice) as [s2|e2] eqn:Hstop;
      cbn [bind] in He; [discriminate|].
    injection He as <-. split; [reflexivity|].
    exact (stop_piece_Raise s p choice e2 Hp Hin Hstop).
Qed.

Lemma lock_stacks_rows_witness :
  row (loc (square_at 0 5)) <= len (board floor_state) /\
  exists bits merged : list N,
    get_bits (square_at 0 5) = Ok bits /\
    _stop_piece_loop (board floor_state) 0 bits = Ok merged /\
    board floor_state_locked
    = List.filter (fun layer => negb (layer =? 1023)%N) merged.
Proof.
  destruct (proj1 (lock_stacks_rows floor_state (square_at 0 5)
                     [3; 3]%N floor_state_reachable eq_refl square_in_SHAPES)
                  floor_state_locked ltac:(vm_compute; reflexivity))
    as (Hrow & _ & bits & merged & Hbits & Hloop & _ & Hb & _).
  split; [exact Hrow|]. exists bits, merged.
  split; [exact Hbits|]. split; [exact Hloop|exact Hb].
Defined.

(** * Further properties of the code *)

(** ** The check [piece_en_cours] is exact *)

Lemma snugb_snug (shape : list N) (w : Z) :
  snugb shape w = true -> snug shape w.
Proof.
  unfold snugb, snug. rewrite !andb_true_iff.
  intros (((Hw & H0) & H1) & H2). split; [lia|]. split; [|split].
  - destruct shape as [|l0 shape]; [discriminate|].
    exists l0. split; [reflexivity|].
    apply negb_true_iff, N.eqb_neq in H0. exact H0.
  - apply existsb_exists in H1. destruct H1 as (l & Hl & Hb).
    apply list_elem_of_In, list_elem_of_lookup in Hl. destruct Hl as (i & Hi).
    exists i, l. split; assumption.
  - apply existsb_exists in H2. destruct H2 as (l & Hl & Hb).
    apply list_elem_of_In, list_elem_of_lookup in Hl. destruct Hl as (i & Hi).
    exists i, l. split; assumption.
Qed.

(** Every variant of every shape of the table fills its bounding box on
    the bottom row and on both sides, and has at most four rows. *)
Lemma wf_piece_snug (p : Piece) :
  wf_piece p ->
  forall d : Dir,
    snug (dget (shapes p) d) (dget (widths p) d) /\
    (length (dget (shapes p) d) <= 4)%nat.
Proof.
  intros (shape & Hin & Hp) d. destruct p as [sh l r ws hs].
  unfold set_rot in Hp. cbn [shapes loc rot widths heights] in *.
  shape_cases Hin.
  all: vm_compute in Hp; injection Hp as <- <- _.
  all: split; [apply snugb_snug; destruct d; reflexivity
              |destruct d; simpl; lia].
Qed.

Lemma square_wf (r c : Z) : wf_piece (square_at r c).
Proof.
  exists [3; 3]%N. split; [exact square_in_SHAPES|]. vm_compute. reflexivity.
Qed.

(** X1.  For every piece built from a shape of the table, in any rotation
    state and at any position, [piece_en_cours] returns without an
    exception, and returns [True] exactly when every cell the piece covers
    lies in the columns [0 .. width-1], in a row at or above row 0, and on
    no locked cell: its three anchor tests are neither too strict nor too
    lax on either side. *)
Theorem piece_en_cours_exact (s : Tetris) (p : Piece) :
  current_piece s = Some p -> wf_piece p ->
  exists v : bool,
    piece_en_cours s = Ok v /\ (v = true <-> placement_ok s p).
Proof.
  intros Hp Hwf. destruct (piece_en_cours_spec s p Hp) as (v & Hv & Hiff).
  exists v. split; [exact Hv|]. rewrite Hiff. split.
  - apply fits_placement_ok. apply wf_piece_tables. exact Hwf.
  - apply placement_ok_fits. apply (wf_piece_snug p Hwf (rot p)).
Qed.

Lemma piece_en_cours_exact_witness :
  exists v : bool,
    piece_en_cours floor_state = Ok v /\
    (v = true <-> placement_ok floor_state (square_at 0 5)).
Proof.
  exact (piece_en_cours_exact floor_state (square_at 0 5) eq_refl
           (square_wf 0 5)).
Defined.

(** ** Sessions on a board of at least 4 rows and 6 columns *)

(** X2.  On a board of at least 4 rows and 6 columns, in every state of a
    session in which the game is not over, the current piece is in place:
    every cell it covers lies in the columns of the board, at or above row
    0, and on no locked cell. *)
Theorem playing_piece_in_place (s : Tetris) :
  reachable s -> 4 <= height s -> 6 <= width s -> game_over s = false ->
  exists p : Piece, current_piece s = Some p /\ placement_ok s p.
Proof.
  intros Hr Hh Hw Hgo. pose proof (reachable_Inv s Hr Hh Hw) as HI.
  destruct (sound_piece s (reachable_Sound s Hr)) as (p & Hp & Hwf).
  exists p. split; [exact Hp|].
  apply fits_placement_ok; [apply wf_piece_tables; exact Hwf|].
  apply (inv_playing s HI Hgo p Hp).
Qed.

Lemma playing_piece_in_place_witness :
  exists p : Piece,
    current_piece held_state = Some p /\ placement_ok held_state p.
Proof.
  exact (playing_piece_in_place held_state held_state_reachable
           ltac:(simpl; lia) ltac:(simpl; lia) eq_refl).
Defined.

(** X3.  On a board of at least 4 rows and 6 columns no action of a session
    raises an exception: [move_down], [move_left], [move_right],
    [rot_right], [rot_left], [hold] and the restart return a state, and so
    does [drop] once its loop is given more iterations than the anchor row
    of the piece. *)
Theorem actions_return (s : Tetris) (a : action) :
  reachable s -> 4 <= height s -> 6 <= width s -> legal a ->
  (forall fuel c p, a = Drop fuel c -> current_piece s = Some p ->
                    row (loc p) < Z.of_nat fuel) ->
  exists s' : Tetris, step s a = Some (Ok s').
Proof.
  intros Hr Hh Hw Hlegal Hfuel.
  pose proof (reachable_Sound s Hr) as HS.
  pose proof (reachable_Inv s Hr Hh Hw) as HI.
  destruct (sound_piece s HS) as (p & Hp & Hwf).
  destruct a as [c| | |fuel c| | |c|c]; simpl in Hlegal; simpl.
  - destruct (move_down_Inv s c HI Hlegal) as (v & s' & Hmd & _).
    exists s'. rewrite Hmd. reflexivity.
  - destruct (move_left_spec s p Hp) as (v & _ & Hm). rewrite Hm. eauto.
  - destruct (move_right_spec s p Hp) as (v & _ & Hm). rewrite Hm. eauto.
  - destruct (inv_piece s HI) as (q & Hq & (Hrow & _)).
    rewrite Hp in Hq. injection Hq as <-.
    destruct (drop_descends c Hlegal (Z.to_nat (row (loc p))) s p HI Hp)
      as (n & _ & s' & _ & Hn & _ & _ & _ & _ & _ & _ & Hdrop); [lia|].
    exists s'. apply Hdrop.
    specialize (Hfuel fuel c p eq_refl Hp). lia.
  - destruct (rot_right_spec s p Hp) as (v & _ & Hm). rewrite Hm. eauto.
  - destruct (rot_left_spec s p Hp) as (v & _ & Hm). rewrite Hm. eauto.
  - destruct (hold_cases s c HS Hlegal) as (s' & Hh' & _). rewrite Hh'. eauto.
  - unfold restart.
    destruct (Tetris_init_Sound (can_hold s) 20 10 0 c) as (s' & Hi & _);
      [lia|exact Hlegal|].
    rewrite Hi. eauto.
Qed.

Lemma actions_return_witness :
  exists s' : Tetris, step held_state (Drop 19 [2; 7]%N) = Some (Ok s').
Proof.
  apply (actions_return held_state (Drop 19 [2; 7]%N) held_state_reachable);
    [simpl; lia|simpl; lia|simpl; tauto|].
  intros fuel c p [= <- _] [= <-]. simpl. lia.
Defined.

(** ** What the actions change *)

Lemma add_piece_fields (s s' : Tetris) (shape : list N) :
  In shape SHAPES_values -> _add_piece s shape = Ok s' ->
  exists (p : Piece) (v : bool),
    s' = (if v then set_current_piece s (Some p)
          else set_game_over (set_current_piece s (Some p)) true).
Proof.
  intros Hin Hadd.
  destruct (Piece_init_SHAPES
              (mkLoc (height s - Z.of_nat (length shape)) (width s / 2))
              shape Hin) as (p & Hp & _).
  destruct (add_piece_spec s shape p Hp) as (v & _ & Hadd2).
  rewrite Hadd in Hadd2. injection Hadd2 as ->. exists p, v. reflexivity.
Qed.

Lemma add_piece_unlocked (s s' : Tetris) (shape : list N) :
  In shape SHAPES_values -> _add_piece s shape = Ok s' -> unlocked s s'.
Proof.
  intros Hin Hadd. destruct (add_piece_fields s s' shape Hin Hadd)
    as (p & v & ->).
  destruct v; repeat split; simpl; auto.
Qed.

Lemma unlocked_refl (s : Tetris) : unlocked s s.
Proof. repeat split; auto. Qed.

Lemma unlocked_trans (s1 s2 s3 : Tetris) :
  unlocked s1 s2 -> unlocked s2 s3 -> unlocked s1 s3.
Proof.
  intros (A1 & A2 & A3 & A4 & A5 & A6 & A7) (B1 & B2 & B3 & B4 & B5 & B6 & B7).
  repeat split; try congruence. auto.
Qed.

Lemma unlocked_locked_once (s1 s2 s3 : Tetris) :
  unlocked s1 s2 -> locked_once s2 s3 -> locked_once s1 s3.
Proof.
  intros (A1 & A2 & A3 & A4 & A5 & A6 & A7) (B1 & B2 & B3 & B4 & B5 & B7).
  repeat split; try congruence; try lia. auto.
Qed.

Lemma unlocked_set_current_piece (s : Tetris) (x : option Piece) :
  unlocked s (set_current_piece s x).
Proof. repeat split; auto. Qed.

Lemma tentative_unlocked (s s' : Tetris) (p' : Piece) (v : bool) :
  s' = (if v then set_current_piece s (Some p') else s) -> unlocked s s'.
Proof.
  intros ->. destruct v;
    [apply unlocked_set_current_piece|apply unlocked_refl].
Qed.

Lemma count_occ_insert (full : N) (b : list N) (k : nat) (y : N) :
  (count_occ N.eq_dec (<[k:=y]> b) full
   <= S (count_occ N.eq_dec b full))%nat.
Proof.
  revert k. induction b as [|x b IH]; intros k; simpl; [lia|].
  destruct k as [|k]; simpl.
  - destruct (N.eq_dec y full), (N.eq_dec x full); lia.
  - specialize (IH k). destruct (N.eq_dec x full); lia.
Qed.

(** The merge adds at most one full row for each layer of the piece. *)
Lemma stop_piece_loop_count (full : N) (shape : list N) :
  forall (b : list N) (r : Z) (merged : list N),
    _stop_piece_loop b r shape = Ok merged ->
    (count_occ N.eq_dec merged full
     <= count_occ N.eq_dec b full + length shape)%nat.
Proof.
  induction shape as [|layer shape IH]; intros b r merged; simpl.
  - intros [= <-]. lia.
  - destruct (r <? len b).
    + intros Hloop. apply bind_Ok in Hloop. destruct Hloop as (x & _ & Hloop).
      apply bind_Ok in Hloop. destruct Hloop as (b' & Hset & Hloop).
      unfold setitem in Hset. apply bind_Ok in Hset.
      destruct Hset as (k & _ & [= <-]).
      apply IH in Hloop.
      pose proof (count_occ_insert full b k (N.lor x layer)). lia.
    + intros Hloop. apply IH in Hloop.
      rewrite count_occ_app in Hloop. simpl in Hloop.
      destruct (N.eq_dec layer full); lia.
Qed.

Lemma stop_piece_locked_once (s s' : Tetris) (choice : list N) :
  Sound s -> In choice SHAPES_values -> _stop_piece s choice = Ok s' ->
  locked_once s s'.
Proof.
  intros HS Hin Hstop. destruct (sound_piece s HS) as (p & Hp & Hwf).
  unfold _stop_piece, the_piece in Hstop. rewrite Hp in Hstop.
  cbn [bind] in Hstop.
  apply bind_Ok in Hstop. destruct Hstop as (bits & Hbits & Hstop).
  apply bind_Ok in Hstop. destruct Hstop as (merged & Hloop & Hstop).
  apply bind_Ok in Hstop. destruct Hstop as (s2 & Hadd & [= <-]).
  destruct (add_piece_unlocked _ s2 choice Hin Hadd)
    as (A1 & A2 & A3 & A4 & A5 & A6 & A7).
  pose proof (stop_piece_loop_count (FULL_ROW s) bits (board s) (row (loc p))
                merged Hloop) as Hcount.
  assert (Hzero : count_occ N.eq_dec (board s) (FULL_ROW s) = 0%nat).
  { apply count_occ_not_In. intros Hx.
    pose proof (base_rows s (sound_base s HS)) as Hrows.
    rewrite Forall_forall in Hrows.
    apply (Hrows (FULL_ROW s)); [apply list_elem_of_In; exact Hx|reflexivity]. }
  assert (Hlen : (length bits <= 4)%nat).
  { unfold get_bits in Hbits.
    assert (Hl : length bits = length (dget (shapes p) (rot p))).
    { clear -Hbits. revert bits Hbits.
      induction (dget (shapes p) (rot p)) as [|x l IH]; intros bits; simpl.
      - intros [= <-]. reflexivity.
      - intros H. apply bind_Ok in H. destruct H as (y & _ & H).
        apply bind_Ok in H. destruct H as (ys & Hys & [= <-]).
        simpl. f_equal. apply IH. exact Hys. }
    rewrite Hl. apply (wf_piece_snug p Hwf (rot p)). }
  rewrite clear_rows_count in A6. simpl in A1, A2, A3, A4, A6, A7.
  unfold locked_once. simpl. rewrite A1, A2, A3, A4, A6.
  repeat split; try lia. exact A7.
Qed.

Lemma move_down_frame (s s' : Tetris) (choice : list N) (v : bool) :
  Sound s -> In choice SHAPES_values -> move_down s choice = Ok (v, s') ->
  if v then unlocked s s' else locked_once s s'.
Proof.
  intros HS Hin Hmd. destruct (sound_piece s HS) as (p & Hp & _).
  destruct (move_down_spec s p choice Hp) as (v' & _ & Hm).
  rewrite Hm in Hmd. destruct v'.
  - injection Hmd as <- <-. apply unlocked_set_current_piece.
  - apply bind_Ok in Hmd. destruct Hmd as (s3 & Hstop & [= <- <-]).
    exact (stop_piece_locked_once s s3 choice HS Hin Hstop).
Qed.

Lemma unlocked_is_locked_once (s s' : Tetris) :
  unlocked s s' -> locked_once s s'.
Proof.
  intros (A1 & A2 & A3 & A4 & A5 & A6 & A7).
  repeat split; try congruence; try lia. exact A7.
Qed.

Lemma drop_loop_frame (fuel : nat) (choice : list N) :
  In choice SHAPES_values ->
  forall s s' : Tetris,
    Sound s -> drop_loop fuel s choice = Some (Ok s') -> locked_once s s'.
Proof.
  intros Hin. induction fuel as [|fuel IH]; intros s s' HS; simpl.
  - discriminate.
  - destruct (move_down s choice) as [[v s1]|e] eqn:Hmd; [|discriminate].
    pose proof (move_down_frame s s1 choice v HS Hin Hmd) as Hf.
    destruct (move_down_Sound s s1 choice v HS Hin Hmd) as (HS1 & _).
    destruct v.
    + intros Hd. apply (unlocked_locked_once s s1 s' Hf).
      apply IH; assumption.
    + intros [= <-]. exact Hf.
Qed.

Lemma hold_unlocked (s s' : Tetris) (choice : list N) :
  Sound s -> In choice SHAPES_values -> hold s choice = Ok s' ->
  unlocked s s'.
Proof.
  intros HS Hin Hh.
  destruct (hold_cases s choice HS Hin) as (s1 & Hh1 & _ & _ & _ & _ & _ & Hcase).
  rewrite Hh in Hh1. injection Hh1 as <-.
  assert (Hspawned : forall shape s2,
            In shape SHAPES_values ->
            _add_piece (set_hold_piece s (current_piece s)) shape = Ok s2 ->
            unlocked s (set_can_hold s2 (Some false))).
  { intros shape s2 Hshape Hadd.
    destruct (add_piece_unlocked _ s2 shape Hshape Hadd)
      as (A1 & A2 & A3 & A4 & A5 & A6 & A7).
    repeat split; simpl; assumption. }
  destruct (hold_piece s) as [hp|].
  - destruct (can_hold s) as [[|]|].
    + destruct Hcase as (_ & Hbase & s2 & Hadd & ->).
      exact (Hspawned _ s2 Hbase Hadd).
    + subst s'. apply unlocked_refl.
    + destruct Hcase as (_ & Hbase & s2 & Hadd & ->).
      exact (Hspawned _ s2 Hbase Hadd).
  - assert (Hc : exists s2,
              _add_piece (set_hold_piece s (current_piece s)) choice = Ok s2 /\
              s' = set_can_hold s2 (Some false))
      by (destruct (can_hold s) as [[|]|]; apply Hcase).
    destruct Hc as (s2 & Hadd & ->). exact (Hspawned _ s2 Hin Hadd).
Qed.

(** Every action but the restart, by what it may change. *)
Lemma step_frame (s s' : Tetris) (a : action) :
  Sound s -> legal a -> step s a = Some (Ok s') ->
  match a with
  | MoveLeft | MoveRight | RotRight | RotLeft | Hold _ => unlocked s s'
  | MoveDown _ | Drop _ _ => locked_once s s'
  | Restart _ => True
  end.
Proof.
  intros HS Hlegal Hstep. destruct (sound_piece s HS) as (p & Hp & _).
  destruct a as [c| | |fuel c| | |c|c]; simpl in Hstep, Hlegal.
  - injection Hstep as Hstep. apply bind_Ok in Hstep.
    destruct Hstep as ([v s1] & Hmd & [= <-]).
    pose proof (move_down_frame s s1 c v HS Hlegal Hmd) as Hf.
    destruct v; [apply unlocked_is_locked_once|]; exact Hf.
  - destruct (move_left_spec s p Hp) as (v & _ & Hm).
    rewrite Hm in Hstep. injection Hstep as Hs.
    eapply (tentative_unlocked s s'). symmetry. exact Hs.
  - destruct (move_right_spec s p Hp) as (v & _ & Hm).
    rewrite Hm in Hstep. injection Hstep as Hs.
    eapply (tentative_unlocked s s'). symmetry. exact Hs.
  - exact (drop_loop_frame fuel c Hlegal s s' HS Hstep).
  - destruct (rot_right_spec s p Hp) as (v & _ & Hm).
    rewrite Hm in Hstep. injection Hstep as Hs.
    eapply (tentative_unlocked s s'). symmetry. exact Hs.
  - destruct (rot_left_spec s p Hp) as (v & _ & Hm).
    rewrite Hm in Hstep. injection Hstep as Hs.
    eapply (tentative_unlocked s s'). symmetry. exact Hs.
  - injection Hstep as Hstep. exact (hold_unlocked s s' c HS Hlegal Hstep).
  - exact I.
Qed.

Lemma line_in_SHAPES : In [1; 1; 1; 1]%N SHAPES_values.
Proof. right. left. reflexivity. Qed.

Lemma over_state_reachable : reachable over_state.
Proof.
  assert (Hinit : exists s0,
            Tetris_init None 20 10 0 [1; 1; 1; 1]%N = Ok s0 /\
            run s0 (repeat (Drop 20 [1; 1; 1; 1]%N) 5) = Some (Ok over_state)).
  { eexists. split; [vm_compute; reflexivity|vm_compute; reflexivity]. }
  destruct Hinit as (s0 & Hinit & Hrun).
  apply (run_reachable (repeat (Drop 20 [1; 1; 1; 1]%N) 5) s0 over_state);
    [|apply Forall_forall|exact Hrun].
  - apply (reach_init 20 10 0 [1; 1; 1; 1]%N);
      [lia|exact line_in_SHAPES|exact Hinit].
  - intros a Ha. apply list_elem_of_In, repeat_spec in Ha. subst a.
    exact line_in_SHAPES.
Qed.

(** X4.  Once the game is over it stays over: in every state of a session
    in which [game_over] is true, every action that returns leaves it
    true, except the restart, which always clears it. *)
Theorem game_over_is_final (s s' : Tetris) (a : action) :
  reachable s -> game_over s = true -> legal a ->
  step s a = Some (Ok s') ->
  game_over s' = match a with Restart _ => false | _ => true end.
Proof.
  intros Hr Hgo Hlegal Hstep. pose proof (reachable_Sound s Hr) as HS.
  pose proof (step_frame s s' a HS Hlegal Hstep) as Hf.
  destruct a as [c| | |fuel c| | |c|c];
    try (destruct Hf as (_ & _ & _ & _ & _ & _ & H); exact (H Hgo));
    try (destruct Hf as (_ & _ & _ & _ & _ & H); exact (H Hgo)).
  simpl in Hstep, Hlegal. unfold restart in Hstep. injection Hstep as Hstep.
  destruct (Tetris_init_Sound (can_hold s) 20 10 0 c)
    as (s1 & Hi & _ & _ & _ & _ & _ & Hgo1); [lia|exact Hlegal|].
  rewrite Hstep in Hi. injection Hi as <-. exact Hgo1.
Qed.

Lemma game_over_is_final_witness :
  exists s' : Tetris,
    step over_state (Hold [3; 3]%N) = Some (Ok s') /\ game_over s' = true.
Proof.
  assert (H : exists s', step over_state (Hold [3; 3]%N) = Some (Ok s'))
    by (eexists; vm_compute; reflexivity).
  destruct H as (s' & Hstep). exists s'. split; [exact Hstep|].
  exact (game_over_is_final over_state s' (Hold [3; 3]%N)
           over_state_reachable eq_refl square_in_SHAPES Hstep).
Defined.

(** X5.  Only a lock changes the board and the score: in every state of a
    session, [move_left], [move_right], [rot_right], [rot_left] and [hold]
    leave the board, the cleared-line count and the level as they were,
    and so does a [move_down] that returns [True]; and no action but the
    restart changes the width, the height, the full-row mask or the
    starting level. *)
Theorem only_lock_changes_board (s s' : Tetris) (a : action) :
  reachable s -> legal a -> step s a = Some (Ok s') ->
  match a with
  | MoveLeft | MoveRight | RotRight | RotLeft | Hold _ =>
      board s' = board s /\ cleared_lines s' = cleared_lines s /\
      get_level s' = get_level s /\
      width s' = width s /\ height s' = height s /\
      FULL_ROW s' = FULL_ROW s /\ starting_level s' = starting_level s
  | MoveDown c =>
      (move_down s c = Ok (true, s') ->
       board s' = board s /\ cleared_lines s' = cleared_lines s) /\
      width s' = width s /\ height s' = height s /\
      FULL_ROW s' = FULL_ROW s /\ starting_level s' = starting_level s
  | Drop _ _ =>
      width s' = width s /\ height s' = height s /\
      FULL_ROW s' = FULL_ROW s /\ starting_level s' = starting_level s
  | Restart _ => True
  end.
Proof.
  intros Hr Hlegal Hstep. pose proof (reachable_Sound s Hr) as HS.
  pose proof (step_frame s s' a HS Hlegal Hstep) as Hf.
  assert (Hun : unlocked s s' ->
            board s' = board s /\ cleared_lines s' = cleared_lines s /\
            get_level s' = get_level s /\
            width s' = width s /\ height s' = height s /\
            FULL_ROW s' = FULL_ROW s /\ starting_level s' = starting_level s).
  { intros (A1 & A2 & A3 & A4 & A5 & A6 & _). unfold get_level.
    rewrite A4, A6. repeat split; assumption. }
  destruct a as [c| | |fuel c| | |c|c]; try (apply Hun; exact Hf);
    try exact I.
  - destruct Hf as (A1 & A2 & A3 & A4 & _). split; [|repeat split; assumption].
    intros Hmd. simpl in Hlegal.
    pose proof (move_down_frame s s' c true HS Hlegal Hmd)
      as (_ & _ & _ & _ & B5 & B6 & _).
    split; assumption.
  - destruct Hf as (A1 & A2 & A3 & A4 & _). repeat split; assumption.
Qed.

Lemma only_lock_changes_board_witness :
  exists s' : Tetris,
    step held_state (Hold [2; 7]%N) = Some (Ok s') /\
    board s' = board held_state /\ cleared_lines s' = 0.
Proof.
  assert (H : exists s', step held_state (Hold [2; 7]%N) = Some (Ok s'))
    by (eexists; vm_compute; reflexivity).
  destruct H as (s' & Hstep). exists s'. split; [exact Hstep|].
  destruct (only_lock_changes_board held_state s' (Hold [2; 7]%N)
              held_state_reachable ltac:(simpl; tauto) Hstep)
    as (Hb & Hc & _).
  split; [exact Hb|exact Hc].
Defined.

(** X6.  The score never goes down and grows slowly: in every state of a
    session, an action other than the restart leaves the cleared-line
    count between its old value and its old value plus 4 (one lock of a
    piece of at most four layers), so that the level does not decrease and
    rises by at most one. *)
Theorem score_grows_slowly (s s' : Tetris) (a : action) :
  reachable s -> legal a -> step s a = Some (Ok s') ->
  (forall c, a <> Restart c) ->
  cleared_lines s <= cleared_lines s' <= cleared_lines s + 4 /\
  get_level s <= get_level s' <= get_level s + 1.
Proof.
  intros Hr Hlegal Hstep Hnot. pose proof (reachable_Sound s Hr) as HS.
  pose proof (step_frame s s' a HS Hlegal Hstep) as Hf.
  assert (Hlo : locked_once s s').
  { destruct a as [c| | |fuel c| | |c|c];
      try exact Hf; try (apply unlocked_is_locked_once; exact Hf).
    exfalso. apply (Hnot c). reflexivity. }
  destruct Hlo as (_ & _ & _ & Hlvl & Hcl & _).
  split; [exact Hcl|]. unfold get_level. rewrite Hlvl.
  assert (cleared_lines s / 10 <= cleared_lines s' / 10)
    by (apply Z.div_le_mono; lia).
  assert (cleared_lines s' / 10 <= (cleared_lines s + 1 * 10) / 10)
    by (apply Z.div_le_mono; lia).
  rewrite Z.div_add in H0 by lia. lia.
Qed.

Lemma score_grows_slowly_witness :
  exists s' : Tetris,
    step held_state (Drop 19 [2; 7]%N) = Some (Ok s') /\
    0 <= cleared_lines s' <= 4.
Proof.
  assert (H : exists s', step held_state (Drop 19 [2; 7]%N) = Some (Ok s'))
    by (eexists; vm_compute; reflexivity).
  destruct H as (s' & Hstep). exists s'. split; [exact Hstep|].
  destruct (score_grows_slowly held_state s' (Drop 19 [2; 7]%N)
              held_state_reachable ltac:(simpl; tauto) Hstep
              ltac:(discriminate))
    as (Hc & _).
  exact Hc.
Defined.

(** ** Moves that undo each other *)

Lemma moved_moved (p : Piece) (drow dcol drow' dcol' : Z) :
  drow + drow' = 0 -> dcol + dcol' = 0 ->
  moved (moved p drow dcol) drow' dcol' = p.
Proof.
  intros Hr Hc. destruct p as [sh [r c] d ws hs]. unfold moved, set_loc.
  simpl. repeat f_equal; lia.
Qed.

Lemma accepted_then_back (s s1 : Tetris) (p p' : Piece) (v : bool) :
  current_piece s = Some p -> fits s p ->
  s1 = (if v then set_current_piece s (Some p') else s) -> s1 <> s ->
  forall (v' : bool) (r : result Tetris),
    (v' = true <-> fits s1 p) ->
    r = Ok (if v' then set_current_piece s1 (Some p) else s1) ->
    r = Ok s.
Proof.
  intros Hp Hfit -> Hne v' r Hiff ->. destruct v; [|congruence].
  assert (Hv' : v' = true) by (apply Hiff; exact Hfit).
  rewrite Hv'. rewrite set_current_piece_same by exact Hp. reflexivity.
Qed.

(** X7.  On a board of at least 4 rows and 6 columns, in every state of a
    session in which the game is not over, a move that was accepted is
    undone by the opposite move: when [move_left] changes the state,
    [move_right] right after it gives the first state back, and the same
    holds for [move_right] followed by [move_left], for [rot_right]
    followed by [rot_left], and for [rot_left] followed by [rot_right]. *)
Theorem opposite_moves_undo (s s1 : Tetris) :
  reachable s -> 4 <= height s -> 6 <= width s -> game_over s = false ->
  s1 <> s ->
  (move_left s = Ok s1 -> move_right s1 = Ok s) /\
  (move_right s = Ok s1 -> move_left s1 = Ok s) /\
  (rot_right s = Ok s1 -> rot_left s1 = Ok s) /\
  (rot_left s = Ok s1 -> rot_right s1 = Ok s).
Proof.
  intros Hr Hh Hw Hgo Hne. pose proof (reachable_Inv s Hr Hh Hw) as HI.
  destruct (inv_piece s HI) as (p & Hp & _).
  pose proof (inv_playing s HI Hgo p Hp) as Hfit.
  split; [|split; [|split]].
  - intros Hm. destruct (move_left_spec s p Hp) as (v & _ & Hm1).
    rewrite Hm in Hm1. injection Hm1 as Hs1.
    assert (Hv : v = true) by (destruct v; [reflexivity|congruence]).
    subst v.
    destruct (move_right_spec s1 (moved p 0 1)) as (v' & Hiff & Hm2);
      [subst s1; reflexivity|].
    rewrite (moved_moved p 0 1 0 (-1)) in Hiff, Hm2 by reflexivity.
    exact (accepted_then_back s s1 p (moved p 0 1) true Hp Hfit Hs1 Hne
             v' _ Hiff Hm2).
  - intros Hm. destruct (move_right_spec s p Hp) as (v & _ & Hm1).
    rewrite Hm in Hm1. injection Hm1 as Hs1.
    assert (Hv : v = true) by (destruct v; [reflexivity|congruence]).
    subst v.
    destruct (move_left_spec s1 (moved p 0 (-1))) as (v' & Hiff & Hm2);
      [subst s1; reflexivity|].
    rewrite (moved_moved p 0 (-1) 0 1) in Hiff, Hm2 by reflexivity.
    exact (accepted_then_back s s1 p (moved p 0 (-1)) true Hp Hfit Hs1 Hne
             v' _ Hiff Hm2).
  - intros Hm. destruct (rot_right_spec s p Hp) as (v & _ & Hm1).
    rewrite Hm in Hm1. injection Hm1 as Hs1.
    assert (Hv : v = true) by (destruct v; [reflexivity|congruence]).
    subst v.
    destruct (rot_left_spec s1 (set_rot p (next_dir (rot p))))
      as (v' & Hiff & Hm2); [subst s1; reflexivity|].
    change (rot (set_rot p (next_dir (rot p)))) with (next_dir (rot p))
      in Hiff, Hm2.
    rewrite (turned_back_right p) in Hiff, Hm2.
    exact (accepted_then_back s s1 p (set_rot p (next_dir (rot p))) true
             Hp Hfit Hs1 Hne v' _ Hiff Hm2).
  - intros Hm. destruct (rot_left_spec s p Hp) as (v & _ & Hm1).
    rewrite Hm in Hm1. injection Hm1 as Hs1.
    assert (Hv : v = true) by (destruct v; [reflexivity|congruence]).
    subst v.
    destruct (rot_right_spec s1 (set_rot p (prev_dir (rot p))))
      as (v' & Hiff & Hm2); [subst s1; reflexivity|].
    change (rot (set_rot p (prev_dir (rot p)))) with (prev_dir (rot p))
      in Hiff, Hm2.
    rewrite (turned_back_left p) in Hiff, Hm2.
    exact (accepted_then_back s s1 p (set_rot p (prev_dir (rot p))) true
             Hp Hfit Hs1 Hne v' _ Hiff Hm2).
Qed.

Lemma opposite_moves_undo_witness :
  move_right (set_current_piece held_state (Some (square_at 18 6)))
  = Ok held_state.
Proof.
  apply (proj1 (opposite_moves_undo held_state
                  (set_current_piece held_state (Some (square_at 18 6)))
                  held_state_reachable ltac:(simpl; lia) ltac:(simpl; lia)
                  eq_refl ltac:(discriminate))).
  vm_compute. reflexivity.
Defined.

(** ** [get_bits] *)

Lemma mapM_length {A B : Type} (f : A -> result B) (l : list A) :
  forall bs : list B, mapM f l = Ok bs -> length bs = length l.
Proof.
  induction l as [|a l IH]; intros bs; simpl.
  - intros [= <-]. reflexivity.
  - intros H. apply bind_Ok in H. destruct H as (b & _ & H).
    apply bind_Ok in H. destruct H as (bs' & Hbs & [= <-]).
    simpl. f_equal. apply IH. exact Hbs.
Qed.

Lemma testbit_above_bit_length (layer : N) (m : N) :
  bit_length layer <= Z.of_N m -> N.testbit layer m = false.
Proof.
  intros Hm. destruct (N.testbit layer m) eqn:Hb; [|reflexivity].
  apply testbit_bit_length in Hb. lia.
Qed.

(** X8.  [get_bits] raises [ValueError] when the anchor column is less
    than the width of the current variant (the shift count is negative).
    Otherwise it returns one row for each layer of the variant, and the
    cell at column [c] of row [i] is set exactly when bit [c - (col - w)]
    of layer [i] is set, so that every set bit lies in the [w] columns
    from [col - w] to [col - 1]. *)
Theorem get_bits_columns (p : Piece) :
  tables_ok p ->
  (col (loc p) < get_width p -> get_bits p = Raise ValueError) /\
  (get_width p <= col (loc p) ->
   exists bits : list N,
     get_bits p = Ok bits /\
     length bits = length (dget (shapes p) (rot p)) /\
     forall (i : nat) (layer x : N) (c : N),
       dget (shapes p) (rot p) !! i = Some layer ->
       bits !! i = Some x ->
       (N.testbit x c = true ->
        col (loc p) - get_width p <= Z.of_N c < col (loc p)) /\
       (col (loc p) - get_width p <= Z.of_N c ->
        N.testbit x c
        = N.testbit layer (Z.to_N (Z.of_N c - (col (loc p) - get_width p))))).
Proof.
  intros Ht. split.
  - intros Hlt. unfold get_bits.
    destruct (dget (shapes p) (rot p)) as [|layer shape] eqn:Hs.
    + pose proof (Ht (rot p)) as H. rewrite Hs in H. discriminate.
    + simpl. unfold py_shl at 1.
      destruct (col (loc p) - get_width p <? 0) eqn:Hn; [reflexivity|lia].
  - intros Hge. exists (bits_of p).
    split; [apply get_bits_ok; lia|].
    split; [unfold bits_of; apply length_map|].
    intros i layer x c Hi Hx. rewrite bits_of_lookup, Hi in Hx.
    injection Hx as <-.
    assert (Hlen : bit_length layer <= get_width p).
    { apply (shape_width_bound _ _ (Ht (rot p))).
      apply list_elem_of_In. eapply list_elem_of_lookup_2. exact Hi. }
    split.
    + intros Hb.
      destruct (N.lt_ge_cases c (Z.to_N (col (loc p) - get_width p)))
        as [Hlow|Hhigh].
      { rewrite N.shiftl_spec_low in Hb by exact Hlow. discriminate. }
      rewrite N.shiftl_spec_high' in Hb by exact Hhigh.
      apply testbit_bit_length in Hb. lia.
    + intros Hc. rewrite N.shiftl_spec_high' by lia. f_equal. lia.
Qed.

Lemma get_bits_columns_witness :
  exists bits : list N,
    get_bits (line_at 16 5) = Ok bits /\ length bits = 4%nat.
Proof.
  assert (Ht : tables_ok (line_at 16 5)) by (intros d; destruct d; reflexivity).
  destruct (proj2 (get_bits_columns (line_at 16 5) Ht)
              ltac:(vm_compute; discriminate))
    as (bits & Hbits & Hlen & _).
  exists bits. split; [exact Hbits|exact Hlen].
Defined.

(** ** [rotation] on empty and on all-zero sequences, and four times over *)

Lemma fold_left_max_zero (l : list N) (x : Z) :
  0 <= x -> Forall (fun y => y = 0%N) l ->
  fold_left Z.max (map bit_length l) x = x.
Proof.
  intros Hx Hall. revert x Hx.
  induction Hall as [|b l' Hb Hall IH]; intros x Hx; simpl; [reflexivity|].
  subst b. change (bit_length 0) with 0. rewrite Z.max_l by lia.
  apply IH. exact Hx.
Qed.

Lemma of_msb_zeros {A : Type} (l : list A) :
  of_msb 0 (map (fun _ => false) l) = 0%N.
Proof.
  unfold of_msb. induction l as [|a l IH]; simpl; [reflexivity|exact IH].
Qed.

Lemma rotation_zeros (shape : list N) :
  shape <> [] -> Forall (fun x => x = 0%N) shape -> rotation shape = Ok [0%N].
Proof.
  intros Hne Hall. unfold rotation.
  assert (Hw : py_max (map bit_length shape) = Ok 0).
  { destruct shape as [|a shape]; [congruence|]. simpl.
    apply Forall_cons_1 in Hall. destruct Hall as [-> Hall].
    change (bit_length 0) with 0.
    rewrite fold_left_max_zero by (lia || exact Hall). reflexivity. }
  rewrite Hw. cbn [bind].
  assert (Hrows : map (fun layer => format_b layer 0) shape
                  = map (fun _ => ["0"%char]) shape).
  { apply map_ext_in. intros layer Hl.
    rewrite Forall_forall in Hall.
    rewrite (Hall layer) by (apply list_elem_of_In; exact Hl). reflexivity. }
  rewrite Hrows. unfold zip_star.
  rewrite (min_length_const _ 1).
  - simpl. rewrite <- map_rev, map_map.
    change (map (fun _ : N => "0"%char) (rev shape))
      with (map (fun _ : N => bitc false) (rev shape)).
    rewrite <- (map_map (fun _ : N => false) bitc).
    rewrite int2_bits.
    + rewrite of_msb_zeros. reflexivity.
    + destruct shape as [|a shape]; [congruence|]. simpl.
      rewrite map_app. simpl. intros H. apply app_eq_nil in H.
      destruct H as [_ H]. discriminate.
  - destruct shape as [|a shape]; [congruence|]. simpl. intros H.
    apply app_eq_nil in H. destruct H as [_ H]. discriminate.
  - apply Forall_forall. intros r Hr. apply list_elem_of_In in Hr.
    apply in_rev, in_map_iff in Hr. destruct Hr as (x & <- & _). reflexivity.
Qed.

Lemma shape_width_nonneg (shape : list N) (w : Z) :
  shape_width shape = Ok w ->
  0 <= w /\ (w = 0 -> Forall (fun x => x = 0%N) shape).
Proof.
  intros Hw. pose proof (shape_width_bound shape w Hw) as Hb.
  assert (H0 : 0 <= w).
  { destruct shape as [|a shape]; [discriminate|].
    specialize (Hb a (or_introl eq_refl)). unfold bit_length in Hb. lia. }
  split; [exact H0|]. intros ->. apply Forall_forall. intros x Hx.
  apply list_elem_of_In in Hx. specialize (Hb x Hx).
  unfold bit_length in Hb. destruct x as [|q]; [reflexivity|].
  simpl in Hb. lia.
Qed.

(** X9.  [rotation] raises [ValueError] on the empty sequence (the maximum
    of no width) and on nothing else: every non-empty sequence has a
    rotation, which is never empty.  A sequence of empty rows, whatever its
    height, is rotated into the single empty row. *)
Theorem rotation_edge_cases :
  rotation [] = Raise ValueError /\
  (forall shape : list N,
      shape <> [] ->
      exists r : list N,
        rotation shape = Ok r /\ r <> [] /\
        (Forall (fun x => x = 0%N) shape -> r = [0%N])).
Proof.
  split; [reflexivity|]. intros shape Hne.
  destruct (shape_width shape) as [w|e] eqn:Hw.
  2:{ destruct shape; [congruence|discriminate]. }
  destruct (shape_width_nonneg shape w Hw) as (H0 & Hzero).
  destruct (Z.eq_dec w 0) as [->|Hw0].
  - exists [0%N]. split; [apply rotation_zeros; auto|].
    split; [discriminate|reflexivity].
  - eexists. split; [apply (rotation_rows shape w Hw); lia|].
    split.
    + destruct (Z.to_nat w) as [|n] eqn:Hn; [lia|]. simpl. discriminate.
    + intros Hall. pose proof (rotation_zeros shape Hne Hall) as Hz.
      rewrite (rotation_rows shape w Hw) in Hz by lia.
      injection Hz as Hz. exact Hz.
Qed.

Lemma rotation_edge_cases_witness :
  exists r : list N, rotation [0; 0; 0]%N = Ok r /\ r = [0%N].
Proof.
  destruct (proj2 rotation_edge_cases [0; 0; 0]%N ltac:(discriminate))
    as (r & Hr & _ & Hz).
  exists r. split; [exact Hr|]. apply Hz. repeat constructor.
Defined.

Lemma turned_length (shape : list N) (w : nat) : length (turned shape w) = w.
Proof. unfold turned. rewrite length_map, length_seq. reflexivity. Qed.

Lemma turned_nth (shape : list N) (w k : nat) :
  (k < w)%nat -> nth k (turned shape w) 0%N = turned_row shape w k.
Proof.
  intros Hk. apply nth_lookup_Some with (d := 0%N). unfold turned.
  rewrite list_lookup_fmap, lookup_seq_lt by exact Hk. reflexivity.
Qed.

Lemma turned_bit (shape : list N) (w k j : nat) :
  (k < w)%nat -> (j < length shape)%nat ->
  N.testbit (nth k (turned shape w) 0%N) (N.of_nat j)
  = N.testbit (nth j shape 0%N) (N.of_nat (w - 1 - k)).
Proof.
  intros Hk Hj. rewrite turned_nth by exact Hk. rewrite turned_row_testbit.
  apply Nat.ltb_lt in Hj. rewrite Hj. reflexivity.
Qed.

Lemma turned_bit_high (shape : list N) (w k j : nat) :
  (length shape <= j)%nat ->
  N.testbit (nth k (turned shape w) 0%N) (N.of_nat j) = false.
Proof.
  intros Hj. destruct (Nat.lt_ge_cases k w) as [Hk|Hk].
  - rewrite turned_nth by exact Hk. rewrite turned_row_testbit.
    apply Nat.ltb_ge in Hj. rewrite Hj. reflexivity.
  - rewrite nth_overflow by (rewrite turned_length; exact Hk).
    apply N.bits_0.
Qed.

(** Two turns are a half turn. *)
Lemma turned_twice_bit (shape : list N) (w k j : nat) :
  (k < length shape)%nat -> (j < w)%nat ->
  N.testbit (nth k (turned (turned shape w) (length shape)) 0%N) (N.of_nat j)
  = N.testbit (nth (length shape - 1 - k) shape 0%N) (N.of_nat (w - 1 - j)).
Proof.
  intros Hk Hj.
  rewrite turned_bit by (rewrite ?turned_length; assumption).
  rewrite turned_bit by lia. reflexivity.
Qed.

Lemma testbit_nth_bound (shape : list N) (w : Z) (k : nat) (m : N) :
  (forall x, In x shape -> bit_length x <= w) ->
  w <= Z.of_N m -> N.testbit (nth k shape 0%N) m = false.
Proof.
  intros Hb Hm. destruct (nth_in_or_default k shape 0%N) as [Hin| ->].
  - apply testbit_above_bit_length. specialize (Hb _ Hin). lia.
  - apply N.bits_0.
Qed.

(** Four turns give the sequence back. *)
Lemma turned_four_times (shape : list N) (w : nat) :
  (forall x, In x shape -> bit_length x <= Z.of_nat w) ->
  turned (turned (turned (turned shape w) (length shape)) w) (length shape)
  = shape.
Proof.
  intros Hb. set (h := length shape).
  set (T2 := turned (turned shape w) h).
  assert (HT2 : length T2 = h) by apply turned_length.
  apply (nth_ext _ _ 0%N 0%N); [apply turned_length|].
  intros k Hk. rewrite turned_length in Hk.
  apply N.bits_inj. intros m.
  rewrite <- (N2Nat.id m). set (j := N.to_nat m).
  destruct (Nat.lt_ge_cases j w) as [Hj|Hj].
  - pose proof (turned_twice_bit T2 w k j) as E. rewrite HT2 in E.
    fold T2. rewrite E by assumption. unfold T2, h.
    rewrite (turned_twice_bit shape w) by (fold h; lia).
    fold h. do 2 f_equal; lia.
  - rewrite turned_bit_high by (rewrite turned_length; exact Hj).
    symmetry. apply (testbit_nth_bound shape (Z.of_nat w)); [exact Hb|lia].
Qed.

Lemma width_exact (rows : list N) (h : nat) :
  (1 <= h)%nat ->
  (forall k j, (h <= j)%nat -> N.testbit (nth k rows 0%N) (N.of_nat j) = false) ->
  (exists k, (k < length rows)%nat /\
             N.testbit (nth k rows 0%N) (N.of_nat (h - 1)) = true) ->
  shape_width rows = Ok (Z.of_nat h).
Proof.
  intros Hh Hhigh (k & Hk & Hbit). unfold shape_width. apply py_max_eq.
  - intros x Hx. apply in_map_iff in Hx. destruct Hx as (y & <- & Hy).
    apply (In_nth _ _ 0%N) in Hy. destruct Hy as (i & _ & <-).
    apply bit_length_le. intros j Hj. apply Hhigh. exact Hj.
  - apply in_map_iff. exists (nth k rows 0%N). split; [|apply nth_In; exact Hk].
    apply Z.le_antisymm.
    + apply bit_length_le. intros j Hj. apply Hhigh. exact Hj.
    + apply testbit_bit_length in Hbit. lia.
Qed.

(** The three variants that [Piece.__init__] derives from a boxed shape,
    and the fourth rotation, which is the shape again. *)
Lemma rotation_stages (shape : list N) (w : Z) :
  shape_width shape = Ok w -> boxed shape w ->
  exists r1 r2 r3 : list N,
    rotation shape = Ok r1 /\ rotation r1 = Ok r2 /\
    rotation r2 = Ok r3 /\ rotation r3 = Ok shape /\
    shape_width r1 = Ok (Z.of_nat (length shape)) /\
    shape_width r2 = Ok w /\
    shape_width r3 = Ok (Z.of_nat (length shape)) /\
    Z.of_nat (length r1) = w /\ length r2 = length shape /\
    Z.of_nat (length r3) = w.
Proof.
  intros Hw ((H1 & (l0 & Hl0 & Hne0) & (i1 & l1 & Hl1 & Hb1) & _)
             & (top & Htop & Hnet)).
  set (h := length shape). set (W := Z.to_nat w).
  assert (HW : (1 <= W)%nat) by (unfold W; lia).
  assert (Hh : (1 <= h)%nat)
    by (pose proof (lookup_lt_Some _ _ _ Hl0); unfold h; lia).
  assert (Hb : forall x, In x shape -> bit_length x <= Z.of_nat W).
  { intros x Hx. pose proof (shape_width_bound shape w Hw x Hx).
    unfold W. lia. }
  set (T1 := turned shape W). set (T2 := turned T1 h).
  set (T3 := turned T2 W).
  assert (HT1 : length T1 = W) by apply turned_length.
  assert (HT2 : length T2 = h) by apply turned_length.
  assert (HT3 : length T3 = W) by apply turned_length.
  assert (Hw1 : shape_width T1 = Ok (Z.of_nat h)).
  { apply width_exact; [exact Hh| |].
    - intros k j Hj. apply turned_bit_high. exact Hj.
    - assert (Hc : Z.of_N (N.log2 top) < w).
      { pose proof (testbit_bit_length top _ (N.bit_log2 top Hnet)).
        pose proof (shape_width_bound shape w Hw top) as Hbt.
        assert (In top shape)
          by (apply list_elem_of_In; eapply list_elem_of_lookup_2; exact Htop).
        specialize (Hbt H0). lia. }
      exists (W - 1 - N.to_nat (N.log2 top))%nat. rewrite HT1.
      split; [lia|]. unfold T1. rewrite turned_bit by (fold h; lia).
      fold h. rewrite (nth_lookup_Some _ _ _ _ Htop).
      replace (W - 1 - (W - 1 - N.to_nat (N.log2 top)))%nat
        with (N.to_nat (N.log2 top)) by (unfold W; lia).
      rewrite N2Nat.id. apply N.bit_log2. exact Hnet. }
  assert (Hw2 : shape_width T2 = Ok (Z.of_nat W)).
  { apply width_exact; [exact HW| |].
    - intros k j Hj. apply turned_bit_high. rewrite HT1. exact Hj.
    - pose proof (lookup_lt_Some _ _ _ Hl1) as Hi1. fold h in Hi1.
      exists (h - 1 - i1)%nat. rewrite HT2. split; [lia|].
      unfold T2, T1, h. rewrite turned_twice_bit by (fold h; lia).
      fold h. replace (h - 1 - (h - 1 - i1))%nat with i1 by lia.
      rewrite (nth_lookup_Some _ _ _ _ Hl1).
      replace (W - 1 - (W - 1))%nat with 0%nat by lia. exact Hb1. }
  assert (Hw3 : shape_width T3 = Ok (Z.of_nat h)).
  { apply width_exact; [exact Hh| |].
    - intros k j Hj. apply turned_bit_high. rewrite HT2. exact Hj.
    - assert (Hc : Z.of_N (N.log2 l0) < w).
      { pose proof (testbit_bit_length l0 _ (N.bit_log2 l0 Hne0)).
        pose proof (shape_width_bound shape w Hw l0) as Hbt.
        assert (In l0 shape)
          by (apply list_elem_of_In; eapply list_elem_of_lookup_2; exact Hl0).
        specialize (Hbt H0). lia. }
      exists (N.to_nat (N.log2 l0)). rewrite HT3. split; [lia|].
      unfold T3. rewrite turned_bit by (rewrite ?HT2; lia).
      unfold T2, T1, h. rewrite turned_twice_bit by (fold h; lia).
      fold h. replace (h - 1 - (h - 1))%nat with 0%nat by lia.
      rewrite (nth_lookup_Some _ _ _ _ Hl0).
      replace (W - 1 - (W - 1 - N.to_nat (N.log2 l0)))%nat
        with (N.to_nat (N.log2 l0)) by (unfold W; lia).
      rewrite N2Nat.id. apply N.bit_log2. exact Hne0. }
  exists T1, T2, T3.
  split; [apply (rotation_rows shape w Hw H1)|].
  split.
  { rewrite (rotation_rows T1 (Z.of_nat h) Hw1) by lia.
    rewrite Nat2Z.id. reflexivity. }
  split.
  { rewrite (rotation_rows T2 (Z.of_nat W) Hw2) by lia.
    rewrite Nat2Z.id. reflexivity. }
  split.
  { rewrite (rotation_rows T3 (Z.of_nat h) Hw3) by lia.
    rewrite Nat2Z.id. f_equal. unfold T3, T2, T1, h.
    apply turned_four_times. exact Hb. }
  split; [exact Hw1|]. split; [rewrite Hw2; unfold W; f_equal; lia|].
  split; [exact Hw3|]. rewrite HT1, HT2, HT3. unfold W.
  split; [lia|]. split; [reflexivity|lia].
Qed.

(** X10.  On a shape whose bounding box is tight on all four sides (its
    width is the maximum bit length of its rows; the bottom row, the top
    row, bit 0 and the highest bit are each occupied somewhere), applying
    [rotation] four times in a row raises nothing and gives the shape back;
    the intermediate results have heights w, h, w and widths h, w, h. *)
Theorem rotation_four_times (shape : list N) (w : Z) :
  shape_width shape = Ok w -> boxed shape w ->
  (r1 <- rotation shape ;; r2 <- rotation r1 ;;
   r3 <- rotation r2 ;; rotation r3) = Ok shape /\
  exists r1 r2 r3 : list N,
    rotation shape = Ok r1 /\ rotation r1 = Ok r2 /\ rotation r2 = Ok r3 /\
    Z.of_nat (length r1) = w /\ length r2 = length shape /\
    Z.of_nat (length r3) = w /\
    shape_width r1 = Ok (Z.of_nat (length shape)) /\
    shape_width r2 = Ok w /\
    shape_width r3 = Ok (Z.of_nat (length shape)).
Proof.
  intros Hw Hbox.
  destruct (rotation_stages shape w Hw Hbox)
    as (r1 & r2 & r3 & H1 & H2 & H3 & H4 & W1 & W2 & W3 & L1 & L2 & L3).
  split.
  - rewrite H1. cbn [bind]. rewrite H2. cbn [bind]. rewrite H3. cbn [bind].
    exact H4.
  - exists r1, r2, r3. repeat (split; [assumption|]). assumption.
Qed.

Lemma tee_boxed : boxed [2; 7]%N 3.
Proof.
  split; [apply snugb_snug; reflexivity|].
  exists 7%N. split; [reflexivity|discriminate].
Qed.

Lemma rotation_four_times_witness :
  (r1 <- rotation [2; 7]%N ;; r2 <- rotation r1 ;;
   r3 <- rotation r2 ;; rotation r3) = Ok [2; 7]%N.
Proof.
  exact (proj1 (rotation_four_times [2; 7]%N 3 eq_refl tee_boxed)).
Defined.

(** ** The tables that [Piece.__init__] builds *)

(** X11.  [Piece.__init__] on a shape with a tight bounding box, [w] wide
    and [h] high, raises nothing; in the piece it builds, [rotation] maps
    the variant stored under each direction to the variant stored under
    the direction that [rot_left] goes to (all the way round: the variant
    under [E] back to the given shape under [N]); the [widths] table holds
    w, h, w, h for N, E, S, W and the [heights] table h, w, h, w, so the
    height of a variant is the width of its neighbours. *)
Theorem Piece_init_tables (l : Loc) (shape : list N) (w : Z) :
  shape_width shape = Ok w -> boxed shape w ->
  exists p : Piece,
    Piece_init l shape = Ok p /\
    (forall d : Dir,
        rotation (dget (shapes p) d) = Ok (dget (shapes p) (prev_dir d))) /\
    (forall d : Dir,
        dget (heights p) d = Z.of_nat (length (dget (shapes p) d)) /\
        dget (heights p) d = dget (widths p) (next_dir d) /\
        dget (heights p) d = dget (widths p) (prev_dir d)) /\
    widths p = {| atN := w; atE := Z.of_nat (length shape);
                  atS := w; atW := Z.of_nat (length shape) |}.
Proof.
  intros Hw Hbox.
  destruct (rotation_stages shape w Hw Hbox)
    as (r1 & r2 & r3 & H1 & H2 & H3 & H4 & W1 & W2 & W3 & L1 & L2 & L3).
  unfold Piece_init.
  rewrite H1. cbn [bind]. rewrite H2. cbn [bind]. rewrite H3.
  cbn [bind atN atE atS atW]. rewrite Hw, W1, W2, W3. cbn [bind].
  eexists. split; [reflexivity|]. cbn [shapes widths heights].
  split; [|split].
  - intros d. destruct d; cbn [dget prev_dir atN atE atS atW]; assumption.
  - intros d. destruct d; cbn [dget prev_dir next_dir atN atE atS atW];
      rewrite ?L2; repeat split; lia.
  - reflexivity.
Qed.

Lemma Piece_init_tables_witness :
  exists p : Piece,
    Piece_init (mkLoc 18 5) [2; 7]%N = Ok p /\
    (forall d : Dir,
        rotation (dget (shapes p) d) = Ok (dget (shapes p) (prev_dir d))) /\
    (forall d : Dir,
        dget (heights p) d = Z.of_nat (length (dget (shapes p) d)) /\
        dget (heights p) d = dget (widths p) (next_dir d) /\
        dget (heights p) d = dget (widths p) (prev_dir d)) /\
    widths p = {| atN := 3; atE := 2; atS := 3; atW := 2 |}.
Proof.
  exact (Piece_init_tables (mkLoc 18 5) [2; 7]%N 3 eq_refl tee_boxed).
Defined.

(** ** Locked cells stay inside the columns of the board *)

Lemma bit_length_bound (x : N) (w : Z) :
  0 <= w ->
  (bit_length x <= w <->
   forall m : N, w <= Z.of_N m -> N.testbit x m = false).
Proof.
  intros Hw. split.
  - intros Hb m Hm. apply testbit_above_bit_length. lia.
  - intros Hbits. replace w with (Z.of_nat (Z.to_nat w)) by lia.
    apply bit_length_le. intros j Hj. apply Hbits. lia.
Qed.

Lemma bit_length_lor (x y : N) (w : Z) :
  0 <= w -> bit_length x <= w -> bit_length y <= w ->
  bit_length (N.lor x y) <= w.
Proof.
  intros Hw Hx Hy. apply bit_length_bound; [exact Hw|]. intros m Hm.
  rewrite N.lor_spec.
  rewrite (proj1 (bit_length_bound x w Hw) Hx m Hm).
  rewrite (proj1 (bit_length_bound y w Hw) Hy m Hm). reflexivity.
Qed.

Lemma bit_length_shiftl (layer : N) (n g w : Z) :
  0 <= n -> bit_length layer <= g -> n + g <= w ->
  bit_length (N.shiftl layer (Z.to_N n)) <= w.
Proof.
  intros Hn Hg Hw.
  assert (0 <= bit_length layer) by (unfold bit_length; lia).
  apply bit_length_bound; [lia|]. intros m Hm.
  rewrite N.shiftl_spec_high' by lia.
  apply testbit_above_bit_length. lia.
Qed.

Lemma stop_piece_loop_within (w : Z) (shape : list N) :
  0 <= w ->
  forall (b : list N) (r : Z) (merged : list N),
    rows_within w b -> rows_within w shape ->
    _stop_piece_loop b r shape = Ok merged -> rows_within w merged.
Proof.
  intros Hw. induction shape as [|layer shape IH]; intros b r merged Hb Hs Hl.
  - simpl in Hl. injection Hl as <-. exact Hb.
  - apply Forall_cons_1 in Hs. destruct Hs as (Hlayer & Hs).
    simpl in Hl. destruct (r <? len b).
    + unfold getitem, setitem in Hl.
      destruct (py_index b r) as [k|]; cbn [bind] in Hl; [|discriminate].
      destruct (b !! k) as [x|] eqn:Hk; cbn [bind] in Hl; [|discriminate].
      eapply IH; [|exact Hs|exact Hl].
      apply Forall_insert; [exact Hb|].
      apply bit_length_lor; [exact Hw| |exact Hlayer].
      exact (Forall_lookup_1 _ _ _ _ Hb Hk).
    + eapply IH; [|exact Hs|exact Hl].
      apply Forall_app. split; [exact Hb|]. constructor; [exact Hlayer|constructor].
Qed.

Lemma bits_within (p : Piece) (w : Z) (bits : list N) :
  wf_piece p -> col (loc p) <= w -> get_bits p = Ok bits ->
  rows_within w bits.
Proof.
  intros Hwf Hcol Hbits.
  destruct (wf_piece_snug p Hwf (rot p)) as ((_ & (l0 & Hl0 & _) & _) & _).
  assert (Hne : dget (shapes p) (rot p) <> [])
    by (intros E; rewrite E in Hl0; discriminate).
  pose proof (mapM_py_shl_Ok _ _ _ Hne Hbits) as Hn.
  rewrite (get_bits_ok p Hn) in Hbits. injection Hbits as <-.
  apply List.Forall_forall. intros x Hx. unfold bits_of in Hx.
  apply in_map_iff in Hx. destruct Hx as (layer & <- & Hin).
  apply (bit_length_shiftl layer _ (get_width p)); [exact Hn| |lia].
  apply (shape_width_bound _ _ (wf_piece_tables p Hwf (rot p)) layer Hin).
Qed.

Lemma stop_piece_within (s s' : Tetris) (choice : list N) :
  Sound s -> In choice SHAPES_values ->
  rows_within (width s) (board s) -> _stop_piece s choice = Ok s' ->
  rows_within (width s') (board s').
Proof.
  intros HS Hin Hb Hstop.
  destruct (sound_piece s HS) as (p & Hp & Hwf).
  destruct (stop_piece_Sound s s' choice HS Hin Hstop) as (_ & Hw & _).
  destruct (stop_piece_inversion s s' p choice Hp Hin Hstop)
    as (bits & merged & Hbits & Hloop & Hboard).
  rewrite Hw, Hboard.
  assert (Hm : rows_within (width s) merged).
  { apply (stop_piece_loop_within (width s) bits
             (base_width s (sound_base s HS))
             (board s) (row (loc p)) merged Hb); [|exact Hloop].
    apply (bits_within p (width s) bits Hwf (sound_col s HS p Hp) Hbits). }
  apply List.Forall_forall. intros x Hx. apply filter_keeps in Hx.
  destruct Hx as (Hx & _).
  exact (proj1 (List.Forall_forall _ _) Hm x Hx).
Qed.

Lemma move_down_within (s s' : Tetris) (choice : list N) (v : bool) :
  Sound s -> In choice SHAPES_values ->
  rows_within (width s) (board s) -> move_down s choice = Ok (v, s') ->
  rows_within (width s') (board s').
Proof.
  intros HS Hin Hb Hmd.
  destruct (sound_piece s HS) as (p & Hp & _).
  destruct (move_down_spec s p choice Hp) as ([|] & _ & E); rewrite E in Hmd.
  - injection Hmd as _ <-. exact Hb.
  - destruct (_stop_piece s choice) as [s3|] eqn:Hstop;
      cbn [bind] in Hmd; [|discriminate].
    injection Hmd as _ <-.
    exact (stop_piece_within s s3 choice HS Hin Hb Hstop).
Qed.

Lemma drop_loop_within (fuel : nat) (choice : list N) :
  In choice SHAPES_values ->
  forall s s' : Tetris,
    Sound s -> rows_within (width s) (board s) ->
    drop_loop fuel s choice = Some (Ok s') ->
    rows_within (width s') (board s').
Proof.
  intros Hin. induction fuel as [|fuel IH]; intros s s' HS Hb Hd;
    simpl in Hd; [discriminate|].
  destruct (move_down s choice) as [[[|] s1]|] eqn:Hmd.
  - destruct (move_down_Sound s s1 choice true HS Hin Hmd) as (HS1 & _).
    apply (IH s1 s' HS1); [|exact Hd].
    exact (move_down_within s s1 choice true HS Hin Hb Hmd).
  - injection Hd as <-.
    exact (move_down_within s s1 choice false HS Hin Hb Hmd).
  - discriminate.
Qed.

Lemma unlocked_within (s s' : Tetris) :
  unlocked s s' -> rows_within (width s) (board s) ->
  rows_within (width s') (board s').
Proof. intros (Hw & _ & _ & _ & Hb & _) H. rewrite Hw, Hb. exact H. Qed.

Lemma step_within (s s' : Tetris) (a : action) :
  Sound s -> legal a -> step s a = Some (Ok s') ->
  rows_within (width s) (board s) -> rows_within (width s') (board s').
Proof.
  intros HS Hlegal Hstep Hb.
  pose proof (step_frame s s' a HS Hlegal Hstep) as Hf.
  destruct a as [c| | |fuel c| | |c|c];
    try exact (unlocked_within s s' Hf Hb).
  - simpl in Hstep. destruct (move_down s c) as [[v s1]|] eqn:Hmd;
      cbn [bind] in Hstep; [|discriminate].
    injection Hstep as <-.
    exact (move_down_within s s1 c v HS Hlegal Hb Hmd).
  - exact (drop_loop_within fuel c Hlegal s s' HS Hb Hstep).
  - simpl in Hstep. unfold restart in Hstep.
    destruct (Tetris_init_Sound (can_hold s) 20 10 0 c ltac:(lia) Hlegal)
      as (s1 & Hi & _ & _ & _ & _ & Hb1 & _).
    rewrite Hi in Hstep. injection Hstep as <-. rewrite Hb1. constructor.
Qed.

Lemma reachable_within (s : Tetris) :
  reachable s -> rows_within (width s) (board s).
Proof.
  induction 1 as [h w lvl c s Hw Hin Hi | s a s' Hr IH Hlegal Hstep].
  - destruct (Tetris_init_Sound None h w lvl c Hw Hin)
      as (s1 & Hi1 & _ & _ & _ & _ & Hb1 & _).
    rewrite Hi1 in Hi. injection Hi as <-. rewrite Hb1. constructor.
  - exact (step_within s s' a (reachable_Sound s Hr) Hlegal Hstep IH).
Qed.

Lemma forallb_false_ex {A : Type} (f : A -> bool) (l : list A) :
  forallb f l = false -> exists x, In x l /\ f x = false.
Proof.
  induction l as [|a l IH]; simpl; [discriminate|].
  destruct (f a) eqn:Hfa; simpl.
  - intros H. destruct (IH H) as (x & Hx & Hfx). exists x. split; [right|]; assumption.
  - intros _. exists a. split; [left; reflexivity|exact Hfa].
Qed.

Lemma free_column (x : N) (w : Z) :
  0 <= w -> bit_length x <= w -> x <> (2 ^ Z.to_N w - 1)%N ->
  exists c : Z, 0 <= c < w /\ N.testbit x (Z.to_N c) = false.
Proof.
  intros Hw Hb Hne.
  destruct (forallb (fun k => N.testbit x (N.of_nat k)) (seq 0 (Z.to_nat w)))
    eqn:Hall.
  - exfalso. apply Hne. rewrite <- N.pred_sub, <- N.ones_equiv.
    apply N.bits_inj. intros m.
    destruct (N.lt_ge_cases m (Z.to_N w)) as [Hm|Hm].
    + rewrite N.ones_spec_low by exact Hm.
      rewrite forallb_forall in Hall.
      specialize (Hall (N.to_nat m)). rewrite N2Nat.id in Hall.
      apply Hall. apply in_seq. lia.
    + rewrite N.ones_spec_high by exact Hm.
      apply testbit_above_bit_length. lia.
  - apply forallb_false_ex in Hall. destruct Hall as (k & Hk & Hbit).
    apply in_seq in Hk. exists (Z.of_nat k). split; [lia|].
    replace (Z.to_N (Z.of_nat k)) with (N.of_nat k) by lia. exact Hbit.
Qed.

(** X12.  In every state of every session, on every board, a locked cell
    lies in a column of the board: no row bitmask of [board] has a bit at
    position [width] or above.  And since no stored row is full, every
    stored row has a free cell in one of the columns [0 .. width-1]. *)
Theorem locked_cells_in_columns (s : Tetris) :
  reachable s ->
  (forall r c : Z, locked (board s) r c -> 0 <= c < width s) /\
  (forall r : Z, 0 <= r < len (board s) ->
     exists c : Z, 0 <= c < width s /\ ~ locked (board s) r c).
Proof.
  intros Hr. pose proof (reachable_within s Hr) as Hb.
  pose proof (sound_base s (reachable_Sound s Hr)) as HB.
  pose proof (base_width s HB) as Hw.
  split.
  - intros r c (_ & Hc & x & Hx & Hbit). split; [exact Hc|].
    pose proof (Forall_lookup_1 _ _ _ _ Hb Hx) as Hbl.
    apply testbit_bit_length in Hbit. simpl in Hbl. lia.
  - intros r Hrow.
    destruct (lookup_lt_is_Some_2 (board s) (Z.to_nat r)) as (x & Hx);
      [unfold len in Hrow; lia|].
    pose proof (Forall_lookup_1 _ _ _ _ Hb Hx) as Hbl. simpl in Hbl.
    pose proof (Forall_lookup_1 _ _ _ _ (base_rows s HB) Hx) as Hne.
    simpl in Hne. rewrite (base_full s HB) in Hne.
    destruct (free_column x (width s) Hw Hbl Hne) as (c & Hc & Hbit).
    exists c. split; [exact Hc|].
    intros (_ & _ & y & Hy & Hbit'). rewrite Hx in Hy. injection Hy as <-.
    rewrite Hbit in Hbit'. discriminate.
Qed.

Lemma locked_cells_in_columns_witness :
  (forall r c : Z, locked (board held_state) r c -> 0 <= c < 10) /\
  (forall r : Z, 0 <= r < 4 ->
     exists c : Z, 0 <= c < 10 /\ ~ locked (board held_state) r c).
Proof.
  exact (locked_cells_in_columns held_state held_state_reachable).
Defined.

(** ** [hold] between two locks *)

Lemma hold_used_noop (s : Tetris) (c : list N) :
  hold_used s -> hold s c = Ok s.
Proof.
  intros (_ & (hp & Hhp) & Hch). unfold hold, read_can_hold.
  rewrite Hhp, Hch. cbn [bind]. rewrite (set_can_hold_same s _ Hch).
  reflexivity.
Qed.

Lemma hold_used_tentative (s s' : Tetris) (p' : Piece) (v : bool) :
  hold_used s -> s' = (if v then set_current_piece s (Some p') else s) ->
  hold_used s' /\ hold_piece s' = hold_piece s /\ board s' = board s.
Proof.
  intros Hu ->. destruct v; [|repeat split; try apply Hu].
  destruct Hu as (_ & Hhp & Hch).
  split; [|split; reflexivity].
  split; [exists p'; reflexivity|]. split; [exact Hhp|exact Hch].
Qed.

Lemma calm_hold_used (s s' : Tetris) :
  hold_used s -> calm s s' ->
  hold_used s' /\ hold_piece s' = hold_piece s /\ board s' = board s.
Proof.
  intros Hu Hc. pose proof Hu as ((p & Hp) & _).
  destruct Hc as [H|[H|[H|[H|[(c & H)|(c & H)]]]]].
  - destruct (move_left_spec s p Hp) as (v & _ & E). rewrite E in H.
    injection H as H. exact (hold_used_tentative s s' _ v Hu (eq_sym H)).
  - destruct (move_right_spec s p Hp) as (v & _ & E). rewrite E in H.
    injection H as H. exact (hold_used_tentative s s' _ v Hu (eq_sym H)).
  - destruct (rot_right_spec s p Hp) as (v & _ & E). rewrite E in H.
    injection H as H. exact (hold_used_tentative s s' _ v Hu (eq_sym H)).
  - destruct (rot_left_spec s p Hp) as (v & _ & E). rewrite E in H.
    injection H as H. exact (hold_used_tentative s s' _ v Hu (eq_sym H)).
  - rewrite (hold_used_noop s c Hu) in H. injection H as <-.
    split; [exact Hu|split; reflexivity].
  - destruct (move_down_spec s p c Hp) as ([|] & _ & E); rewrite E in H.
    + injection H as H.
      exact (hold_used_tentative s s' _ true Hu (eq_sym H)).
    + destruct (_stop_piece s c); cbn [bind] in H; discriminate.
Qed.

Lemma quiet_hold_used (s s' : Tetris) :
  quiet s s' -> hold_used s ->
  hold_used s' /\ hold_piece s' = hold_piece s /\ board s' = board s.
Proof.
  induction 1 as [s|s s1 s' Hc Hq IH]; intros Hu.
  - split; [exact Hu|split; reflexivity].
  - destruct (calm_hold_used s s1 Hu Hc) as (Hu1 & Hh1 & Hb1).
    destruct (IH Hu1) as (Hu' & Hh' & Hb').
    split; [exact Hu'|]. split; congruence.
Qed.

(** X13.  Hold works at most once between two locks.  After a [hold] in any
    state of a session (whether or not a piece was held before), and after
    any number of further calls none of which locks a piece (moves to the
    side, rotations, [move_down] calls that returned [True], more [hold]
    calls), a [hold] changes nothing at all, whatever shape would be drawn;
    the held piece and the board are still those the first [hold] left. *)
Theorem hold_once_per_lock (s s1 s2 : Tetris) (c c' : list N) :
  reachable s -> In c SHAPES_values ->
  hold s c = Ok s1 -> quiet s1 s2 ->
  hold s2 c' = Ok s2 /\
  can_hold s2 = Some false /\
  hold_piece s2 = hold_piece s1 /\ hold_piece s2 <> None /\
  board s2 = board s.
Proof.
  intros Hr Hin Hh Hq.
  pose proof (reachable_Sound s Hr) as HS.
  destruct (sound_piece s HS) as (p & Hp & _).
  destruct (hold_cases s c HS Hin)
    as (s1' & Hh1 & HS1 & Hch1 & Hb1 & _ & _ & Hcase).
  rewrite Hh in Hh1. injection Hh1 as <-.
  assert (Hu : hold_used s1).
  { split; [destruct (sound_piece s1 HS1) as (p1 & Hp1 & _); exists p1; exact Hp1|].
    split; [|exact Hch1].
    destruct (hold_piece s) as [hp|] eqn:Hhp.
    - destruct (can_hold s) as [[|]|].
      + exists p. rewrite <- Hp. apply Hcase.
      + subst s1. exists hp. exact Hhp.
      + exists p. rewrite <- Hp. apply Hcase.
    - exists p. rewrite <- Hp. apply Hcase. }
  destruct (quiet_hold_used s1 s2 Hq Hu) as (Hu2 & Hh2 & Hb2).
  split; [exact (hold_used_noop s2 c' Hu2)|].
  split; [apply Hu2|]. split; [exact Hh2|].
  split; [destruct Hu2 as (_ & (hp & E) & _); rewrite E; discriminate|].
  rewrite Hb2. exact Hb1.
Qed.

Lemma hold_once_per_lock_witness :
  exists s1 s2 : Tetris,
    hold floor_state_locked [3; 3]%N = Ok s1 /\
    move_left s1 = Ok s2 /\
    current_piece s2 <> current_piece s1 /\
    hold s2 [2; 7]%N = Ok s2.
Proof.
  set (s1 := {| width := 10; height := 20; board := [24; 24]%N;
                FULL_ROW := 1023%N;
                current_piece := Some (square_at 18 5);
                hold_piece := Some (square_at 18 5);
                cleared_lines := 0; starting_level := 0;
                game_over := false; can_hold := Some false |}).
  set (s2 := set_current_piece s1 (Some (square_at 18 6))).
  assert (H1 : hold floor_state_locked [3; 3]%N = Ok s1)
    by (vm_compute; reflexivity).
  assert (H2 : move_left s1 = Ok s2) by (vm_compute; reflexivity).
  exists s1, s2. split; [exact H1|]. split; [exact H2|].
  split; [discriminate|].
  exact (proj1 (hold_once_per_lock floor_state_locked s1 s2
                  [3; 3]%N [2; 7]%N floor_state_locked_reachable
                  square_in_SHAPES H1
                  (quiet_step s1 s2 s2 (or_introl H2) (quiet_refl s2)))).
Defined.

(** ** What [Tetris.__str__] and [Piece.__str__] show *)

Lemma get_row_num_bits_spec (bits : list N) (cpr r : Z) (layer : N) :
  get_row_num_bits bits cpr r layer = Ok (N.lor layer (piece_row bits cpr r)).
Proof.
  unfold get_row_num_bits, piece_row.
  destruct (0 <=? r - cpr) eqn:H0; simpl.
  - apply Z.leb_le in H0. destruct (r - cpr <? len bits) eqn:H1.
    + apply Z.ltb_lt in H1.
      destruct (getitem_in_range bits (r - cpr) (conj H0 H1)) as (x & Hx & Hg).
      rewrite Hg. cbn [bind]. rewrite (nth_lookup_Some _ _ 0%N _ Hx).
      reflexivity.
    + apply Z.ltb_ge in H1. unfold len in H1.
      rewrite nth_overflow by lia. rewrite N.lor_0_r. reflexivity.
  - rewrite N.lor_0_r. reflexivity.
Qed.

Lemma mapM_pure {A B : Type} (f : A -> result B) (g : A -> B) (l : list A) :
  (forall a, f a = Ok (g a)) -> mapM f l = Ok (map g l).
Proof.
  intros H. induction l as [|a l IH]; simpl; [reflexivity|].
  rewrite H. cbn [bind]. rewrite IH. reflexivity.
Qed.

Lemma enumerate_lookup_from {A : Type} (l : list A) :
  forall (k i : nat),
    combine (map Z.of_nat (seq k (length l))) l !! i
    = option_map (fun x => (Z.of_nat (k + i), x)) (l !! i).
Proof.
  induction l as [|a l IH]; intros k i; [reflexivity|].
  destruct i as [|i]; simpl.
  - rewrite Nat.add_0_r. reflexivity.
  - rewrite IH. replace (S k + i)%nat with (k + S i)%nat by lia. reflexivity.
Qed.

Lemma enumerate_lookup {A : Type} (l : list A) (i : nat) :
  enumerate l !! i = option_map (fun x => (Z.of_nat i, x)) (l !! i).
Proof. apply (enumerate_lookup_from l 0 i). Qed.

Lemma enumerate_length {A : Type} (l : list A) :
  length (enumerate l) = length l.
Proof.
  unfold enumerate. rewrite length_combine, length_map, length_seq. lia.
Qed.

Lemma bitc_one (b : bool) :
  (bitc b = "1"%char <-> b = true) /\
  (bitc b = "1"%char \/ bitc b = "0"%char).
Proof. destruct b; simpl; split; try tauto; split; congruence. Qed.

Lemma shown_rows_lookup (b : list N) (h : Z) (i : nat) (layer : N) :
  (repeat 0%N (Z.to_nat (h - len b)) ++ rev b) !! i = Some layer ->
  (layer = 0%N \/ In layer b) /\
  forall c : Z,
    0 <= c ->
    (N.testbit layer (Z.to_N c) = true
     <-> locked b (Z.max h (len b) - 1 - Z.of_nat i) c).
Proof.
  intros Hl. set (n := Z.to_nat (h - len b)) in *.
  assert (HL : Z.max h (len b) = Z.of_nat n + len b) by (unfold n; lia).
  rewrite HL. pose proof (lookup_lt_Some _ _ _ Hl) as Hi.
  rewrite length_app, repeat_length, length_rev in Hi.
  destruct (Nat.lt_ge_cases i n) as [Hlt|Hge].
  - apply (nth_lookup_Some _ _ 0%N) in Hl.
    rewrite app_nth1 in Hl by (rewrite repeat_length; exact Hlt).
    rewrite nth_repeat in Hl. subst layer.
    split; [left; reflexivity|]. intros c Hc. rewrite N.bits_0.
    split; [discriminate|]. intros (_ & _ & x & Hx & _). exfalso.
    apply lookup_lt_Some in Hx. unfold len in Hx. lia.
  - rewrite lookup_app_r in Hl by (rewrite repeat_length; exact Hge).
    rewrite repeat_length in Hl.
    pose proof (nth_lookup_Some _ _ 0%N _ Hl) as Hn.
    rewrite rev_nth in Hn by lia.
    assert (Hidx : Z.to_nat (Z.of_nat n + len b - 1 - Z.of_nat i)
                   = (length b - S (i - n))%nat) by (unfold len; lia).
    assert (Hb : b !! (length b - S (i - n))%nat = Some layer).
    { destruct (lookup_lt_is_Some_2 b (length b - S (i - n))%nat) as (y & Hy);
        [lia|].
      rewrite (nth_lookup_Some _ _ 0%N _ Hy) in Hn. subst y. exact Hy. }
    split.
    { right. apply list_elem_of_In. eapply list_elem_of_lookup_2. exact Hb. }
    intros c Hc. split.
    + intros Hbit. split; [unfold len; lia|]. split; [exact Hc|].
      exists layer. rewrite Hidx. split; [exact Hb|exact Hbit].
    + intros (_ & _ & x & Hx & Hbit). rewrite Hidx, Hb in Hx.
      injection Hx as <-. exact Hbit.
Qed.

Lemma piece_row_occupied (p : Piece) (r c : Z) :
  0 <= col (loc p) - get_width p -> 0 <= c ->
  (N.testbit (piece_row (bits_of p) (row (loc p)) r) (Z.to_N c) = true
   <-> occupied p r c).
Proof.
  intros Hn Hc. unfold piece_row, occupied.
  set (n := col (loc p) - get_width p) in *.
  split.
  - destruct (0 <=? r - row (loc p)) eqn:H0;
      [|rewrite N.bits_0; discriminate].
    apply Z.leb_le in H0. intros Hbit.
    destruct (bits_of p !! Z.to_nat (r - row (loc p))) as [x|] eqn:Hx.
    + rewrite (nth_lookup_Some _ _ 0%N _ Hx) in Hbit.
      rewrite bits_of_lookup in Hx.
      destruct (dget (shapes p) (rot p) !! Z.to_nat (r - row (loc p)))
        as [layer|] eqn:Hlayer; [|discriminate].
      simpl in Hx. injection Hx as <-. fold n in Hbit.
      exists (Z.to_nat (r - row (loc p))), layer.
      split; [exact Hlayer|]. split; [lia|].
      destruct (Z.lt_ge_cases c n) as [Hlt|Hge].
      * rewrite N.shiftl_spec_low in Hbit by lia. discriminate.
      * split; [lia|]. rewrite N.shiftl_spec_high' in Hbit by lia.
        replace (Z.to_N (c - n)) with (Z.to_N c - Z.to_N n)%N by lia.
        exact Hbit.
    + rewrite nth_overflow in Hbit
        by (apply lookup_ge_None_1 in Hx; exact Hx).
      rewrite N.bits_0 in Hbit. discriminate.
  - intros (i & layer & Hlayer & -> & Hcn & Hbit).
    replace (row (loc p) + Z.of_nat i - row (loc p)) with (Z.of_nat i) by lia.
    replace (0 <=? Z.of_nat i) with true by (symmetry; apply Z.leb_le; lia).
    rewrite Nat2Z.id.
    assert (Hx : bits_of p !! i = Some (N.shiftl layer (Z.to_N n)))
      by (rewrite bits_of_lookup, Hlayer; reflexivity).
    rewrite (nth_lookup_Some _ _ 0%N _ Hx).
    rewrite N.shiftl_spec_high' by lia.
    replace (Z.to_N c - Z.to_N n)%N with (Z.to_N (c - n)) by lia.
    exact Hbit.
Qed.

Lemma piece_row_within (bits : list N) (w cpr r : Z) :
  0 <= w -> rows_within w bits -> bit_length (piece_row bits cpr r) <= w.
Proof.
  intros Hw Hb. unfold piece_row.
  destruct (0 <=? r - cpr); [|exact Hw].
  destruct (nth_in_or_default (Z.to_nat (r - cpr)) bits 0%N) as [Hin| ->];
    [|exact Hw].
  exact (proj1 (List.Forall_forall _ _) Hb _ Hin).
Qed.

(** X14.  On a board of at least 4 rows and 6 columns, in every state of a
    session, [Tetris.__str__] raises nothing and returns
    max(height, len(board)) lines of exactly [width] characters, each '0'
    or '1'.  Column [c] is the character at position [width - 1 - c] of a
    line (column 0 is the rightmost character), and in line [i] it is '1'
    exactly when the cell is locked in board row
    max(height, len(board)) - 1 - i or covered by the current piece in row
    height - 1 - i.  The two row numbers coincide as long as the board has
    at most [height] rows. *)
Theorem Tetris_str_shows (s : Tetris) (p : Piece) :
  reachable s -> 4 <= height s -> 6 <= width s ->
  current_piece s = Some p ->
  exists lines : list (list ascii),
    Tetris_str_lines s = Ok lines /\
    Tetris_str s = Ok (join "010"%char lines) /\
    Z.of_nat (length lines) = Z.max (height s) (len (board s)) /\
    forall (i : nat) (line : list ascii),
      lines !! i = Some line ->
      length line = Z.to_nat (width s) /\
      forall c : Z,
        0 <= c < width s ->
        (nth (Z.to_nat (width s - 1 - c)) line "0"%char = "1"%char
         <-> locked (board s)
                    (Z.max (height s) (len (board s)) - 1 - Z.of_nat i) c
             \/ occupied p (height s - 1 - Z.of_nat i) c) /\
        (nth (Z.to_nat (width s - 1 - c)) line "0"%char = "1"%char \/
         nth (Z.to_nat (width s - 1 - c)) line "0"%char = "0"%char).
Proof.
  intros Hr Hh Hw Hp.
  pose proof (reachable_Sound s Hr) as HS.
  pose proof (reachable_Inv s Hr Hh Hw) as HI.
  destruct (inv_piece s HI) as (p' & Hp' & _ & Hcol & Hn).
  rewrite Hp in Hp'. injection Hp' as <-.
  destruct (sound_piece s HS) as (p' & Hp' & Hwf).
  rewrite Hp in Hp'. injection Hp' as <-.
  pose proof (reachable_within s Hr) as Hb.
  pose proof (bits_within p (width s) (bits_of p) Hwf Hcol (get_bits_ok p Hn))
    as Hbits.
  assert (Hlines : Tetris_str_lines s
    = Ok (map (fun il : Z * N =>
                 format_b (N.lor (snd il)
                                 (piece_row (bits_of p) (row (loc p))
                                            (height s - fst il - 1)))
                          (width s))
              (enumerate (repeat 0%N (Z.to_nat (height s - len (board s)))
                          ++ rev (board s))))).
  { unfold Tetris_str_lines, the_piece. rewrite Hp. cbn [bind].
    rewrite (get_bits_ok p Hn). cbn [bind].
    apply mapM_pure. intros il. rewrite get_row_num_bits_spec. reflexivity. }
  eexists. split; [exact Hlines|].
  split; [unfold Tetris_str; rewrite Hlines; reflexivity|].
  split.
  { rewrite length_map, enumerate_length, length_app, repeat_length, length_rev.
    unfold len. lia. }
  intros i line Hl. rewrite list_lookup_fmap, enumerate_lookup in Hl.
  destruct ((repeat 0%N (Z.to_nat (height s - len (board s)))
             ++ rev (board s)) !! i) as [layer|] eqn:Hrow; [|discriminate].
  simpl in Hl. injection Hl as <-.
  destruct (shown_rows_lookup _ _ _ _ Hrow) as (Hin & Hlocked).
  assert (Hx : bit_length
                 (N.lor layer (piece_row (bits_of p) (row (loc p))
                                         (height s - Z.of_nat i - 1)))
               <= width s).
  { apply bit_length_lor; [lia| |apply piece_row_within; [lia|exact Hbits]].
    destruct Hin as [->|Hin]; [change (bit_length 0) with 0; lia|].
    exact (proj1 (List.Forall_forall _ _) Hb _ Hin). }
  split; [apply format_b_length; [exact Hx|lia]|].
  intros c Hc. rewrite format_b_nth by (try exact Hx; lia).
  replace (N.of_nat (Z.to_nat (width s) - 1 - Z.to_nat (width s - 1 - c)))
    with (Z.to_N c) by lia.
  match goal with |- context [bitc ?b] => destruct (bitc_one b) as (H1 & H2) end.
  split; [|exact H2]. rewrite H1, N.lor_spec, orb_true_iff.
  rewrite (Hlocked c ltac:(lia)).
  replace (height s - Z.of_nat i - 1) with (height s - 1 - Z.of_nat i) by lia.
  rewrite (piece_row_occupied p _ c Hn ltac:(lia)). reflexivity.
Qed.

Lemma Tetris_str_shows_witness :
  exists lines : list (list ascii),
    Tetris_str_lines held_state = Ok lines /\
    Tetris_str held_state = Ok (join "010"%char lines) /\
    Z.of_nat (length lines) = 20 /\
    forall (i : nat) (line : list ascii),
      lines !! i = Some line ->
      length line = 10%nat /\
      forall c : Z,
        0 <= c < 10 ->
        (nth (Z.to_nat (10 - 1 - c)) line "0"%char = "1"%char
         <-> locked (board held_state) (20 - 1 - Z.of_nat i) c
             \/ occupied (square_at 18 5) (20 - 1 - Z.of_nat i) c) /\
        (nth (Z.to_nat (10 - 1 - c)) line "0"%char = "1"%char \/
         nth (Z.to_nat (10 - 1 - c)) line "0"%char = "0"%char).
Proof.
  exact (Tetris_str_shows held_state (square_at 18 5) held_state_reachable
           ltac:(simpl; lia) ltac:(simpl; lia) eq_refl).
Defined.

Lemma digits_lsb_length (layer : N) :
  Z.of_nat (length (digits_lsb layer)) = Z.max 1 (bit_length layer).
Proof.
  unfold bit_length. destruct layer as [|q]; simpl; [reflexivity|].
  rewrite length_pos_digits. lia.
Qed.

Lemma format_b_length_any (layer : N) (w : Z) :
  Z.of_nat (length (format_b layer w))
  = Z.max w (Z.max 1 (bit_length layer)).
Proof.
  pose proof (digits_lsb_length layer) as HL. unfold format_b.
  rewrite bin_str_rev, length_app, repeat_length, length_rev. lia.
Qed.

Lemma format_b_nth_right (layer : N) (w : Z) (c : nat) :
  (c < length (format_b layer w))%nat ->
  nth (length (format_b layer w) - 1 - c) (format_b layer w) "0"%char
  = bitc (N.testbit layer (N.of_nat c)).
Proof.
  rewrite <- nth_digits_lsb. unfold format_b.
  rewrite bin_str_rev, length_app, repeat_length, length_rev.
  set (L := length (digits_lsb layer)). set (n := (Z.to_nat w - L)%nat).
  intros Hc. destruct (Nat.lt_ge_cases c L) as [Hlt|Hge].
  - rewrite app_nth2 by (rewrite repeat_length; fold n; lia).
    rewrite repeat_length. fold n. rewrite rev_nth by (fold L; lia).
    fold L. f_equal. lia.
  - rewrite app_nth1 by (rewrite repeat_length; fold n; lia).
    rewrite nth_repeat. symmetry. apply nth_overflow. fold L. lia.
Qed.

(** X15.  [Piece.__str__] shows the variant stored under [Dir.N], whatever
    the rotation state of the piece: one line for each of its rows, the
    last row first.  A line has max(w, 1, bit length of the row) characters,
    where w is the width of the current rotation state, so a row that is
    wider than the current variant is not cut; the character at position
    [c] from the right is '1' exactly when bit [c] of the row is set. *)
Theorem Piece_str_shows (p : Piece) :
  length (Piece_str_lines p) = length (dget (shapes p) N_) /\
  forall (i : nat) (line : list ascii),
    Piece_str_lines p !! i = Some line ->
    exists layer : N,
      dget (shapes p) N_ !! (length (dget (shapes p) N_) - 1 - i)%nat
      = Some layer /\
      Z.of_nat (length line)
      = Z.max (get_width p) (Z.max 1 (bit_length layer)) /\
      forall c : nat,
        (c < length line)%nat ->
        nth (length line - 1 - c) line "0"%char
        = bitc (N.testbit layer (N.of_nat c)).
Proof.
  unfold Piece_str_lines. split; [rewrite length_map, length_rev; reflexivity|].
  intros i line Hl. rewrite list_lookup_fmap in Hl.
  destruct (rev (dget (shapes p) N_) !! i) as [layer|] eqn:Hrow;
    [|discriminate].
  simpl in Hl. injection Hl as <-.
  pose proof (lookup_lt_Some _ _ _ Hrow) as Hi. rewrite length_rev in Hi.
  apply (nth_lookup_Some _ _ 0%N) in Hrow. rewrite rev_nth in Hrow by exact Hi.
  exists layer. split.
  - destruct (lookup_lt_is_Some_2 (dget (shapes p) N_)
                (length (dget (shapes p) N_) - 1 - i)%nat) as (y & Hy); [lia|].
    replace (length (dget (shapes p) N_) - S i)%nat
      with (length (dget (shapes p) N_) - 1 - i)%nat in Hrow by lia.
    rewrite (nth_lookup_Some _ _ 0%N _ Hy) in Hrow. subst y. exact Hy.
  - split; [apply format_b_length_any|].
    intros c Hc. apply format_b_nth_right. exact Hc.
Qed.

(** ** What an accepted move does to the cells of the piece *)

Lemma occupied_moved (p : Piece) (drow dcol r c : Z) :
  occupied (moved p drow dcol) r c <-> occupied p (r - drow) (c - dcol).
Proof.
  unfold occupied, moved, get_width. simpl.
  split; intros (i & layer & Hl & Hr & Hc & Hb); exists i, layer.
  - split; [exact Hl|]. split; [lia|]. split; [lia|].
    replace (c - dcol - (col (loc p) - dget (widths p) (rot p)))
      with (c - (col (loc p) + dcol - dget (widths p) (rot p))) by lia.
    exact Hb.
  - split; [exact Hl|]. split; [lia|]. split; [lia|].
    replace (c - (col (loc p) + dcol - dget (widths p) (rot p)))
      with (c - dcol - (col (loc p) - dget (widths p) (rot p))) by lia.
    exact Hb.
Qed.

Lemma accepted_tentative (s s' : Tetris) (p p' : Piece) (v : bool) :
  Sound s -> current_piece s = Some p -> tables_ok p' ->
  (v = true <-> fits s p') ->
  s' = (if v then set_current_piece s (Some p') else s) -> s' <> s ->
  s' = set_current_piece s (Some p') /\ placement_ok s p'.
Proof.
  intros HS Hp Ht Hiff Hs Hne.
  destruct v; [|congruence]. split; [exact Hs|].
  apply (fits_placement_ok s p' Ht). apply Hiff. reflexivity.
Qed.

(** X16.  A move that is accepted shifts every cell of the piece by exactly
    one place and changes nothing else in the state: [move_left] to the next
    higher column (one character to the left in the text of [__str__]),
    [move_right] to the next lower column, and a [move_down] that returns
    [True] to the next lower row.  The new placement satisfies the
    placement invariant on the unchanged board. *)
Theorem accepted_moves_shift_cells (s s' : Tetris) (p : Piece) :
  reachable s -> current_piece s = Some p ->
  (move_left s = Ok s' -> s' <> s ->
   exists p' : Piece,
     s' = set_current_piece s (Some p') /\ placement_ok s p' /\
     rot p' = rot p /\
     forall r c : Z, occupied p' r c <-> occupied p r (c - 1)) /\
  (move_right s = Ok s' -> s' <> s ->
   exists p' : Piece,
     s' = set_current_piece s (Some p') /\ placement_ok s p' /\
     rot p' = rot p /\
     forall r c : Z, occupied p' r c <-> occupied p r (c + 1)) /\
  (forall choice : list N,
     move_down s choice = Ok (true, s') ->
     exists p' : Piece,
       s' = set_current_piece s (Some p') /\ placement_ok s p' /\
       rot p' = rot p /\
       forall r c : Z, occupied p' r c <-> occupied p (r + 1) c).
Proof.
  intros Hr Hp. pose proof (reachable_Sound s Hr) as HS.
  destruct (sound_piece s HS) as (p0 & Hp0 & Hwf).
  rewrite Hp in Hp0. injection Hp0 as <-.
  assert (Ht : forall dr dc, tables_ok (moved p dr dc)).
  { intros dr dc. apply wf_piece_tables. unfold moved.
    apply wf_piece_set_loc. exact Hwf. }
  split; [|split].
  - intros Hm Hne. destruct (move_left_spec s p Hp) as (v & Hiff & E).
    rewrite E in Hm. injection Hm as Hm.
    destruct (accepted_tentative s s' p (moved p 0 1) v HS Hp (Ht 0 1) Hiff
                (eq_sym Hm) Hne) as (Hs' & Hok).
    exists (moved p 0 1). split; [exact Hs'|]. split; [exact Hok|].
    split; [reflexivity|]. intros r c. rewrite occupied_moved.
    replace (r - 0) with r by lia. reflexivity.
  - intros Hm Hne. destruct (move_right_spec s p Hp) as (v & Hiff & E).
    rewrite E in Hm. injection Hm as Hm.
    destruct (accepted_tentative s s' p (moved p 0 (-1)) v HS Hp (Ht 0 (-1))
                Hiff (eq_sym Hm) Hne) as (Hs' & Hok).
    exists (moved p 0 (-1)). split; [exact Hs'|]. split; [exact Hok|].
    split; [reflexivity|]. intros r c. rewrite occupied_moved.
    replace (r - 0) with r by lia. replace (c - -1) with (c + 1) by lia.
    reflexivity.
  - intros choice Hm. destruct (move_down_spec s p choice Hp) as (v & Hiff & E).
    rewrite E in Hm. destruct v.
    + injection Hm as Hm. exists (moved p (-1) 0).
      split; [symmetry; exact Hm|].
      split; [apply (fits_placement_ok s _ (Ht (-1) 0)); apply Hiff;
              reflexivity|].
      split; [reflexivity|]. intros r c. rewrite occupied_moved.
      replace (r - -1) with (r + 1) by lia. replace (c - 0) with c by lia.
      reflexivity.
    + destruct (_stop_piece s choice); cbn [bind] in Hm; discriminate.
Qed.

Lemma accepted_moves_shift_cells_witness :
  exists p' : Piece,
    set_current_piece floor_state (Some (square_at 0 6))
    = set_current_piece floor_state (Some p') /\
    placement_ok floor_state p' /\
    rot p' = N_ /\
    forall r c : Z, occupied p' r c <-> occupied (square_at 0 5) r (c - 1).
Proof.
  apply (proj1 (accepted_moves_shift_cells floor_state
                  (set_current_piece floor_state (Some (square_at 0 6)))
                  (square_at 0 5) floor_state_reachable eq_refl)).
  - vm_compute. reflexivity.
  - discriminate.
Defined.

(** ** What an accepted rotation does to the cells of the piece *)

Lemma wf_piece_turned (p : Piece) :
  wf_piece p ->
  forall d : Dir,
    rotation (dget (shapes p) d) = Ok (dget (shapes p) (prev_dir d)) /\
    dget (shapes p) (prev_dir d)
    = turned (dget (shapes p) d) (Z.to_nat (dget (widths p) d)) /\
    dget (widths p) (prev_dir d) = Z.of_nat (length (dget (shapes p) d)) /\
    1 <= dget (widths p) d.
Proof.
  intros (shape & Hin & Hp) d. destruct p as [sh l r ws hs].
  unfold set_rot in Hp. cbn [shapes loc rot widths heights] in *.
  shape_cases Hin.
  all: vm_compute in Hp; injection Hp as <- <- _.
  all: destruct d; vm_compute; repeat split; discriminate.
Qed.

Lemma occupied_at (p : Piece) (u v : nat) :
  occupied p (row (loc p) + Z.of_nat u)
             (col (loc p) - get_width p + Z.of_nat v)
  <-> N.testbit (nth u (dget (shapes p) (rot p)) 0%N) (N.of_nat v) = true.
Proof.
  unfold occupied. split.
  - intros (i & layer & Hl & Hr & _ & Hb).
    assert (i = u) by lia. subst i.
    rewrite (nth_lookup_Some _ _ 0%N _ Hl).
    replace (N.of_nat v)
      with (Z.to_N (col (loc p) - get_width p + Z.of_nat v
                    - (col (loc p) - get_width p))) by lia.
    exact Hb.
  - intros Hb.
    destruct (Nat.lt_ge_cases u (length (dget (shapes p) (rot p))))
      as [Hlt|Hge].
    + destruct (lookup_lt_is_Some_2 _ _ Hlt) as (layer & Hl).
      rewrite (nth_lookup_Some _ _ 0%N _ Hl) in Hb.
      exists u, layer. split; [exact Hl|]. split; [reflexivity|].
      split; [lia|].
      replace (Z.to_N (col (loc p) - get_width p + Z.of_nat v
                       - (col (loc p) - get_width p)))
        with (N.of_nat v) by lia.
      exact Hb.
    + rewrite nth_overflow in Hb by exact Hge. rewrite N.bits_0 in Hb.
      discriminate.
Qed.

Lemma occupied_in_box (p : Piece) (r c : Z) :
  occupied p r c -> row (loc p) <= r /\ col (loc p) - get_width p <= c.
Proof. intros (i & layer & _ & Hr & Hc & _). lia. Qed.

(** The cells of [q] turned with [rot_left], against the cells of [q]. *)
Lemma turn_cells (q : Piece) (j k : Z) :
  wf_piece q -> 0 <= j -> 0 <= k ->
  let q' := set_rot q (prev_dir (rot q)) in
  occupied q' (row (loc q) + k) (col (loc q) - get_width q' + j)
  <-> occupied q (row (loc q) + j) (col (loc q) - 1 - k).
Proof.
  intros Hwf Hj Hk q'.
  destruct (wf_piece_turned q Hwf (rot q)) as (_ & Hsh & Hwd & Hw1).
  set (shape := dget (shapes q) (rot q)) in *.
  set (W := Z.to_nat (get_width q)).
  assert (HW : get_width q = Z.of_nat W) by (unfold W, get_width in *; lia).
  pose proof (occupied_at q' (Z.to_nat k) (Z.to_nat j)) as Hq'.
  change (loc q') with (loc q) in Hq'.
  change (dget (shapes q') (rot q')) with (dget (shapes q) (prev_dir (rot q)))
    in Hq'.
  rewrite !Z2Nat.id in Hq' by lia. rewrite Hq', Hsh. clear Hq'.
  fold W. unfold get_width in W. fold W.
  destruct (Z.lt_ge_cases k (get_width q)) as [Hlt|Hge].
  - pose proof (occupied_at q (Z.to_nat j) (W - 1 - Z.to_nat k)) as Hq.
    replace (col (loc q) - get_width q + Z.of_nat (W - 1 - Z.to_nat k))
      with (col (loc q) - 1 - k) in Hq by lia.
    rewrite Z2Nat.id in Hq by lia. rewrite Hq. clear Hq. fold shape.
    destruct (Nat.lt_ge_cases (Z.to_nat j) (length shape)) as [Hjl|Hjg].
    + rewrite turned_bit by lia. reflexivity.
    + rewrite turned_bit_high by exact Hjg.
      rewrite (nth_overflow shape) by exact Hjg. rewrite N.bits_0.
      reflexivity.
  - rewrite nth_overflow by (rewrite turned_length; lia).
    rewrite N.bits_0. split; [discriminate|].
    intros Ho. apply occupied_in_box in Ho. lia.
Qed.

(** X17.  A rotation that is accepted keeps the anchor, changes nothing else
    in the state and turns the cells of the piece by a quarter turn inside
    its bounding box.  After [rot_left] the current variant is [rotation]
    of the former one, as wide as that was high, and the cell that lay [j]
    rows above the anchor row in column [col - 1 - k] lies [k] rows above
    the anchor row, [j] columns above the lowest column of the new box.
    [rot_right] is the converse: the former variant is [rotation] of the
    new one.  The new placement satisfies the placement invariant. *)
Theorem accepted_rotations_turn_cells (s s' : Tetris) (p : Piece) :
  reachable s -> current_piece s = Some p ->
  (rot_left s = Ok s' -> s' <> s ->
   exists p' : Piece,
     s' = set_current_piece s (Some p') /\ placement_ok s p' /\
     loc p' = loc p /\ rot p' = prev_dir (rot p) /\
     rotation (dget (shapes p) (rot p)) = Ok (dget (shapes p') (rot p')) /\
     get_width p' = Z.of_nat (length (dget (shapes p) (rot p))) /\
     forall j k : Z,
       0 <= j -> 0 <= k ->
       (occupied p' (row (loc p) + k) (col (loc p) - get_width p' + j)
        <-> occupied p (row (loc p) + j) (col (loc p) - 1 - k))) /\
  (rot_right s = Ok s' -> s' <> s ->
   exists p' : Piece,
     s' = set_current_piece s (Some p') /\ placement_ok s p' /\
     loc p' = loc p /\ rot p' = next_dir (rot p) /\
     rotation (dget (shapes p') (rot p')) = Ok (dget (shapes p) (rot p)) /\
     get_width p = Z.of_nat (length (dget (shapes p') (rot p'))) /\
     forall j k : Z,
       0 <= j -> 0 <= k ->
       (occupied p (row (loc p) + k) (col (loc p) - get_width p + j)
        <-> occupied p' (row (loc p) + j) (col (loc p) - 1 - k))).
Proof.
  intros Hr Hp. pose proof (reachable_Sound s Hr) as HS.
  destruct (sound_piece s HS) as (p0 & Hp0 & Hwf).
  rewrite Hp in Hp0. injection Hp0 as <-.
  split.
  - intros Hm Hne. destruct (rot_left_spec s p Hp) as (v & Hiff & E).
    rewrite E in Hm. injection Hm as Hm.
    set (p' := set_rot p (prev_dir (rot p))) in *.
    assert (Hwf' : wf_piece p') by (apply wf_piece_set_rot; exact Hwf).
    destruct (accepted_tentative s s' p p' v HS Hp (wf_piece_tables p' Hwf')
                Hiff (eq_sym Hm) Hne) as (Hs' & Hok).
    destruct (wf_piece_turned p Hwf (rot p)) as (Hrot & _ & Hwd & _).
    exists p'. split; [exact Hs'|]. split; [exact Hok|].
    split; [reflexivity|]. split; [reflexivity|].
    split; [exact Hrot|]. split; [exact Hwd|].
    intros j k Hj Hk. exact (turn_cells p j k Hwf Hj Hk).
  - intros Hm Hne. destruct (rot_right_spec s p Hp) as (v & Hiff & E).
    rewrite E in Hm. injection Hm as Hm.
    set (p' := set_rot p (next_dir (rot p))) in *.
    assert (Hwf' : wf_piece p') by (apply wf_piece_set_rot; exact Hwf).
    destruct (accepted_tentative s s' p p' v HS Hp (wf_piece_tables p' Hwf')
                Hiff (eq_sym Hm) Hne) as (Hs' & Hok).
    destruct (wf_piece_turned p' Hwf' (rot p')) as (Hrot & _ & Hwd & _).
    pose proof (turned_back_right p) as Hback. fold p' in Hback.
    change (next_dir (rot p)) with (rot p') in Hback.
    assert (Hprev : prev_dir (rot p') = rot p)
      by (unfold p'; simpl; destruct (rot p); reflexivity).
    exists p'. split; [exact Hs'|]. split; [exact Hok|].
    split; [reflexivity|]. split; [reflexivity|].
    split; [rewrite Hrot, Hprev; reflexivity|].
    split; [unfold get_width; rewrite <- Hprev; exact Hwd|].
    intros j k Hj Hk. pose proof (turn_cells p' j k Hwf' Hj Hk) as Ht.
    cbv zeta in Ht. rewrite Hback in Ht. exact Ht.
Qed.

Lemma accepted_rotations_turn_cells_witness :
  exists p' : Piece,
    set_current_piece floor_state (Some (set_rot (square_at 0 5) W_))
    = set_current_piece floor_state (Some p') /\
    placement_ok floor_state p' /\
    loc p' = mkLoc 0 5 /\ rot p' = W_ /\
    rotation [3; 3]%N = Ok (dget (shapes p') (rot p')) /\
    get_width p' = 2 /\
    forall j k : Z,
      0 <= j -> 0 <= k ->
      (occupied p' (0 + k) (5 - get_width p' + j)
       <-> occupied (square_at 0 5) (0 + j) (5 - 1 - k)).
Proof.
  apply (proj1 (accepted_rotations_turn_cells floor_state
                  (set_current_piece floor_state
                     (Some (set_rot (square_at 0 5) W_)))
                  (square_at 0 5) floor_state_reachable eq_refl)).
  - vm_compute. reflexivity.
  - discriminate.
Defined.

(** ** The constructor, and the restart of [main] *)

(** X18.  [Tetris.__init__] with a width that is not negative and any shape
    of the table raises nothing and gives an empty board, no cleared line,
    the given starting level as level, no held piece, and a piece of the
    drawn shape at row [height - len(shape)], column [width // 2].  It sets
    [game_over] to [False] after the spawn, so the game is not over even on
    a board too small for the piece; on a board of at least 4 rows and 6
    columns the piece is in place.  It does not assign [can_hold]: the
    attribute is what it was (unassigned on a fresh object, the old value
    when [main] restarts the game, which is this call with 20, 10 and 0).
    The first [hold] afterwards stores the piece all the same. *)
Theorem Tetris_init_fresh (old : option bool) (height0 width0 level0 : Z)
    (choice : list N) :
  0 <= width0 -> In choice SHAPES_values ->
  exists (s : Tetris) (p : Piece),
    Tetris_init old height0 width0 level0 choice = Ok s /\
    (forall s0 : Tetris, can_hold s0 = old -> height0 = 20 -> width0 = 10 ->
                         level0 = 0 -> restart s0 choice = Ok s) /\
    width s = width0 /\ height s = height0 /\ board s = [] /\
    cleared_lines s = 0 /\ starting_level s = level0 /\
    get_level s = level0 /\
    hold_piece s = None /\ game_over s = false /\ can_hold s = old /\
    current_piece s = Some p /\
    Piece_init (mkLoc (height0 - Z.of_nat (length choice)) (width0 / 2)) choice
    = Ok p /\
    loc p = mkLoc (height0 - Z.of_nat (length choice)) (width0 / 2) /\
    rot p = N_ /\
    (4 <= height0 -> 6 <= width0 -> placement_ok s p) /\
    forall c2 : list N,
      In c2 SHAPES_values ->
      exists s2 : Tetris,
        hold s c2 = Ok s2 /\ hold_piece s2 = Some p /\
        can_hold s2 = Some false.
Proof.
  intros Hw Hin.
  destruct (Tetris_init_Sound old height0 width0 level0 choice Hw Hin)
    as (s & Hi & HS & Hws & Hhs & Hhp & Hb & Hgo).
  pose proof Hi as Hi0. unfold Tetris_init in Hi0.
  unfold _next_piece in Hi0.
  match type of Hi0 with
  | context [_add_piece ?s0 choice] =>
      destruct (add_piece_current s0 choice Hin)
        as (p & s1 & Hpi & Hadd & Hcur & _ & _ & _ & _ & _ & _ & _ & _ & Hch)
  end.
  rewrite Hadd in Hi0. cbn [bind] in Hi0. injection Hi0 as Hs.
  simpl in Hpi, Hch.
  destruct (Piece_init_fields _ _ _ Hpi) as (Hloc & Hrot & _ & _ & Ht).
  assert (Hcs : current_piece s = Some p) by (rewrite <- Hs; exact Hcur).
  exists s, p. split; [exact Hi|].
  split; [intros s0 <- -> -> ->; exact Hi|].
  split; [exact Hws|]. split; [exact Hhs|]. split; [exact Hb|].
  split; [rewrite <- Hs; reflexivity|].
  split; [rewrite <- Hs; reflexivity|].
  split; [rewrite <- Hs; unfold get_level; simpl; rewrite Z.add_0_r;
          reflexivity|].
  split; [exact Hhp|]. split; [exact Hgo|].
  split; [rewrite <- Hs; exact Hch|].
  split; [exact Hcs|]. split; [exact Hpi|]. split; [exact Hloc|].
  split; [exact Hrot|]. split.
  - intros Hh4 Hw6.
    pose proof (Tetris_init_Inv old height0 width0 level0 choice s Hh4 Hw6
                  Hin Hi) as HI.
    apply (fits_placement_ok s p Ht). exact (inv_playing s HI Hgo p Hcs).
  - intros c2 Hc2.
    destruct (hold_cases s c2 HS Hc2)
      as (s2 & Hh2 & _ & Hch2 & _ & _ & _ & Hcase).
    rewrite Hhp in Hcase. destruct Hcase as (Hheld & _).
    exists s2. split; [exact Hh2|]. split; [|exact Hch2].
    rewrite Hheld. exact Hcs.
Qed.

Lemma Tetris_init_fresh_witness :
  exists (s : Tetris) (p : Piece),
    Tetris_init None 20 10 0 [2; 7]%N = Ok s /\
    current_piece s = Some p /\ loc p = mkLoc 18 5 /\
    game_over s = false /\ can_hold s = None /\ placement_ok s p.
Proof.
  destruct (Tetris_init_fresh None 20 10 0 [2; 7]%N ltac:(lia)
              ltac:(unfold SHAPES_values, SHAPES; simpl; tauto))
    as (s & p & Hi & _ & _ & _ & _ & _ & _ & _ & _ & Hgo & Hch & Hcur & _
        & Hloc & _ & Hok & _).
  exists s, p. split; [exact Hi|]. split; [exact Hcur|].
  split; [exact Hloc|]. split; [exact Hgo|]. split; [exact Hch|].
  apply Hok; lia.
Defined.

(** ** The [game_over] flag is never read *)

Lemma erase_inv (s1 s2 : Tetris) :
  erase_game_over s1 = erase_game_over s2 ->
  s2 = set_game_over s1 (game_over s2).
Proof.
  destruct s1, s2. unfold erase_game_over, set_game_over. simpl.
  intros H. injection H as -> -> -> -> -> -> -> -> ->. reflexivity.
Qed.

Lemma sim_bind {B : Type} (g : B -> B) (r1 r2 : result Tetris)
    (k : Tetris -> result B) :
  result_map erase_game_over r1 = result_map erase_game_over r2 ->
  (forall s b, result_map g (k s) = result_map g (k (set_game_over s b))) ->
  result_map g (bind r1 k) = result_map g (bind r2 k).
Proof.
  intros H Hk. destruct r1 as [s1|e1], r2 as [s2|e2]; simpl in H;
    try discriminate.
  - assert (H' : erase_game_over s1 = erase_game_over s2) by congruence.
    apply erase_inv in H'. rewrite H'. cbn [bind]. apply Hk.
  - assert (e1 = e2) as -> by congruence. reflexivity.
Qed.

Lemma move_piece_flag (s : Tetris) (b : bool) (drow dcol : Z) :
  result_map erase_game_over (move_piece s drow dcol)
  = result_map erase_game_over (move_piece (set_game_over s b) drow dcol).
Proof.
  unfold move_piece, the_piece. simpl. destruct (current_piece s); reflexivity.
Qed.

Lemma turn_piece_flag (s : Tetris) (b : bool) (f : Piece -> result Piece) :
  result_map erase_game_over (turn_piece s f)
  = result_map erase_game_over (turn_piece (set_game_over s b) f).
Proof.
  unfold turn_piece, the_piece. simpl.
  destruct (current_piece s) as [p|]; [|reflexivity]. cbn [bind].
  destruct (f p); reflexivity.
Qed.

Lemma add_piece_flag (s : Tetris) (b : bool) (shape : list N) :
  result_map erase_game_over (_add_piece s shape)
  = result_map erase_game_over (_add_piece (set_game_over s b) shape).
Proof.
  unfold _add_piece.
  change (height (set_game_over s b)) with (height s).
  change (width (set_game_over s b)) with (width s).
  destruct (Piece_init _ shape) as [p|]; [|reflexivity]. cbn [bind].
  change (piece_en_cours (set_current_piece (set_game_over s b) (Some p)))
    with (piece_en_cours (set_current_piece s (Some p))).
  destruct (piece_en_cours (set_current_piece s (Some p))) as [[|]|];
    reflexivity.
Qed.

Lemma stop_piece_flag (s : Tetris) (b : bool) (choice : list N) :
  result_map erase_game_over (_stop_piece s choice)
  = result_map erase_game_over (_stop_piece (set_game_over s b) choice).
Proof.
  unfold _stop_piece, the_piece.
  change (current_piece (set_game_over s b)) with (current_piece s).
  change (board (set_game_over s b)) with (board s).
  destruct (current_piece s) as [p|]; [|reflexivity]. cbn [bind].
  destruct (get_bits p) as [bits|]; [|reflexivity]. cbn [bind].
  destruct (_stop_piece_loop (board s) (row (loc p)) bits) as [m|];
    [|reflexivity].
  cbn [bind]. unfold _next_piece.
  change (_clear_rows (set_board (set_game_over s b) m))
    with (set_game_over (_clear_rows (set_board s m)) b).
  apply sim_bind; [apply add_piece_flag|]. reflexivity.
Qed.

Lemma tentative_flag (s : Tetris) (b : bool)
    (back : Tetris -> result Tetris) :
  (forall s1 b1, result_map erase_game_over (back s1)
                 = result_map erase_game_over (back (set_game_over s1 b1))) ->
  result_map erase_game_over
    (ok <- piece_en_cours s ;; if negb ok then back s else Ok s)
  = result_map erase_game_over
      (ok <- piece_en_cours (set_game_over s b) ;;
       if negb ok then back (set_game_over s b) else Ok (set_game_over s b)).
Proof.
  intros Hback.
  change (piece_en_cours (set_game_over s b)) with (piece_en_cours s).
  destruct (piece_en_cours s) as [[|]|]; cbn [bind negb];
    [reflexivity|apply Hback|reflexivity].
Qed.

Lemma move_down_flag (s : Tetris) (b : bool) (choice : list N) :
  result_map (fun r => (fst r, erase_game_over (snd r))) (move_down s choice)
  = result_map (fun r => (fst r, erase_game_over (snd r)))
               (move_down (set_game_over s b) choice).
Proof.
  unfold move_down. apply sim_bind; [apply move_piece_flag|].
  intros s1 b1.
  change (piece_en_cours (set_game_over s1 b1)) with (piece_en_cours s1).
  destruct (piece_en_cours s1) as [[|]|]; cbn [bind negb]; try reflexivity.
  apply sim_bind; [apply move_piece_flag|]. intros s2 b2.
  apply sim_bind; [apply stop_piece_flag|]. reflexivity.
Qed.

Lemma drop_loop_flag (fuel : nat) (choice : list N) :
  forall (s : Tetris) (b : bool),
    option_map (result_map erase_game_over) (drop_loop fuel s choice)
    = option_map (result_map erase_game_over)
                 (drop_loop fuel (set_game_over s b) choice).
Proof.
  induction fuel as [|fuel IH]; intros s b; [reflexivity|]. simpl.
  pose proof (move_down_flag s b choice) as H.
  destruct (move_down s choice) as [[v s1]|e1],
           (move_down (set_game_over s b) choice) as [[v' s1']|e1'];
    simpl in H; try discriminate.
  - assert (Hv : v = v') by congruence.
    assert (H' : erase_game_over s1 = erase_game_over s1') by congruence.
    subst v'. destruct v; [|simpl; rewrite H'; reflexivity].
    apply erase_inv in H'. rewrite H'. apply IH.
  - assert (e1 = e1') as -> by congruence. reflexivity.
Qed.

Lemma hold_flag_ignored (s : Tetris) (b : bool) (choice : list N) :
  result_map erase_game_over (hold s choice)
  = result_map erase_game_over (hold (set_game_over s b) choice).
Proof.
  unfold hold, _next_piece, read_can_hold.
  change (hold_piece (set_game_over s b)) with (hold_piece s).
  change (can_hold (set_game_over s b)) with (can_hold s).
  change (current_piece (set_game_over s b)) with (current_piece s).
  change (set_hold_piece (set_game_over s b) (current_piece s))
    with (set_game_over (set_hold_piece s (current_piece s)) b).
  destruct (hold_piece s) as [hp|].
  - destruct (can_hold s) as [[|]|]; cbn [bind]; try reflexivity.
    apply sim_bind; [apply add_piece_flag|]. reflexivity.
  - apply sim_bind; [apply add_piece_flag|]. reflexivity.
Qed.

(** X19.  No operation of the controller reads [game_over]: in any state,
    with the flag set either way, every action raises the same exception or
    returns the same state up to the flag itself ([drop] also runs out of
    iterations in the same cases).  So a game that is over still accepts
    every move, locks pieces and clears rows exactly as a game that is not
    over. *)
Theorem game_over_never_read (s : Tetris) (b : bool) (a : action) :
  option_map (result_map erase_game_over) (step (set_game_over s b) a)
  = option_map (result_map erase_game_over) (step s a).
Proof.
  symmetry. destruct a as [c| | |fuel c| | |c|c]; simpl.
  - f_equal. pose proof (move_down_flag s b c) as H.
    destruct (move_down s c) as [[v s1]|e1],
             (move_down (set_game_over s b) c) as [[v' s1']|e1'];
      simpl in H; try discriminate.
    + assert (H' : erase_game_over s1 = erase_game_over s1') by congruence.
      simpl. rewrite H'. reflexivity.
    + assert (e1 = e1') as -> by congruence. reflexivity.
  - f_equal. unfold move_left. apply sim_bind; [apply move_piece_flag|].
    intros s1 b1. apply (tentative_flag s1 b1 (fun s2 => move_piece s2 0 (-1))).
    intros s2 b2. apply move_piece_flag.
  - f_equal. unfold move_right. apply sim_bind; [apply move_piece_flag|].
    intros s1 b1. apply (tentative_flag s1 b1 (fun s2 => move_piece s2 0 1)).
    intros s2 b2. apply move_piece_flag.
  - apply drop_loop_flag.
  - f_equal. unfold rot_right. apply sim_bind; [apply turn_piece_flag|].
    intros s1 b1.
    apply (tentative_flag s1 b1 (fun s2 => turn_piece s2 Piece_rot_left)).
    intros s2 b2. apply turn_piece_flag.
  - f_equal. unfold rot_left. apply sim_bind; [apply turn_piece_flag|].
    intros s1 b1.
    apply (tentative_flag s1 b1 (fun s2 => turn_piece s2 Piece_rot_right)).
    intros s2 b2. apply turn_piece_flag.
  - f_equal. apply hold_flag_ignored.
  - reflexivity.
Qed.
